(** * WebNest: URL-to-launcher tool

    A shallow embedding of the WebNest sources (the icon pipeline, the
    string utilities, the installer, browser discovery and the
    command-line action) together with the properties of the
    natural-language specification that can be stated over it, and with
    further properties of the code.

    Conventions of the embedding.
    - JavaScript strings are [string]s; a character is a code unit below
      256, which covers every literal and pattern of the program.
      The numbers of the program, the sizes and priorities of icons, are
      integers held in IEEE 754 doubles: [number].
    - A promise that settles is [Ret] (fulfilled) or [Throw] (rejected);
      an exception that escapes from an event-emitter callback, which Node
      reports as an uncaught exception and answers by terminating the
      process, is [Crash].
    - The file system is a finite map from path strings to nodes, threaded
      through a state-and-error monad.
    - What belongs to the platform and not to the repository (the WHATWG
      [URL] constructor, [JSON.parse], the network, the external commands)
      is a parameter: the class [Runtime] and the record [Env]. *)

From stdpp Require Import base strings gmap list pretty.
From Stdlib Require Import ZArith Ascii String Permutation Sorted.
From Stdlib Require Floats.SpecFloat.

Open Scope string_scope.
Open Scope Z_scope.

(** ** JavaScript strings *)

Definition code (c : ascii) : N := N_of_ascii c.

Definition lowerChar (c : ascii) : ascii :=
  let n := code c in
  if ((65 <=? n) && (n <=? 90))%N then ascii_of_N (n + 32)
  else if ((192 <=? n) && (n <=? 222) && negb (n =? 215))%N then ascii_of_N (n + 32)
  else c.

(** [String.prototype.toLowerCase] *)
Fixpoint toLowerCase (s : string) : string :=
  match s with
  | EmptyString => EmptyString
  | String c s' => String (lowerChar c) (toLowerCase s')
  end.

(** [String.prototype.startsWith] *)
Definition startsWith (s p : string) : bool := String.prefix p s.

(** [String.prototype.endsWith] *)
Fixpoint endsWith (s p : string) : bool :=
  if String.eqb s p then true
  else match s with
       | EmptyString => false
       | String _ s' => endsWith s' p
       end.

(** [String.prototype.includes] *)
Fixpoint includes (s p : string) : bool :=
  if String.prefix p s then true
  else match s with
       | EmptyString => false
       | String _ s' => includes s' p
       end.

(** [String.prototype.slice(n)] *)
Fixpoint slice (n : nat) (s : string) : string :=
  match n, s with
  | O, _ => s
  | S n', String _ s' => slice n' s'
  | S _, EmptyString => EmptyString
  end.

(** [String.prototype.substring(0, n)] *)
Fixpoint substring0 (n : nat) (s : string) : string :=
  match n, s with
  | S n', String c s' => String c (substring0 n' s')
  | _, _ => EmptyString
  end.

(** [s.replace(p, r)] for a string pattern: the first occurrence only. *)
Fixpoint replaceFirst (p r s : string) : string :=
  if String.prefix p s then r +:+ slice (String.length p) s
  else match s with
       | EmptyString => EmptyString
       | String c s' => String c (replaceFirst p r s')
       end.

(** [s.replace(/c/g, r)] for a single-character pattern. *)
Fixpoint replaceChar (c : ascii) (r : string) (s : string) : string :=
  match s with
  | EmptyString => EmptyString
  | String d s' =>
      (if Ascii.eqb c d then r else String d EmptyString) +:+ replaceChar c r s'
  end.

(** [s.replace(/[class]/g, '')] *)
Fixpoint removeChars (p : ascii -> bool) (s : string) : string :=
  match s with
  | EmptyString => EmptyString
  | String c s' => if p c then removeChars p s' else String c (removeChars p s')
  end.

(** The class [\s] on code units below 256. *)
Definition isSpace (c : ascii) : bool :=
  let n := code c in
  (((9 <=? n) && (n <=? 13)) || (n =? 32) || (n =? 160))%N.

(** [s.replace(/\s+/g, ' ')] *)
Fixpoint collapseSpaces (s : string) : string :=
  match s with
  | EmptyString => EmptyString
  | String c s' =>
      if isSpace c then
        match s' with
        | String d _ => if isSpace d then collapseSpaces s' else String " " (collapseSpaces s')
        | EmptyString => String " " EmptyString
        end
      else String c (collapseSpaces s')
  end.

Fixpoint trimStart (s : string) : string :=
  match s with
  | String c s' => if isSpace c then trimStart s' else s
  | EmptyString => EmptyString
  end.

(** [String.prototype.trim] *)
Definition trim (s : string) : string :=
  String.rev (trimStart (String.rev (trimStart s))).

(** [s.split(c)[0]]: the part before the first [c]. *)
Fixpoint splitHead (c : ascii) (s : string) : string :=
  match s with
  | EmptyString => EmptyString
  | String d s' => if Ascii.eqb c d then EmptyString else String d (splitHead c s')
  end.

Definition isDigit (c : ascii) : bool := ((48 <=? code c) && (code c <=? 57))%N.

Fixpoint digits (acc : option Z) (s : string) : option Z :=
  match s with
  | String c s' =>
      if isDigit c
      then digits (Some (10 * default 0 acc + Z.of_N (code c - 48))) s'
      else acc
  | EmptyString => acc
  end.

(** The integer that the leading digits of [s] denote, after white space
    and a sign; [None] when there is no digit. *)
Definition mathInt (s : string) : option Z :=
  match trimStart s with
  | String "-" s' => Z.opp <$> digits None s'
  | String "+" s' => digits None s'
  | s' => digits None s'
  end.

(** ** JavaScript numbers

    The numbers the program computes with are the sizes of icons and their
    priorities: integers, held as the language holds every number, in an
    IEEE 754 double.  [Num z] is the double whose value is the integer
    [z]; the two zeros are one, as nothing in the program tells them
    apart. *)
Inductive number : Type :=
  | Num (z : Z)
  | Infinity (negative : bool).

#[export] Instance number_eq_dec : EqDecision number.
Proof. solve_decision. Defined.

(** The double nearest to the integer [n], for [n] not negative: an
    integer below 2^53 is a double; a larger one keeps its 53 leading
    bits, rounded to the nearest and, half way, to the even one. *)
Definition nearest (n : Z) : Z :=
  let e := Z.log2 n - 52 in
  if e <=? 0 then n
  else
    let q := n / 2 ^ e in
    let r := n mod 2 ^ e in
    let half := 2 ^ (e - 1) in
    (if (half <? r) || ((r =? half) && Z.odd q) then q + 1 else q) * 2 ^ e.

(** The number an integer is converted to: the nearest double, and an
    infinity beyond the largest one. *)
Definition toNumber (z : Z) : number :=
  let m := nearest (Z.abs z) in
  if 2 ^ 1024 <=? m then Infinity (z <? 0) else Num (Z.sgn z * m).

(** [a + z] for an integer [z] that is a double: the sum, rounded. *)
Definition plus (a : number) (z : Z) : number :=
  match a with
  | Num x => toNumber (x + z)
  | Infinity negative => Infinity negative
  end.

(** [a - b]: the difference, rounded; [None] is NaN, the difference of
    two infinities of one sign. *)
Definition minus (a b : number) : option number :=
  match a, b with
  | Num x, Num y => Some (toNumber (x - y))
  | Infinity negative, Num _ => Some (Infinity negative)
  | Num _, Infinity negative => Some (Infinity (negb negative))
  | Infinity n, Infinity n' => if Bool.eqb n n' then None else Some (Infinity n)
  end.

(** [v > 0], which is false of NaN. *)
Definition positive (v : option number) : bool :=
  match v with
  | Some (Num z) => 0 <? z
  | Some (Infinity negative) => negb negative
  | None => false
  end.

(** [parseInt(s, 10)]; [None] is NaN.  The digits are converted as V8
    converts them, to the nearest double. *)
Definition parseInt (s : string) : option number := toNumber <$> mathInt s.

(** [parseInt(s, 10) || 0]: NaN and zero give zero. *)
Definition parseIntOr0 (s : string) : number := default (Num 0) (parseInt s).

(** ** Regular expressions

    The fragment of ECMAScript regular expressions the program uses, with
    the backtracking order of the language: greedy quantifiers try the
    longest run first. *)

Inductive regex : Type :=
  | Lit (c : ascii)              (* a literal under the [i] flag *)
  | Cls (p : ascii -> bool)      (* one character of a class *)
  | Star (p : ascii -> bool)     (* [class]* *)
  | Group (p : ascii -> bool)    (* ([class]+), the capture *)
  | Cat (r1 r2 : regex).

Fixpoint greedy {A} (p : ascii -> bool) (s : string) (k : string -> option A) : option A :=
  match s with
  | String c s' =>
      if p c then
        match greedy p s' k with
        | Some r => Some r
        | None => k s
        end
      else k s
  | EmptyString => k s
  end.

(** The text of [s] in front of its suffix [rest]. *)
Definition consumed (s rest : string) : string :=
  substring0 (String.length s - String.length rest) s.

Fixpoint run {A} (r : regex) (s : string) (cap : option string)
    (k : string -> option string -> option A) : option A :=
  match r with
  | Lit c =>
      match s with
      | String d s' => if Ascii.eqb (lowerChar c) (lowerChar d) then k s' cap else None
      | EmptyString => None
      end
  | Cls p =>
      match s with
      | String d s' => if p d then k s' cap else None
      | EmptyString => None
      end
  | Star p => greedy p s (fun rest => k rest cap)
  | Group p =>
      match s with
      | String d s' =>
          if p d then greedy p s' (fun rest => k rest (Some (consumed s rest))) else None
      | EmptyString => None
      end
  | Cat r1 r2 => run r1 s cap (fun rest cap' => run r2 rest cap' k)
  end.

(** A match anchored at the start of [s]: the matched text and the group. *)
Definition matchAt (r : regex) (s : string) : option (string * option string) :=
  run r s None (fun rest cap => Some (consumed s rest, cap)).

(** [s.match(r)] without the [g] flag: the leftmost match. *)
Fixpoint search (r : regex) (s : string) : option (string * option string) :=
  match matchAt r s with
  | Some m => Some m
  | None =>
      match s with
      | String _ s' => search r s'
      | EmptyString => None
      end
  end.

(** The first capture group of the leftmost match, [m[1]]. *)
Definition capture (r : regex) (s : string) : option string :=
  match search r s with
  | Some (_, Some g) => Some g
  | _ => None
  end.

(** [s.match(r) || []] with the [g] flag: all matches, left to right,
    each search resuming where the previous match ended. *)
Fixpoint matchAll (r : regex) (s : string) (skip : nat) : list string :=
  match skip with
  | S n =>
      match s with
      | String _ s' => matchAll r s' n
      | EmptyString => []
      end
  | O =>
      match matchAt r s with
      | Some (m, _) =>
          m :: match s with
               | String _ s' => matchAll r s' (String.length m - 1)
               | EmptyString => []
               end
      | None =>
          match s with
          | String _ s' => matchAll r s' 0
          | EmptyString => []
          end
      end
  end.

Fixpoint lit (s : string) (r : regex) : regex :=
  match s with
  | EmptyString => r
  | String c s' => Cat (Lit c) (lit s' r)
  end.

(** The double quote, code 34, and the single quote, code 39. *)
Definition dquote : ascii := ascii_of_N 34.
Definition squote : ascii := ascii_of_N 39.
Definition dq : string := String dquote EmptyString.

(** The class written with both quote characters between brackets. *)
Definition isQuote (c : ascii) : bool := Ascii.eqb c dquote || Ascii.eqb c squote.
Definition notQuote (c : ascii) : bool := negb (isQuote c).
Definition notGt (c : ascii) : bool := negb (Ascii.eqb c ">").

(** [/<link[^>]*>/gi] *)
Definition linkRegex : regex := lit "<link" (Cat (Star notGt) (Cls (Ascii.eqb ">"))).

(** The pattern [name=Q([^Q]+)Q] under the [i] flag, where [Q] stands for
    the class of the two quote characters. *)
Definition attrRegex (name : string) : regex :=
  lit name (Cat (Lit "=") (Cat (Cls isQuote) (Cat (Group notQuote) (Cls isQuote)))).

(** The pattern [<link[^>]*rel=QmanifestQ[^>]*href=Q([^Q]+)Q] under the
    [i] flag. *)
Definition manifestRegex : regex :=
  lit "<link" (Cat (Star notGt)
    (lit "rel=" (Cat (Cls isQuote) (lit "manifest" (Cat (Cls isQuote) (Cat (Star notGt)
      (lit "href=" (Cat (Cls isQuote) (Cat (Group notQuote) (Cls isQuote)))))))))).

(** ** The platform: URLs, JSON, errors *)

Module URL.
(** The fields of a WHATWG [URL] object that the program reads. *)
Record t : Type := mk {
  protocol : string;
  hostname : string;
  port : string;
  pathname : string;
  search : string;
  href : string
}.
End URL.

#[local] Set Warnings "-register-all".

Inductive json : Type :=
  | JNull
  | JBool (b : bool)
  | JNum (n : Z)
  | JStr (s : string)
  | JArr (items : list json)
  | JObj (fields : list (string * json)).

(** What Node supplies.  [None] stands for the exception the constructor
    or the parser throws on malformed input. *)
Class Runtime : Type := {
  newURL : string -> option URL.t;              (* new URL(s) *)
  newURLBase : string -> string -> option URL.t; (* new URL(s, base) *)
  JSONparse : string -> option json              (* JSON.parse(s) *)
}.

Inductive error : Type :=
  | HttpStatusError (statusCode : Z)   (* new Error(`HTTP ${statusCode}`) *)
  | TimeoutError                       (* new Error('Request timed out') *)
  | TypeError (msg : string)
  | SyntaxError (msg : string)
  | SystemError (msg : string)         (* raised by sockets, fs, child_process *)
  | AppError (msg : string).           (* any other new Error(msg) of the program *)

(** [error.message] *)
Definition message (e : error) : string :=
  match e with
  | HttpStatusError n => "HTTP " +:+ pretty n
  | TimeoutError => "Request timed out"
  | TypeError m | SyntaxError m | SystemError m | AppError m => m
  end.

Inductive outcome (A : Type) : Type :=
  | Ret (a : A)
  | Throw (e : error)
  | Crash (e : error).
Arguments Ret {A} a.
Arguments Throw {A} e.
Arguments Crash {A} e.

#[export] Instance outcome_ret : MRet outcome := @Ret.
#[export] Instance outcome_bind : MBind outcome := fun A B f m =>
  match m with
  | Ret a => f a
  | Throw e => Throw e
  | Crash e => Crash e
  end.

#[export] Instance outcome_fmap : FMap outcome := fun A B f m =>
  match m with
  | Ret a => Ret (f a)
  | Throw e => Throw e
  | Crash e => Crash e
  end.

(** [try { m } catch (e) { h e }] on a computation without side effects. *)
Definition catch {A} (m : outcome A) (h : error -> outcome A) : outcome A :=
  match m with
  | Throw e => h e
  | r => r
  end.

Definition orThrow {A} (o : option A) (e : error) : outcome A :=
  match o with
  | Some a => Ret a
  | None => Throw e
  end.

Fixpoint forEach {A B} (f : A -> outcome B) (l : list A) : outcome (list B) :=
  match l with
  | [] => Ret []
  | x :: l' => y ← f x; ys ← forEach f l'; Ret (y :: ys)
  end.

(** JavaScript truthiness of a parsed JSON value. *)
Definition truthy (v : json) : bool :=
  match v with
  | JNull => false
  | JBool b => b
  | JNum n => negb (n =? 0)
  | JStr s => negb (String.eqb s "")
  | JArr _ | JObj _ => true
  end.

Fixpoint assoc (k : string) (l : list (string * json)) : option json :=
  match l with
  | [] => None
  | (k', v) :: l' => if String.eqb k k' then Some v else assoc k l'
  end.

(** [v.k] on a parsed JSON value; [None] is [undefined].  Of two members
    with one key the later one counts. *)
Definition getProp (v : json) (k : string) : outcome (option json) :=
  match v with
  | JNull => Throw (TypeError "Cannot read properties of null")
  | JObj fields => Ret (assoc k (reverse fields))
  | _ => Ret None
  end.

(** [a || b] where [a] may be [undefined]. *)
Definition orElse (a : option json) (b : json) : json :=
  match a with
  | Some v => if truthy v then v else b
  | None => b
  end.

(** ** The network *)

Record Request : Type := {
  rq_https : bool;          (* the module chosen: https or http *)
  rq_hostname : string;
  rq_port : string;
  rq_path : string;
  rq_accept : string
}.

Inductive Body : Type :=
  | BodyEnd (data : string)     (* 'data' chunks, then 'end' *)
  | BodyFail (msg : string)     (* 'error' on the response *)
  | BodyStall.                  (* the socket goes idle: 'timeout' *)

Inductive Reply : Type :=
  | ReqError (msg : string)     (* 'error' on the request *)
  | ReqTimeout                  (* 'timeout' on the request *)
  | Response (statusCode : Z) (location contentType : option string) (body : Body).

Record Fetched : Type := { data : string; contentType : string }.

(** ** External commands *)

Inductive tool : Type :=
  | RmRf (dir : string)                          (* rm -rf dir *)
  | Which (prog : string)                        (* which prog *)
  | ConvertIco (input output : string)           (* convert input -define icon:auto-resize=... output *)
  | Convert (input output : string)              (* convert input output *)
  | SipsResize (size : Z) (input output : string) (* sips -z size size input --out output *)
  | SipsPng (input output : string)              (* sips -s format png input --out output *)
  | Iconutil (iconset output : string)           (* iconutil -c icns iconset -o output *)
  | Qlmanage (outdir input : string)             (* qlmanage -t -s 1024 -o outdir input *)
  | Lsregister (flag path : string)              (* lsregister flag path *)
  | UpdateDesktopDatabase                        (* update-desktop-database ~/.local/share/applications/ *)
  | Powershell (script : string).                (* powershell -ExecutionPolicy Bypass -File script *)

(** A command line handed to [exec]: tool calls joined by [||]. *)
Inductive shell : Type :=
  | Run (t : tool)
  | OrElse (a b : shell)
  | STrue.

(** ** The environment of one run *)

Inductive node : Type :=
  | File (content : string)
  | Dir.

Record Env : Type := {
  platform : string;                   (* process.platform *)
  net : Request -> Reply;              (* what a GET is answered with *)
  overrun : error;                     (* what rejects a chain of redirects that takes too long *)
  toolOk : tool -> bool;               (* does the tool exist and succeed *)
  toolOutput : tool -> string;         (* the bytes a conversion tool writes *)
  readOnly : string -> bool;           (* paths whose change the OS refuses *)
  spared : string -> bool;             (* what a removal that fails has left of a tree *)
  HOME : option string;                (* process.env.HOME || process.env.USERPROFILE *)
  APPDATA : option string;             (* process.env.APPDATA *)
  TEMP : option string;                (* process.env.TEMP *)
  now : Z                              (* Date.now() *)
}.

Record World : Type := {
  fs : gmap string node;
  log : list shell;                    (* the command lines executed, latest first *)
  console : list string                (* the lines printed, latest first *)
}.

(** The monad of the program: state and the three outcomes. *)
Definition M (A : Type) : Type := World -> outcome A * World.

#[export] Instance M_ret : MRet M := fun A a w => (Ret a, w).
#[export] Instance M_bind : MBind M := fun A B f m w =>
  match m w with
  | (Ret a, w') => f a w'
  | (Throw e, w') => (Throw e, w')
  | (Crash e, w') => (Crash e, w')
  end.

Definition lift {A} (o : outcome A) : M A := fun w => (o, w).
Definition throw {A} (e : error) : M A := lift (Throw e).

(** [try { m } catch (e) { h e }] *)
Definition tryCatch {A} (m : M A) (h : error -> M A) : M A := fun w =>
  match m w with
  | (Throw e, w') => h e w'
  | r => r
  end.

(** ** Icon discovery (the icon module) *)

Module Icon.
(** An icon candidate.  The candidates read from a manifest carry a
    [purpose] and no [isAppleIcon]. *)
Record t : Type := mk {
  href : string;
  size : number;
  type : json;
  isAppleIcon : option bool;
  purpose : option json;
  priority : number
}.
End Icon.

Section Discovery.
Context `{RT : Runtime} (env : Env).

Definition requestOf (url : URL.t) (accept : string) : Request :=
  let https := String.eqb (URL.protocol url) "https:" in
  {| rq_https := https;
     rq_hostname := URL.hostname url;
     rq_port := if String.eqb (URL.port url) "" then (if https then "443" else "80")
                else URL.port url;
     rq_path := URL.pathname url +:+ URL.search url;
     rq_accept := if String.eqb accept "" then "*/*" else accept |}.

(** Is this response one that [fetchUrl] treats as a redirect, and if
    so, with which Location. *)
Definition redirectOf (statusCode : Z) (location : option string) : option string :=
  match location with
  | Some l =>
      if (300 <=? statusCode) && (statusCode <? 400) && negb (String.eqb l "")
      then Some l else None
  | None => None
  end.

(** The URL of the next request: the Location as it is when it starts
    with http, otherwise resolved against the URL of this request. *)
Definition redirectUrl (location urlString : string) : option string :=
  if startsWith location "http" then Some location
  else URL.href <$> newURLBase location urlString.

(** [fetchUrl(urlString, {accept})].  The program counts no hops, but
    the promise of a request that is redirected does not wait without
    end: the response of the redirect is never read, so the request keeps
    its socket and its [timeout] handler, and once the socket has idled
    for the 15 s of [reqOptions.timeout] the handler rejects the promise,
    unless the rest of the chain has settled it before; a request that
    can no longer be issued (its [error] event) rejects it the same way
    through the chain of [catch(reject)].  [fuel] is the number of hops
    that the chain completes before that, and [overrun env] the error of
    the rejection.  A Location that does not resolve throws inside the
    response callback, outside the promise: [Crash]. *)
Fixpoint fetchUrl (fuel : nat) (urlString accept : string) : outcome Fetched :=
  match newURL urlString with
  | None => Throw (TypeError "Invalid URL")
  | Some url =>
      match net env (requestOf url accept) with
      | ReqError msg => Throw (SystemError msg)
      | ReqTimeout => Throw TimeoutError
      | Response statusCode location ctype body =>
          match redirectOf statusCode location with
          | Some l =>
              match redirectUrl l urlString with
              | None => Crash (TypeError "Invalid URL")
              | Some next =>
                  match fuel with
                  | O => Throw (overrun env)
                  | S fuel' => fetchUrl fuel' next accept
                  end
              end
          | None =>
              if negb (statusCode =? 200) then Throw (HttpStatusError statusCode)
              else match body with
                   | BodyEnd d => Ret {| data := d; contentType := default "" ctype |}
                   | BodyFail msg => Throw (SystemError msg)
                   | BodyStall => Throw TimeoutError
                   end
          end
      end
  end.

(** [href.startsWith('http') ? href : new URL(href, base).href] *)
Definition absolute (href base : string) : outcome string :=
  if startsWith href "http" then Ret href
  else orThrow (URL.href <$> newURLBase href base) (TypeError "Invalid URL").

(** The leading number of a [sizes] value: [parseInt(s.split('x')[0], 10) || 0]. *)
Definition sizeOf (sizes : string) : number := parseIntOr0 (splitHead "x" sizes).

(** The body of the loop of [parseIconLinks] for one [link] tag: [None]
    is [continue]. *)
Definition linkIcon (baseUrl link : string) : outcome (option Icon.t) :=
  match capture (attrRegex "rel") link with
  | None => Ret None
  | Some relAttr =>
      let rel := toLowerCase relAttr in
      if negb (includes rel "icon") then Ret None
      else match capture (attrRegex "href") link with
           | None => Ret None
           | Some h =>
               href ← absolute h baseUrl;
               let size := match capture (attrRegex "sizes") link with
                           | Some s => sizeOf s
                           | None => Num 0
                           end in
               let type := default "" (capture (attrRegex "type") link) in
               let isAppleIcon := includes rel "apple-touch-icon" in
               Ret (Some {| Icon.href := href;
                            Icon.size := size;
                            Icon.type := JStr type;
                            Icon.isAppleIcon := Some isAppleIcon;
                            Icon.purpose := None;
                            Icon.priority := if isAppleIcon then plus size 1000 else size |})
           end
  end.

Fixpoint iconLinks (baseUrl : string) (links : list string) : outcome (list Icon.t) :=
  match links with
  | [] => Ret []
  | link :: rest =>
      i ← linkIcon baseUrl link;
      icons ← iconLinks baseUrl rest;
      Ret (match i with Some x => x :: icons | None => icons end)
  end.

(** [parseIconLinks(html, baseUrl)]: the icons and the manifest URL. *)
Definition parseIconLinks (html baseUrl : string) : outcome (list Icon.t * option string) :=
  icons ← iconLinks baseUrl (matchAll linkRegex html 0);
  match capture manifestRegex html with
  | Some m => manifestUrl ← absolute m baseUrl; Ret (icons, Some manifestUrl)
  | None => Ret (icons, None)
  end.

(** The callback of [manifest.icons.map]. *)
Definition manifestIcon (baseHref : string) (icon : json) : outcome Icon.t :=
  src ← getProp icon "src";
  href ← match src with
         | Some (JStr h) => absolute h baseHref
         | _ => Throw (TypeError "href.startsWith is not a function")
         end;
  sizes ← getProp icon "sizes";
  size ← match sizes with
         | Some v =>
             if truthy v then
               match v with
               | JStr s => Ret (sizeOf s)
               | _ => Throw (TypeError "icon.sizes.split is not a function")
               end
             else Ret (Num 0)
         | None => Ret (Num 0)
         end;
  type ← getProp icon "type";
  purpose ← getProp icon "purpose";
  Ret {| Icon.href := href;
         Icon.size := size;
         Icon.type := orElse type (JStr "");
         Icon.isAppleIcon := None;
         Icon.purpose := Some (orElse purpose (JStr "any"));
         Icon.priority := size |}.

(** [parseManifest(manifestUrl)] *)
Definition parseManifest (fuel : nat) (manifestUrl : string) : outcome (list Icon.t) :=
  catch
    (r ← fetchUrl fuel manifestUrl "application/json";
     manifest ← orThrow (JSONparse (data r)) (SyntaxError "Unexpected token");
     icons ← getProp manifest "icons";
     match icons with
     | Some (JArr items) =>
         baseUrl ← orThrow (newURL manifestUrl) (TypeError "Invalid URL");
         forEach (manifestIcon (URL.href baseUrl)) items
     | _ => Ret []
     end)
    (fun _ => Ret []).

(** The comparator of the sort: [(a, b) => b.priority - a.priority]. *)
Definition byPriority (a b : Icon.t) : option number :=
  minus (Icon.priority b) (Icon.priority a).

(** [Array.prototype.sort] with that comparator: the sort of the language
    is stable, and a stable sort has one result, the one of this
    insertion sort.  [x] stays in front of [y] unless the comparator is
    positive at them; a comparator that is NaN counts as zero. *)
Fixpoint insertIcon (x : Icon.t) (l : list Icon.t) : list Icon.t :=
  match l with
  | [] => [x]
  | y :: l' =>
      if positive (byPriority x y) then y :: insertIcon x l' else x :: l
  end.

Definition sortIcons (l : list Icon.t) : list Icon.t := foldr insertIcon [] l.

(** The fallback [`${url.protocol}//${url.hostname}/favicon.ico`]. *)
Definition faviconOf (url : URL.t) : string :=
  URL.protocol url +:+ "//" +:+ URL.hostname url +:+ "/favicon.ico".

Definition favicon (websiteUrl : string) : outcome string :=
  url ← orThrow (newURL websiteUrl) (TypeError "Invalid URL");
  Ret (faviconOf url).

(** [manifestUrl ? await parseManifest(manifestUrl) : []] *)
Definition manifestIconsFor (fuel : nat) (manifestUrl : option string)
    : outcome (list Icon.t) :=
  match manifestUrl with
  | Some u => if String.eqb u "" then Ret [] else parseManifest fuel u
  | None => Ret []
  end.

(** [getBestIconUrl(websiteUrl)] *)
Definition getBestIconUrl (fuel : nat) (websiteUrl : string) : outcome string :=
  catch
    (r ← fetchUrl fuel websiteUrl "text/html";
     let html := data r in
     '(htmlIcons, manifestUrl) ← parseIconLinks html websiteUrl;
     manifestIcons ← manifestIconsFor fuel manifestUrl;
     let allIcons := sortIcons (htmlIcons ++ manifestIcons)%list in
     match allIcons with
     | best :: _ => Ret (Icon.href best)
     | [] => favicon websiteUrl
     end)
    (fun _ => favicon websiteUrl).

End Discovery.

(** ** The file system and the external commands *)

Section FileSystem.
Context (env : Env).

Definition win32 : bool := String.eqb (platform env) "win32".

(** [path.sep] *)
Definition sepChar : ascii := if win32 then "\"%char else "/"%char.
Definition sep : string := String sepChar EmptyString.

(** [path.join(a, b)] on segments that are already normal: one
    separator between the two. *)
Definition pathJoin (a b : string) : string :=
  let b' := if startsWith b sep then slice 1 b else b in
  if String.eqb a "" then b
  else if endsWith a sep then a +:+ b' else a +:+ sep +:+ b'.

Fixpoint afterSep (s : string) : string :=
  match s with
  | EmptyString => EmptyString
  | String c s' => if Ascii.eqb c sepChar then s' else afterSep s'
  end.

(** [path.dirname]; the root and a bare name give the empty string. *)
Definition dirname (p : string) : string := String.rev (afterSep (String.rev p)).

(** [path.basename] *)
Definition basename (p : string) : string :=
  String.rev (splitHead sepChar (String.rev p)).

(** The directories above [p], outermost first. *)
Fixpoint ancestors (done : string) (p : string) : list string :=
  match p with
  | EmptyString => []
  | String c p' =>
      let rest := ancestors (String c done) p' in
      if Ascii.eqb c sepChar && negb (String.eqb done "")
      then String.rev done :: rest else rest
  end.

(** [k] is [p] or lies below the directory [p]. *)
Definition within (p k : string) : bool :=
  String.eqb k p || startsWith k (p +:+ sep).

Definition isFile (p : string) (w : World) : bool :=
  match fs w !! p with Some (File _) => true | _ => false end.
Definition isDir (p : string) (w : World) : bool :=
  match fs w !! p with Some Dir => true | _ => false end.
Definition present (p : string) (w : World) : bool :=
  match fs w !! p with Some _ => true | None => false end.
Definition parentOk (p : string) (w : World) : bool :=
  String.eqb (dirname p) "" || isDir (dirname p) w.

Definition setFs (f : gmap string node) (w : World) : World :=
  {| fs := f; log := log w; console := console w |}.
Definition put (p : string) (n : node) (w : World) : World :=
  setFs (<[p := n]> (fs w)) w.
Definition removeTree (p : string) (w : World) : World :=
  setFs (filter (fun kv => within p kv.1 = false) (fs w)) w.

Definition fail {A} (msg : string) : M A := throw (SystemError msg).

(** [fs.stat] *)
Definition statAsync (p : string) : M unit := fun w =>
  if present p w then (Ret tt, w) else fail "ENOENT: no such file or directory" w.

(** [fs.existsSync] *)
Definition existsSync (p : string) : M bool := fun w => (Ret (present p w), w).

(** [fs.writeFile] *)
Definition writeFileAsync (p content : string) : M unit := fun w =>
  if readOnly env p then fail "EACCES: permission denied" w
  else if negb (parentOk p w) then fail "ENOENT: no such file or directory" w
  else if isDir p w then fail "EISDIR: illegal operation on a directory" w
  else (Ret tt, put p (File content) w).

(** [fs.mkdir(dir, { recursive: true })] *)
Definition mkdirAsync (dir : string) : M unit := fun w =>
  let chain := (ancestors "" dir ++ [dir])%list in
  if isDir dir w then (Ret tt, w)
  else if readOnly env dir then fail "EACCES: permission denied" w
  else if existsb (fun q => isFile q w) chain then fail "EEXIST: file already exists" w
  else (Ret tt, foldr (fun q => put q Dir) w chain).

(** [fs.chmod] *)
Definition chmodAsync (p mode : string) : M unit := fun w =>
  if negb (present p w) then fail "ENOENT: no such file or directory" w
  else if readOnly env p then fail "EPERM: operation not permitted" w
  else (Ret tt, w).

(** [fs.readdir]: the names directly inside [dir]. *)
Definition readdirAsync (dir : string) : M (list string) := fun w =>
  if isDir dir w
  then (Ret (basename <$> filter (fun k => dirname k = dir) (fst <$> map_to_list (fs w))), w)
  else fail "ENOENT: no such file or directory" w.

(** [fs.readFileSync(p, 'utf8')] *)
Definition readFileSync (p : string) : M string := fun w =>
  match fs w !! p with
  | Some (File c) => (Ret c, w)
  | Some Dir => fail "EISDIR: illegal operation on a directory" w
  | None => fail "ENOENT: no such file or directory" w
  end.

(** [fs.copyFileSync] *)
Definition copyFileSync (src dst : string) : M unit := fun w =>
  match fs w !! src with
  | Some (File c) => writeFileAsync dst c w
  | _ => fail "ENOENT: no such file or directory" w
  end.

(** [fs.renameSync] of a file *)
Definition renameSync (src dst : string) : M unit := fun w =>
  match fs w !! src with
  | Some (File c) =>
      if readOnly env src then fail "EACCES: permission denied" w
      else match writeFileAsync dst c w with
           | (Ret _, w') => (Ret tt, setFs (delete src (fs w')) w')
           | r => r
           end
  | _ => fail "ENOENT: no such file or directory" w
  end.

(** [fs.unlinkSync] *)
Definition unlinkSync (p : string) : M unit := fun w =>
  if negb (isFile p w) then fail "ENOENT: no such file or directory" w
  else if readOnly env p then fail "EACCES: permission denied" w
  else (Ret tt, setFs (delete p (fs w)) w).

(** The OS refuses the change of [k] or of an entry below it. *)
Definition refusedIn (k : string) (w : World) : bool :=
  existsb (fun q => within k q && readOnly env q) (fst <$> map_to_list (fs w)).

(** [fs.rm(p, { recursive: true, force: true })].  The tree is removed,
    unless the OS refuses the change of one of its entries.  Then the
    promise is rejected; the entries refused and the directories above
    them are still there, and which of the others are gone depends on
    the way the platform went through the tree: [spared env] tells the
    ones it has left. *)
Definition rmAsync (p : string) : M unit := fun w =>
  if refusedIn p w
  then (Throw (SystemError "EACCES: permission denied"),
        setFs (filter (fun kv => negb (within p kv.1) || refusedIn kv.1 w || spared env kv.1 = true)
                 (fs w)) w)
  else (Ret tt, removeTree p w).

(** The directory that [update-desktop-database
    ~/.local/share/applications/] works on, the shell having put the home
    directory for the tilde, and the cache the tool rewrites in it. *)
Definition applicationsDir : option string :=
  (fun home => pathJoin home "/.local/share/applications") <$> HOME env.
Definition desktopDatabase : option string :=
  (fun dir => pathJoin dir "mimeinfo.cache") <$> applicationsDir.

(** The shortcut a generated PowerShell script saves: the argument of
    [CreateShortcut], with the doubled backslashes read as one. *)
Definition shortcutRegex : regex :=
  lit "CreateShortcut(" (Cat (Cls isQuote) (Cat (Group notQuote) (Cls isQuote))).

Fixpoint undouble (s : string) : string :=
  match s with
  | String "\" (String "\" s') => String "\" (undouble s')
  | String c s' => String c (undouble s')
  | EmptyString => EmptyString
  end.

(** Can the tool run at all: it is there, and so is what it reads. *)
Definition runs (t : tool) (w : World) : bool :=
  toolOk env t &&
  match t with
  | ConvertIco i _ | Convert i _ | SipsResize _ i _ | SipsPng i _ | Qlmanage _ i => isFile i w
  | Iconutil d _ => isDir d w
  | Powershell script => isFile script w
  | UpdateDesktopDatabase =>
      match applicationsDir, desktopDatabase with
      | Some dir, Some cache => isDir dir w && negb (isDir cache w) && negb (readOnly env cache)
      | _, _ => false
      end
  | _ => true
  end.

(** What a tool that ran has changed.  The paths are the ones the program
    writes between double quotes in the command line: the tool works on
    them when the shell hands them on as they are, which it does for the
    paths that are [shellPlain]. *)
Definition effect (t : tool) (w : World) : World :=
  match t with
  | RmRf d => removeTree d w
  | ConvertIco _ o | Convert _ o | SipsResize _ _ o | SipsPng _ o | Iconutil _ o =>
      put o (File (toolOutput env t)) w
  | Qlmanage outdir i =>
      put (pathJoin outdir (basename i +:+ ".png")) (File (toolOutput env t)) w
  | Powershell script =>
      match fs w !! script with
      | Some (File text) =>
          match capture shortcutRegex text with
          | Some lnk => put (undouble lnk) (File (toolOutput env t)) w
          | None => w
          end
      | _ => w
      end
  | UpdateDesktopDatabase =>
      match desktopDatabase with
      | Some cache => put cache (File (toolOutput env t)) w
      | None => w
      end
  | Which _ | Lsregister _ _ => w
  end.

(** The exit status of a command line and the world it leaves. *)
Fixpoint sh (c : shell) (w : World) : bool * World :=
  match c with
  | Run t => if runs t w then (true, effect t w) else (false, w)
  | OrElse a b => let '(ok, w') := sh a w in if ok then (true, w') else sh b w'
  | STrue => (true, w)
  end.

(** [execAsync(command)]: rejected when the exit status is not zero. *)
Definition execAsync (c : shell) : M unit := fun w =>
  let '(ok, w') := sh c {| fs := fs w; log := c :: log w; console := console w |} in
  if ok then (Ret tt, w') else (Throw (SystemError "Command failed"), w').

End FileSystem.

(** ** Download and transcoding (the icon module, continued) *)

Inductive Download : Type :=
  | Downloaded (path extension : string) (size : nat)  (* { success: true, path, extension, size } *)
  | DownloadFailed (error : string).                   (* { success: false, error } *)

Module IconResult.
(** [{ success, path, note }] or [{ success: false, error }] *)
Record t : Type := mk {
  success : bool;
  path : option string;
  note : option string;
  error : option string
}.
Definition ok (p : string) : t :=
  {| success := true; path := Some p; note := None; error := None |}.
Definition okNote (p n : string) : t :=
  {| success := true; path := Some p; note := Some n; error := None |}.
Definition failed (e : string) : t :=
  {| success := false; path := None; note := None; error := Some e |}.
End IconResult.

Section Transcoder.
Context `{RT : Runtime} (env : Env).

(** The extension [downloadIcon] gives to the file it saves. *)
Definition extensionOf (contentType iconUrl : string) : string :=
  if includes contentType "svg" then ".svg"
  else if includes contentType "ico" || endsWith iconUrl ".ico" then ".ico"
  else if includes contentType "jpeg" || includes contentType "jpg" then ".jpg"
  else if endsWith iconUrl ".svg" then ".svg"
  else ".png".

(** [downloadIcon(iconUrl, tempDir)] *)
Definition downloadIcon (fuel : nat) (iconUrl tempDir : string) : M Download :=
  tryCatch
    (r ← lift (fetchUrl env fuel iconUrl "");
     let ext := extensionOf (contentType r) iconUrl in
     _ ← mkdirAsync env tempDir;
     let iconPath := pathJoin env tempDir ("icon" +:+ ext) in
     _ ← writeFileAsync env iconPath (data r);
     mret (Downloaded iconPath ext (String.length (data r))))
    (fun e => mret (DownloadFailed (message e))).

Definition ignoring (m : M unit) : M unit := tryCatch m (fun _ => mret tt).

(** The body of the loop of [convertToIcns] for one size. *)
Definition iconsetEntry (inputPath tempDir : string) (size : Z) : M unit :=
  let size2x := size * 2 in
  let name := "icon_" +:+ pretty size +:+ "x" +:+ pretty size in
  _ ← execAsync env (Run (SipsResize size inputPath (pathJoin env tempDir (name +:+ ".png"))));
  if size2x <=? 1024
  then execAsync env (Run (SipsResize size2x inputPath (pathJoin env tempDir (name +:+ "@2x.png"))))
  else mret tt.

Fixpoint forSizes (f : Z -> M unit) (sizes : list Z) : M unit :=
  match sizes with
  | [] => mret tt
  | s :: rest => _ ← f s; forSizes f rest
  end.

(** [convertToIcns(inputPath, outputPath)] *)
Definition convertToIcns (inputPath outputPath : string) : M IconResult.t :=
  let tempDir := pathJoin env (dirname env outputPath) "icon.iconset" in
  tryCatch
    (_ ← mkdirAsync env tempDir;
     _ ← forSizes (iconsetEntry inputPath tempDir) [16; 32; 64; 128; 256; 512];
     _ ← execAsync env (Run (Iconutil tempDir outputPath));
     _ ← execAsync env (Run (RmRf tempDir));
     mret (IconResult.ok outputPath))
    (fun e =>
       _ ← ignoring (execAsync env (Run (RmRf tempDir)));
       mret (IconResult.failed (message e))).

Definition pngNote : string :=
  "Saved as PNG (ImageMagick not available for ICO conversion)".

(** [convertToIco(inputPath, outputPath)] *)
Definition convertToIco (inputPath outputPath : string) : M IconResult.t :=
  tryCatch
    (_ ← execAsync env (Run (Which "convert"));
     _ ← execAsync env (Run (ConvertIco inputPath outputPath));
     mret (IconResult.ok outputPath))
    (fun _ =>
       tryCatch
         (let png := replaceFirst ".ico" ".png" outputPath in
          _ ← copyFileSync env inputPath png;
          mret (IconResult.okNote png pngNote))
         (fun e => mret (IconResult.failed (message e)))).

(** The case ['darwin'] of [prepareIcon]. *)
Definition prepareDarwin (tempDir outputDir path extension : string) : M IconResult.t :=
  let icnsPath := pathJoin env outputDir "AppIcon.icns" in
  path' ← (if String.eqb extension ".svg"
           then tryCatch
                  (let pngPath := pathJoin env tempDir "icon.png" in
                   _ ← execAsync env (OrElse (Run (Qlmanage tempDir path))
                                            (Run (SipsPng path pngPath)));
                   mret pngPath)
                  (fun _ => mret path)
           else mret path);
  convertToIcns path' icnsPath.

(** The case ['linux'] of [prepareIcon]. *)
Definition prepareLinux (outputDir path extension : string) : M IconResult.t :=
  let pngPath := pathJoin env outputDir "icon.png" in
  if String.eqb extension ".png"
  then _ ← copyFileSync env path pngPath; mret (IconResult.ok pngPath)
  else tryCatch
         (_ ← execAsync env (OrElse (Run (SipsPng path pngPath)) (Run (Convert path pngPath)));
          mret (IconResult.ok pngPath))
         (fun _ => _ ← copyFileSync env path pngPath; mret (IconResult.ok pngPath)).

(** [prepareIcon(websiteUrl, outputDir, platform)] *)
Definition prepareIcon (fuel : nat) (websiteUrl outputDir platform : string) : M IconResult.t :=
  iconUrl ← lift (getBestIconUrl env fuel websiteUrl);
  let tempDir := pathJoin env outputDir ".icon-temp" in
  downloaded ← downloadIcon fuel iconUrl tempDir;
  match downloaded with
  | DownloadFailed err => mret (IconResult.failed ("Failed to download icon: " +:+ err))
  | Downloaded path extension _ =>
      result ← (if String.eqb platform "darwin"
                then prepareDarwin tempDir outputDir path extension
                else if String.eqb platform "win32"
                then convertToIco path (pathJoin env outputDir "app.ico")
                else if String.eqb platform "linux"
                then prepareLinux outputDir path extension
                else mret (IconResult.failed ("Unsupported platform: " +:+ platform)));
      _ ← ignoring (execAsync env (Run (RmRf tempDir)));
      mret result
  end.

End Transcoder.

(** ** String utilities (the utils module) *)

Section Utils.
Context `{RT : Runtime}.

(** [validateUrl(urlString)] *)
Definition validateUrl (urlString : string) : bool :=
  match newURL urlString with
  | Some url =>
      String.eqb (URL.protocol url) "http:" || String.eqb (URL.protocol url) "https:"
  | None => false
  end.

(** The class of the characters no file name may hold. *)
Definition isInvalidFilenameChar (c : ascii) : bool :=
  existsb (Ascii.eqb c)
    ["<"; ">"; ":"; dquote; "/"; "\"; "|"; "?"; "*"]%char.

(** [sanitizeAppName(name)] *)
Definition sanitizeAppName (name : string) : string :=
  substring0 50 (trim (collapseSpaces (removeChars isInvalidFilenameChar name))).

Definition isIdChar (c : ascii) : bool :=
  let n := code c in
  (((97 <=? n) && (n <=? 122)) || ((65 <=? n) && (n <=? 90)) ||
   ((48 <=? n) && (n <=? 57)) || (n =? 45))%N.

(** The identifier built from a parsed URL. *)
Definition appIdOf (url : URL.t) : string :=
  let hostname := replaceChar "." "-" (URL.hostname url) in
  let pathPart :=
    substring0 20
      (removeChars (fun c => negb (isIdChar c)) (replaceChar "/" "-" (URL.pathname url))) in
  toLowerCase ("com.webnest." +:+ hostname +:+ pathPart).

(** [generateAppId(urlString)]; [now] is what [Date.now()] reads. *)
Definition generateAppId (now : Z) (urlString : string) : string :=
  match newURL urlString with
  | Some url => appIdOf url
  | None => "com.webnest.app-" +:+ pretty now
  end.

End Utils.

(** ** The installer *)

Module Browser.
(** The browser descriptor, as [detectBrowser] returns it when found. *)
Record t : Type := mk {
  name : string;
  id : string;
  path : string;
  appFlag : string
}.
End Browser.

Module Result.
(** The object the installer functions return. *)
Record t : Type := mk {
  success : bool;
  appPath : option string;
  note : option string;
  error : option string;
  notFound : bool;
  browserName : option string
}.
Definition created (appPath note : string) : t :=
  {| success := true; appPath := Some appPath; note := Some note; error := None;
     notFound := false; browserName := None |}.
Definition removed (appPath browserName : string) : t :=
  {| success := true; appPath := Some appPath; note := None; error := None;
     notFound := false; browserName := Some browserName |}.
Definition failed (e : string) : t :=
  {| success := false; appPath := None; note := None; error := Some e;
     notFound := false; browserName := None |}.
Definition missing (e : string) : t :=
  {| success := false; appPath := None; note := None; error := Some e;
     notFound := true; browserName := None |}.
End Result.

Definition nl : string := String (ascii_of_N 10) EmptyString.

(** The lines of a template literal, joined by line feeds. *)
Fixpoint joinLines (ls : list string) : string :=
  match ls with
  | [] => EmptyString
  | [l] => l
  | l :: rest => l +:+ nl +:+ joinLines rest
  end.

(** [s] between double quotes. *)
Definition quoted (s : string) : string := dq +:+ s +:+ dq.

Fixpoint lookupKey (k : string) (l : list (string * string)) : option string :=
  match l with
  | [] => None
  | (k', v) :: l' => if String.eqb k k' then Some v else lookupKey k l'
  end.

Section Installer.
Context `{RT : Runtime} (env : Env).

(** [expandHomePath(filepath)] *)
Definition expandHomePath (filepath : string) : outcome string :=
  if startsWith filepath "~"
  then home ← orThrow (HOME env) (TypeError "The path argument must be of type string");
       Ret (pathJoin env home (slice 1 filepath))
  else Ret filepath.

Definition browserIds : list string :=
  ["chrome"; "edge"; "brave"; "chromium"; "comet"; "atlas"].

Definition labelOf (browserId : string) : string :=
  default browserId
    (lookupKey browserId
       [("chrome", "Chrome"); ("edge", "Edge"); ("brave", "Brave");
        ("chromium", "Chromium"); ("comet", "Comet"); ("atlas", "Atlas")]).

(** The table [directories[platform]], keyed by browser id. *)
Definition directories (platform : string) : option (list (string * string)) :=
  if String.eqb platform "darwin" then
    Some ((fun b => (b, "~/Applications/" +:+ labelOf b +:+ " Apps.localized")) <$> browserIds)
  else if String.eqb platform "win32" then
    Some ((fun b => (b, default "undefined" (APPDATA env)
                        +:+ "\Microsoft\Windows\Start Menu\Programs\" +:+ labelOf b +:+ " Apps"))
            <$> browserIds)
  else if String.eqb platform "linux" then
    Some ((fun b => (b, "~/.local/share/applications")) <$> browserIds)
  else None.

(** [platformDirs[browserId] || platformDirs.chrome] *)
Definition dirFor (platformDirs : list (string * string)) (browserId : string) : string :=
  match lookupKey browserId platformDirs with
  | Some d => d
  | None => default "" (lookupKey "chrome" platformDirs)
  end.

(** [getWebAppDirectory(browser)] *)
Definition getWebAppDirectory (browser : Browser.t) : outcome string :=
  match directories (platform env) with
  | None => Throw (AppError ("Unsupported platform: " +:+ platform env))
  | Some platformDirs => expandHomePath (dirFor platformDirs (Browser.id browser))
  end.

(** [getWebAppDirectoryById(browserId)]; [None] is [null]. *)
Definition getWebAppDirectoryById (browserId : string) : outcome (option string) :=
  match directories (platform env) with
  | None => Ret None
  | Some platformDirs => d ← expandHomePath (dirFor platformDirs browserId); Ret (Some d)
  end.

(** [getBrowserName(browserId)] *)
Definition getBrowserName (browserId : string) : string :=
  default browserId
    (lookupKey browserId
       [("chrome", "Google Chrome"); ("edge", "Microsoft Edge"); ("brave", "Brave Browser");
        ("chromium", "Chromium"); ("comet", "Comet Browser"); ("atlas", "Atlas Browser")]).

Definition iconFailed : string := "Could not fetch icon from website. ".

Definition spotlightNote : string :=
  "The app should appear in Spotlight search. If not, try restarting Spotlight (killall mds).".
Definition startMenuNote : string := "The app should appear in the Start Menu search.".
Definition linuxNote : string :=
  "The app should appear in your application menu. You may need to log out and log back in for it to appear.".

Definition infoPlist (safeName bundleId appName : string) : string :=
  joinLines
    [ "<?xml version=" +:+ quoted "1.0" +:+ " encoding=" +:+ quoted "UTF-8" +:+ "?>";
      "<!DOCTYPE plist PUBLIC " +:+ quoted "-//Apple//DTD PLIST 1.0//EN" +:+ " "
        +:+ quoted "http://www.apple.com/DTDs/PropertyList-1.0.dtd" +:+ ">";
      "<plist version=" +:+ quoted "1.0" +:+ ">";
      "<dict>";
      "    <key>CFBundleExecutable</key>";
      "    <string>" +:+ safeName +:+ "</string>";
      "    <key>CFBundleIdentifier</key>";
      "    <string>" +:+ bundleId +:+ "</string>";
      "    <key>CFBundleName</key>";
      "    <string>" +:+ appName +:+ "</string>";
      "    <key>CFBundleDisplayName</key>";
      "    <string>" +:+ appName +:+ "</string>";
      "    <key>CFBundleIconFile</key>";
      "    <string>AppIcon</string>";
      "    <key>CFBundlePackageType</key>";
      "    <string>APPL</string>";
      "    <key>CFBundleVersion</key>";
      "    <string>1.0</string>";
      "    <key>CFBundleShortVersionString</key>";
      "    <string>1.0</string>";
      "    <key>LSMinimumSystemVersion</key>";
      "    <string>10.13</string>";
      "    <key>NSHighResolutionCapable</key>";
      "    <true/>";
      "    <key>LSUIElement</key>";
      "    <false/>";
      "</dict>";
      "</plist>" ].

Definition launcherScript (browserPath url : string) : string :=
  joinLines
    [ "#!/bin/bash";
      "exec " +:+ quoted browserPath +:+ " --app=" +:+ quoted url +:+ " " +:+ quoted "$@";
      "" ].

(** [createMacOSApp({ url, appName, browser, appDir })] *)
Definition createMacOSApp (fuel : nat) (url appName : string) (browser : Browser.t)
    (appDir : string) : M Result.t :=
  let safeName := sanitizeAppName appName in
  let appPath := pathJoin env appDir (safeName +:+ ".app") in
  let contentsPath := pathJoin env appPath "Contents" in
  let macOSPath := pathJoin env contentsPath "MacOS" in
  let resourcesPath := pathJoin env contentsPath "Resources" in
  _ ← mkdirAsync env macOSPath;
  _ ← mkdirAsync env resourcesPath;
  iconNote ← tryCatch
    (iconResult ← prepareIcon env fuel url resourcesPath "darwin";
     if IconResult.success iconResult then
       let iconPath := pathJoin env resourcesPath "AppIcon.icns" in
       match IconResult.path iconResult with
       | Some p =>
           there ← existsSync p;
           if negb (String.eqb p iconPath) && there
           then _ ← renameSync env p iconPath; mret ""
           else mret ""
       | None => mret ""
       end
     else mret iconFailed)
    (fun _ => mret iconFailed);
  let bundleId := generateAppId (now env) url in
  _ ← writeFileAsync env (pathJoin env contentsPath "Info.plist")
        (infoPlist safeName bundleId appName);
  let launcherPath := pathJoin env macOSPath safeName in
  _ ← writeFileAsync env launcherPath (launcherScript (Browser.path browser) url);
  _ ← chmodAsync env launcherPath "755";
  _ ← ignoring (execAsync env (Run (Lsregister "-f" appPath)));
  mret (Result.created appPath
          (iconNote +:+ spotlightNote)).

(** [s.replace(/\\/g, '\\\\')]: every backslash doubled. *)
Definition escapeBackslashes (s : string) : string := replaceChar "\" "\\" s.

Definition psScript (shortcutPath browserPath browserDir url appName iconPath : string) : string :=
  let iconLine :=
    if String.eqb iconPath "" then ""
    else "$Shortcut.IconLocation = " +:+ quoted (escapeBackslashes iconPath +:+ ",0") in
  joinLines
    [ "";
      "$WshShell = New-Object -ComObject WScript.Shell";
      "$Shortcut = $WshShell.CreateShortcut(" +:+ quoted (escapeBackslashes shortcutPath) +:+ ")";
      "$Shortcut.TargetPath = " +:+ quoted (escapeBackslashes browserPath);
      "$Shortcut.Arguments = " +:+ quoted ("--app=" +:+ url);
      "$Shortcut.WorkingDirectory = " +:+ quoted (escapeBackslashes browserDir);
      "$Shortcut.Description = " +:+ quoted (appName +:+ " - Web App");
      iconLine;
      "$Shortcut.Save()";
      "" ].

(** [createWindowsApp({ url, appName, browser, appDir })] *)
Definition createWindowsApp (fuel : nat) (url appName : string) (browser : Browser.t)
    (appDir : string) : M Result.t :=
  let safeName := sanitizeAppName appName in
  let shortcutPath := pathJoin env appDir (safeName +:+ ".lnk") in
  _ ← mkdirAsync env appDir;
  '(iconPath, iconNote) ← tryCatch
    (iconResult ← prepareIcon env fuel url appDir "win32";
     if IconResult.success iconResult
     then mret (default "" (IconResult.path iconResult), "")
     else mret ("", iconFailed))
    (fun _ => mret ("", iconFailed));
  let script := psScript shortcutPath (Browser.path browser)
                  (dirname env (Browser.path browser)) url appName iconPath in
  temp ← lift (orThrow (TEMP env) (TypeError "The path argument must be of type string"));
  let tempScript := pathJoin env temp ("webnest_" +:+ pretty (now env) +:+ ".ps1") in
  _ ← writeFileAsync env tempScript script;
  _ ← tryCatch
        (_ ← execAsync env (Run (Powershell tempScript));
         unlinkSync env tempScript)
        (fun e =>
           _ ← unlinkSync env tempScript;
           throw (AppError ("Failed to create shortcut: " +:+ message e)));
  mret (Result.created shortcutPath
          (iconNote +:+ startMenuNote)).

Definition desktopContent (appName browserPath url iconPath safeName : string) : string :=
  joinLines
    [ "[Desktop Entry]";
      "Version=1.0";
      "Type=Application";
      "Name=" +:+ appName;
      "Comment=" +:+ appName +:+ " - Web App created by WebNest";
      "Exec=" +:+ quoted browserPath +:+ " --app=" +:+ quoted url;
      "Icon=" +:+ iconPath;
      "Terminal=false";
      "Categories=Network;WebBrowser;";
      "StartupWMClass=" +:+ safeName;
      "StartupNotify=true";
      "" ].

(** [createLinuxApp({ url, appName, browser, appDir })] *)
Definition createLinuxApp (fuel : nat) (url appName : string) (browser : Browser.t)
    (appDir : string) : M Result.t :=
  let safeName := sanitizeAppName appName in
  let appId := generateAppId (now env) url in
  let desktopFilePath := pathJoin env appDir (appId +:+ ".desktop") in
  _ ← mkdirAsync env appDir;
  iconDir ← lift (expandHomePath "~/.local/share/icons/webnest");
  _ ← mkdirAsync env iconDir;
  '(iconPath, iconNote) ← tryCatch
    (iconResult ← prepareIcon env fuel url iconDir "linux";
     if IconResult.success iconResult then
       let newIconPath := pathJoin env iconDir (appId +:+ ".png") in
       p ← lift (orThrow (IconResult.path iconResult)
                   (TypeError "The path argument must be of type string"));
       _ ← renameSync env p newIconPath;
       mret (newIconPath, "")
     else mret ("web-browser", iconFailed))
    (fun _ => mret ("web-browser", iconFailed));
  _ ← writeFileAsync env desktopFilePath
        (desktopContent appName (Browser.path browser) url iconPath safeName);
  _ ← chmodAsync env desktopFilePath "755";
  _ ← ignoring (execAsync env (OrElse (Run UpdateDesktopDatabase) STrue));
  mret (Result.created desktopFilePath
          (iconNote +:+ linuxNote)).

(** [error.code] of the errors the file system raises. *)
Definition codeOf (e : error) : string :=
  match e with
  | SystemError msg => splitHead ":" msg
  | _ => ""
  end.

(** [installWebApp({ url, appName, browser })] *)
Definition installWebApp (fuel : nat) (url appName : string) (browser : Browser.t)
    : M Result.t :=
  appDir ← lift (getWebAppDirectory browser);
  _ ← tryCatch (mkdirAsync env appDir)
        (fun e =>
           if negb (String.eqb (codeOf e) "EEXIST")
           then throw (AppError ("Failed to create app directory: " +:+ message e))
           else mret tt);
  if String.eqb (platform env) "darwin" then createMacOSApp fuel url appName browser appDir
  else if String.eqb (platform env) "win32" then createWindowsApp fuel url appName browser appDir
  else if String.eqb (platform env) "linux" then createLinuxApp fuel url appName browser appDir
  else mret (Result.failed ("Unsupported platform: " +:+ platform env)).

End Installer.

Section Registry.
Context `{RT : Runtime} (env : Env).

(** The search of the cases ['darwin'] and ['win32'] of
    [uninstallWebApp]: the exact name, then the name in any case. *)
Definition findBundle (appDir safeName ext : string) : M (option string * bool) :=
  let appPath := pathJoin env appDir (safeName +:+ ext) in
  tryCatch
    (_ ← statAsync appPath; mret (Some appPath, true))
    (fun _ =>
       files ← readdirAsync env appDir;
       match List.find (fun f => String.eqb (toLowerCase f) (toLowerCase safeName +:+ ext)) files with
       | Some m => mret (Some (pathJoin env appDir m), true)
       | None => mret (Some appPath, false)
       end).

(** The predicate of [files.find] in the case ['linux']. *)
Definition desktopCandidate (safeName f : string) : bool :=
  if negb (endsWith f ".desktop") then false
  else
    let baseName := replaceFirst ".desktop" "" f in
    includes (toLowerCase baseName) (toLowerCase safeName)
    || includes (toLowerCase f) "webnest".

(** The search of the case ['linux'] of [uninstallWebApp]. *)
Definition findDesktop (appDir safeName : string) : M (option string * bool) :=
  files ← readdirAsync env appDir;
  match List.find (desktopCandidate safeName) files with
  | Some desktopMatch =>
      let appPath := pathJoin env appDir desktopMatch in
      found ← tryCatch
                (content ← readFileSync appPath;
                 mret (includes content safeName || includes content "WebNest"))
                (fun _ => mret false);
      mret (Some appPath, found)
  | None => mret (None, false)
  end.

(** [uninstallWebApp(appName, browserId)] *)
Definition uninstallWebApp (appName browserId : string) : M Result.t :=
  let platform := platform env in
  dir ← lift (getWebAppDirectoryById env browserId);
  let browserName := getBrowserName browserId in
  let safeName := sanitizeAppName appName in
  match dir with
  | None => mret (Result.failed ("Unsupported platform: " +:+ platform))
  | Some appDir =>
      there ← tryCatch (_ ← statAsync appDir; mret true) (fun _ => mret false);
      if negb there
      then mret (Result.missing ("No " +:+ browserName +:+ " apps directory found"))
      else
        '(appPath, found) ←
          (if String.eqb platform "darwin" then findBundle appDir safeName ".app"
           else if String.eqb platform "win32" then findBundle appDir safeName ".lnk"
           else if String.eqb platform "linux" then findDesktop appDir safeName
           else mret (None, false));
        match appPath, found with
        | Some appPath, true =>
            tryCatch
              (_ ← rmAsync env appPath;
               _ ← (if String.eqb platform "darwin"
                    then ignoring (execAsync env (OrElse (Run (Lsregister "-u" appPath)) STrue))
                    else mret tt);
               _ ← (if String.eqb platform "linux"
                    then ignoring (execAsync env (OrElse (Run UpdateDesktopDatabase) STrue))
                    else mret tt);
               mret (Result.removed appPath browserName))
              (fun e => mret (Result.failed ("Failed to remove app: " +:+ message e)))
        | _, _ =>
            mret (Result.missing
                    ("App " +:+ quoted appName +:+ " not found in " +:+ browserName +:+ " apps"))
        end
  end.

End Registry.

(** ** The list of installed apps (the installer, continued) *)

(** The names of the members every JavaScript object inherits.  A table
    written as an object literal answers at these names with the
    inherited member, not with [undefined]: the association lists that
    stand for the tables of the installer are those tables at every
    browser id but these. *)
Definition inheritedName (k : string) : bool :=
  existsb (String.eqb k)
    [ "constructor"; "__proto__"; "__defineGetter__"; "__defineSetter__";
      "__lookupGetter__"; "__lookupSetter__"; "hasOwnProperty"; "isPrototypeOf";
      "propertyIsEnumerable"; "toLocaleString"; "toString"; "valueOf" ].

Module App.
(** An entry of the list of installed web apps. *)
Record t : Type := mk {
  name : string;
  path : string;
  browser : string;
  browserId : string
}.
End App.

(** The line terminators among the code units below 256. *)
Definition isLineTerminator (c : ascii) : bool := ((code c =? 10) || (code c =? 13))%N.

(** What [(.+)$] takes under the [m] flag: the characters up to the end
    of the line. *)
Fixpoint restOfLine (s : string) : string :=
  match s with
  | String c s' => if isLineTerminator c then EmptyString else String c (restOfLine s')
  | EmptyString => EmptyString
  end.

(** [content.match(/^Name=(.+)$/m)]: the capture of the leftmost match.
    [lineStart] tells whether a line begins at the head of [s]. *)
Fixpoint nameMatch (lineStart : bool) (s : string) : option string :=
  match (if lineStart && startsWith s "Name=" then
           match restOfLine (slice 5 s) with
           | EmptyString => None
           | n => Some n
           end
         else None) with
  | Some n => Some n
  | None =>
      match s with
      | String c s' => nameMatch (isLineTerminator c) s'
      | EmptyString => None
      end
  end.

Section Listing.
Context `{RT : Runtime} (env : Env).

(** The body of the loop of [listInstalledApps] for one directory entry:
    the apps it pushes. *)
Definition listedApp (appDir browserId file : string) : M (list App.t) :=
  let filePath := pathJoin env appDir file in
  let entry name :=
    {| App.name := name; App.path := filePath;
       App.browser := getBrowserName browserId; App.browserId := browserId |} in
  if String.eqb (platform env) "darwin" then
    mret (if endsWith file ".app" then [entry (replaceFirst ".app" "" file)] else [])
  else if String.eqb (platform env) "win32" then
    mret (if endsWith file ".lnk" then [entry (replaceFirst ".lnk" "" file)] else [])
  else if String.eqb (platform env) "linux" then
    if endsWith file ".desktop" then
      tryCatch
        (content ← readFileSync filePath;
         mret (match nameMatch true content with
               | Some name => [entry name]
               | None => []
               end))
        (fun _ => mret [])
    else mret []
  else mret [].

Fixpoint listedApps (appDir browserId : string) (files : list string) : M (list App.t) :=
  match files with
  | [] => mret []
  | file :: rest =>
      apps ← listedApp appDir browserId file;
      more ← listedApps appDir browserId rest;
      mret (apps ++ more)%list
  end.

(** [listInstalledApps(browserId)].  Nothing in the loop can throw, so
    the list at the outer catch is the empty one. *)
Definition listInstalledApps (browserId : string) : M (list App.t) :=
  dir ← lift (getWebAppDirectoryById env browserId);
  match dir with
  | None => mret []
  | Some appDir =>
      there ← tryCatch (_ ← statAsync appDir; mret true) (fun _ => mret false);
      if negb there then mret []
      else tryCatch
             (files ← readdirAsync env appDir;
              listedApps appDir browserId files)
             (fun _ => mret [])
  end.

End Listing.

(** ** Browser discovery (the browser module) *)

Module BrowserConfig.
(** An entry of [BROWSER_CONFIGS]: the candidate paths and the profile
    directory, by platform. *)
Record t : Type := mk {
  name : string;
  id : string;
  pathsDarwin : list string;
  pathsWin32 : list string;
  pathsLinux : list string;
  appFlag : string;
  profileDarwin : string;
  profileWin32 : string;
  profileLinux : string
}.
End BrowserConfig.

Module Detection.
(** The object [detectBrowser] returns; [None] is a member left out. *)
Record t : Type := mk {
  found : bool;
  name : option string;
  id : option string;
  path : option string;
  appFlag : option string;
  profileDir : option string;
  error : option string
}.
End Detection.

Module Support.
(** An entry of the list [getSupportedBrowsers] returns. *)
Record t : Type := mk {
  id : string;
  name : string;
  available : bool;
  path : option string
}.
End Support.

Fixpoint lookupConfig (k : string) (l : list (string * BrowserConfig.t))
    : option BrowserConfig.t :=
  match l with
  | [] => None
  | (k', c) :: l' => if String.eqb k k' then Some c else lookupConfig k l'
  end.

(** [parts.join(', ')] *)
Fixpoint joinComma (parts : list string) : string :=
  match parts with
  | [] => EmptyString
  | [p] => p
  | p :: rest => p +:+ ", " +:+ joinComma rest
  end.

(** The truthiness of a path that may be [null]. *)
Definition truthyPath (browserPath : option string) : bool :=
  match browserPath with
  | Some p => negb (String.eqb p "")
  | None => false
  end.

Section Detector.
Context `{RT : Runtime} (env : Env).

(** What the module asks of the machine: [process.env.LOCALAPPDATA],
    whether [fs.access(path, X_OK)] succeeds, and the standard output
    of a command line that looks a program up on the PATH, [None] when the
    command fails.  The look-up changes nothing and is not entered in the
    log of the world. *)
Variable LOCALAPPDATA : option string.
Variable canExecute : string -> World -> bool.
Variable pathLookup : string -> World -> option string.

Definition localAppData : string := default "undefined" LOCALAPPDATA.

Definition BROWSER_CONFIGS : list (string * BrowserConfig.t) :=
  [ ("chrome",
     {| BrowserConfig.name := "Google Chrome";
        BrowserConfig.id := "chrome";
        BrowserConfig.pathsDarwin :=
          [ "/Applications/Google Chrome.app/Contents/MacOS/Google Chrome" ];
        BrowserConfig.pathsWin32 :=
          [ "C:\Program Files\Google\Chrome\Application\chrome.exe";
            "C:\Program Files (x86)\Google\Chrome\Application\chrome.exe";
            localAppData +:+ "\Google\Chrome\Application\chrome.exe" ];
        BrowserConfig.pathsLinux :=
          [ "/usr/bin/google-chrome";
            "/usr/bin/google-chrome-stable";
            "/snap/bin/chromium";
            "/usr/bin/chromium";
            "/usr/bin/chromium-browser" ];
        BrowserConfig.appFlag := "--app=";
        BrowserConfig.profileDarwin := "~/Library/Application Support/Google/Chrome";
        BrowserConfig.profileWin32 := localAppData +:+ "\Google\Chrome\User Data";
        BrowserConfig.profileLinux := "~/.config/google-chrome" |});
    ("edge",
     {| BrowserConfig.name := "Microsoft Edge";
        BrowserConfig.id := "edge";
        BrowserConfig.pathsDarwin :=
          [ "/Applications/Microsoft Edge.app/Contents/MacOS/Microsoft Edge" ];
        BrowserConfig.pathsWin32 :=
          [ "C:\Program Files\Microsoft\Edge\Application\msedge.exe";
            "C:\Program Files (x86)\Microsoft\Edge\Application\msedge.exe";
            localAppData +:+ "\Microsoft\Edge\Application\msedge.exe" ];
        BrowserConfig.pathsLinux :=
          [ "/usr/bin/microsoft-edge";
            "/usr/bin/microsoft-edge-stable";
            "/opt/microsoft/msedge/msedge" ];
        BrowserConfig.appFlag := "--app=";
        BrowserConfig.profileDarwin := "~/Library/Application Support/Microsoft Edge";
        BrowserConfig.profileWin32 := localAppData +:+ "\Microsoft\Edge\User Data";
        BrowserConfig.profileLinux := "~/.config/microsoft-edge" |});
    ("brave",
     {| BrowserConfig.name := "Brave Browser";
        BrowserConfig.id := "brave";
        BrowserConfig.pathsDarwin :=
          [ "/Applications/Brave Browser.app/Contents/MacOS/Brave Browser" ];
        BrowserConfig.pathsWin32 :=
          [ "C:\Program Files\BraveSoftware\Brave-Browser\Application\brave.exe";
            "C:\Program Files (x86)\BraveSoftware\Brave-Browser\Application\brave.exe";
            localAppData +:+ "\BraveSoftware\Brave-Browser\Application\brave.exe" ];
        BrowserConfig.pathsLinux :=
          [ "/usr/bin/brave";
            "/usr/bin/brave-browser";
            "/snap/bin/brave";
            "/opt/brave.com/brave/brave" ];
        BrowserConfig.appFlag := "--app=";
        BrowserConfig.profileDarwin :=
          "~/Library/Application Support/BraveSoftware/Brave-Browser";
        BrowserConfig.profileWin32 := localAppData +:+ "\BraveSoftware\Brave-Browser\User Data";
        BrowserConfig.profileLinux := "~/.config/BraveSoftware/Brave-Browser" |});
    ("chromium",
     {| BrowserConfig.name := "Chromium";
        BrowserConfig.id := "chromium";
        BrowserConfig.pathsDarwin :=
          [ "/Applications/Chromium.app/Contents/MacOS/Chromium" ];
        BrowserConfig.pathsWin32 :=
          [ "C:\Program Files\Chromium\Application\chrome.exe";
            localAppData +:+ "\Chromium\Application\chrome.exe" ];
        BrowserConfig.pathsLinux :=
          [ "/usr/bin/chromium";
            "/usr/bin/chromium-browser";
            "/snap/bin/chromium" ];
        BrowserConfig.appFlag := "--app=";
        BrowserConfig.profileDarwin := "~/Library/Application Support/Chromium";
        BrowserConfig.profileWin32 := localAppData +:+ "\Chromium\User Data";
        BrowserConfig.profileLinux := "~/.config/chromium" |});
    ("comet",
     {| BrowserConfig.name := "Comet Browser";
        BrowserConfig.id := "comet";
        BrowserConfig.pathsDarwin :=
          [ "/Applications/Comet.app/Contents/MacOS/Comet";
            "/Applications/Comet Browser.app/Contents/MacOS/Comet Browser" ];
        BrowserConfig.pathsWin32 :=
          [ "C:\Program Files\Comet\Application\comet.exe";
            "C:\Program Files (x86)\Comet\Application\comet.exe";
            localAppData +:+ "\Comet\Application\comet.exe";
            "C:\Program Files\Comet Browser\Application\comet.exe";
            localAppData +:+ "\Comet Browser\Application\comet.exe" ];
        BrowserConfig.pathsLinux :=
          [ "/usr/bin/comet";
            "/usr/bin/comet-browser";
            "/opt/comet/comet";
            "/snap/bin/comet" ];
        BrowserConfig.appFlag := "--app=";
        BrowserConfig.profileDarwin := "~/Library/Application Support/Comet";
        BrowserConfig.profileWin32 := localAppData +:+ "\Comet\User Data";
        BrowserConfig.profileLinux := "~/.config/comet" |});
    ("atlas",
     {| BrowserConfig.name := "Atlas Browser";
        BrowserConfig.id := "atlas";
        BrowserConfig.pathsDarwin :=
          [ "/Applications/Atlas.app/Contents/MacOS/Atlas";
            "/Applications/Atlas Browser.app/Contents/MacOS/Atlas Browser" ];
        BrowserConfig.pathsWin32 :=
          [ "C:\Program Files\Atlas\Application\atlas.exe";
            "C:\Program Files (x86)\Atlas\Application\atlas.exe";
            localAppData +:+ "\Atlas\Application\atlas.exe";
            "C:\Program Files\Atlas Browser\Application\atlas.exe";
            localAppData +:+ "\Atlas Browser\Application\atlas.exe" ];
        BrowserConfig.pathsLinux :=
          [ "/usr/bin/atlas";
            "/usr/bin/atlas-browser";
            "/opt/atlas/atlas";
            "/snap/bin/atlas" ];
        BrowserConfig.appFlag := "--app=";
        BrowserConfig.profileDarwin := "~/Library/Application Support/Atlas";
        BrowserConfig.profileWin32 := localAppData +:+ "\Atlas\User Data";
        BrowserConfig.profileLinux := "~/.config/atlas" |}) ].

(** [browserConfig.paths[platform] || []] *)
Definition pathsFor (config : BrowserConfig.t) : list string :=
  if String.eqb (platform env) "darwin" then BrowserConfig.pathsDarwin config
  else if String.eqb (platform env) "win32" then BrowserConfig.pathsWin32 config
  else if String.eqb (platform env) "linux" then BrowserConfig.pathsLinux config
  else [].

(** [browserConfig.profileDir[process.platform] || ''] *)
Definition profileFor (config : BrowserConfig.t) : string :=
  if String.eqb (platform env) "darwin" then BrowserConfig.profileDarwin config
  else if String.eqb (platform env) "win32" then BrowserConfig.profileWin32 config
  else if String.eqb (platform env) "linux" then BrowserConfig.profileLinux config
  else "".

(** [fs.access(path, fs.constants.X_OK)], answered with [!err] *)
Definition access (path : string) : M bool := fun w => (Ret (canExecute path w), w).

(** [browserExists(browserPath)] *)
Definition browserExists (browserPath : string) : M bool :=
  expandedPath ← lift (expandHomePath env browserPath);
  access expandedPath.

(** The loop of [findBrowserPath] over the paths of the table. *)
Fixpoint firstExisting (paths : list string) : M (option string) :=
  match paths with
  | [] => mret None
  | browserPath :: rest =>
      there ← browserExists browserPath;
      if there : bool then mret (Some browserPath) else firstExisting rest
  end.

(** [execAsync] of a look-up on the PATH: its standard output. *)
Definition lookupOnPath (command : string) : M string := fun w =>
  match pathLookup command w with
  | Some stdout => (Ret stdout, w)
  | None => (Throw (SystemError "Command failed"), w)
  end.

(** [findBrowserPath(browserConfig)]; [None] is [null]. *)
Definition findBrowserPath (config : BrowserConfig.t) : M (option string) :=
  fromTable ← firstExisting (pathsFor config);
  match fromTable with
  | Some browserPath => mret (Some browserPath)
  | None =>
      tryCatch
        (let cmd := if String.eqb (platform env) "win32" then "where" else "which" in
         let searchName := if String.eqb (BrowserConfig.id config) "chrome"
                           then "google-chrome" else BrowserConfig.id config in
         stdout ← lookupOnPath (cmd +:+ " " +:+ searchName);
         let foundPath := splitHead (ascii_of_N 10) (trim stdout) in
         if String.eqb foundPath "" then mret None
         else there ← browserExists foundPath;
              mret (if there : bool then Some foundPath else None))
        (fun _ => mret None)
  end.

(** [detectBrowser(browserId)] *)
Definition detectBrowser (browserId : string) : M Detection.t :=
  let browserKey := toLowerCase browserId in
  if inheritedName browserKey
  then throw (TypeError "Cannot read properties of undefined")
  else
    match lookupConfig browserKey BROWSER_CONFIGS with
    | None =>
        mret {| Detection.found := false; Detection.name := None; Detection.id := None;
                Detection.path := None; Detection.appFlag := None;
                Detection.profileDir := None;
                Detection.error :=
                  Some ("Unknown browser: " +:+ browserId +:+ ". Supported browsers: "
                        +:+ joinComma (fst <$> BROWSER_CONFIGS)) |}
    | Some browserConfig =>
        browserPath ← findBrowserPath browserConfig;
        if truthyPath browserPath then
          profileDir ← lift (expandHomePath env (profileFor browserConfig));
          mret {| Detection.found := true;
                  Detection.name := Some (BrowserConfig.name browserConfig);
                  Detection.id := Some (BrowserConfig.id browserConfig);
                  Detection.path := browserPath;
                  Detection.appFlag := Some (BrowserConfig.appFlag browserConfig);
                  Detection.profileDir := Some profileDir;
                  Detection.error := None |}
        else
          mret {| Detection.found := false;
                  Detection.name := Some (BrowserConfig.name browserConfig);
                  Detection.id := Some (BrowserConfig.id browserConfig);
                  Detection.path := None; Detection.appFlag := None;
                  Detection.profileDir := None; Detection.error := None |}
    end.

(** The loop of [getSupportedBrowsers] over the entries of the table. *)
Fixpoint supportedAmong (configs : list (string * BrowserConfig.t)) : M (list Support.t) :=
  match configs with
  | [] => mret []
  | (id, config) :: rest =>
      browserPath ← findBrowserPath config;
      more ← supportedAmong rest;
      mret ({| Support.id := id; Support.name := BrowserConfig.name config;
               Support.available := truthyPath browserPath;
               Support.path := if truthyPath browserPath then browserPath else None |}
            :: more)
  end.

(** [getSupportedBrowsers()] *)
Definition getSupportedBrowsers : M (list Support.t) := supportedAmong BROWSER_CONFIGS.

End Detector.


(** ** The command line *)

Record Options : Type := {
  browser : string;            (* -b, --browser, 'chrome' when absent *)
  name : option string;        (* -n, --name *)
  listBrowsers : bool          (* -l, --list-browsers *)
}.

(** [detectBrowser] answers with a descriptor or with [found: false]. *)
Inductive Detected : Type :=
  | Found (b : Browser.t)
  | NotFound.

Inductive Finish : Type :=
  | Done                       (* the action returned *)
  | Exit (status : Z).         (* process.exit(status) *)

Section CommandLine.
Context `{RT : Runtime} (env : Env).

(** The collaborators of the action that no property here depends on:
    browser discovery and the page-title lookup. *)
Variable detectBrowser : string -> M Detected.
Variable listAvailableBrowsers : M unit.
Variable availableBrowsers : M (list string).
Variable getAppNameFromUrl : string -> M string.

(** [console.log], [console.error] and the spinner all print a line.  The
    colours, and the check mark in front of the name of an available
    browser, are left out. *)
Definition say (line : string) : M unit := fun w =>
  (Ret tt, {| fs := fs w; log := log w; console := line :: console w |}).

Fixpoint sayAll (lines : list string) : M unit :=
  match lines with
  | [] => mret tt
  | l :: rest => _ ← say l; sayAll rest
  end.

Definition invalidUrlLines : list string :=
  [ "Error: Invalid URL provided.";
    "Please provide a valid URL starting with http:// or https://" ].

(** The action of the default command: [webnest <url>]. *)
Definition action (fuel : nat) (url : string) (options : Options) : M Finish :=
  if listBrowsers options then _ ← listAvailableBrowsers; mret Done
  else if negb (validateUrl url) then _ ← sayAll invalidUrlLines; mret (Exit 1)
  else
    _ ← say "Detecting browser...";
    tryCatch
      (browserInfo ← detectBrowser (browser options);
       match browserInfo with
       | NotFound =>
           _ ← say ("Browser " +:+ quoted (browser options) +:+ " not found on this system.");
           _ ← say (nl +:+ "Available browsers:");
           browsers ← availableBrowsers;
           _ ← sayAll ((fun b => "  " +:+ b) <$> browsers);
           mret (Exit 1)
       | Found b =>
           appName ← match name options with
                     | Some n => if String.eqb n "" then getAppNameFromUrl url else mret n
                     | None => getAppNameFromUrl url
                     end;
           result ← installWebApp env fuel url appName b;
           if Result.success result then
             _ ← say ("Successfully created " +:+ quoted appName +:+ " web app!");
             _ ← say (nl +:+ "App location: " +:+ default "undefined" (Result.appPath result));
             _ ← say (nl +:+ "The app should now be available in your system's app launcher.");
             _ ← match Result.note result with
                 | Some n => if String.eqb n "" then mret tt else say (nl +:+ "Note: " +:+ n)
                 | None => mret tt
                 end;
             mret Done
           else
             _ ← say ("Failed to create web app: " +:+ default "undefined" (Result.error result));
             mret (Exit 1)
       end)
      (fun e => _ ← say ("Error: " +:+ message e); mret (Exit 1)).

End CommandLine.

(** ** A reference platform for concrete runs

    An executable [Runtime] for the examples.  It implements the URL
    syntax [scheme://host[:port][/path][?query]] for the schemes http,
    https and ftp, hosts made of letters, digits, hyphens and dots, and
    paths without dot segments or characters to escape; relative
    references are resolved as the URL standard says for that syntax.  It
    reads JSON made of objects, arrays, strings without escapes, integers
    and the three literals.  Everything else is refused, so the instance
    is only used on inputs inside this fragment or plainly malformed. *)

Module Reference.

Fixpoint span (p : ascii -> bool) (s : string) : string * string :=
  match s with
  | String c s' =>
      if p c then let '(a, b) := span p s' in (String c a, b) else (EmptyString, s)
  | EmptyString => (EmptyString, EmptyString)
  end.

Definition isAlpha (c : ascii) : bool :=
  let n := code (lowerChar c) in ((97 <=? n) && (n <=? 122))%N.
Definition isSchemeChar (c : ascii) : bool :=
  isAlpha c || isDigit c || existsb (Ascii.eqb c) ["+"; "-"; "."]%char.
Definition isHostChar (c : ascii) : bool :=
  isAlpha c || isDigit c || existsb (Ascii.eqb c) ["-"; "."]%char.
Definition isPathChar (c : ascii) : bool :=
  isAlpha c || isDigit c || existsb (Ascii.eqb c) ["-"; "."; "_"; "~"; "/"; "@"]%char.
Definition isQueryChar (c : ascii) : bool :=
  isAlpha c || isDigit c || existsb (Ascii.eqb c) ["-"; "."; "_"; "~"; "="; "&"]%char.

(** The last label starts with a letter, and no label is empty. *)
Definition validHost (h : string) : bool :=
  negb (String.eqb h "")
  && negb (startsWith h ".") && negb (endsWith h ".") && negb (includes h "..")
  && negb (includes h "xn--")
  && match String.rev (splitHead "." (String.rev h)) with
     | String c _ => isAlpha c
     | EmptyString => false
     end.

Definition hasDotSegment (p : string) : bool :=
  includes p "/./" || includes p "/../" || endsWith p "/." || endsWith p "/..".

Definition defaultPort (scheme : string) : option string :=
  if String.eqb scheme "http" then Some "80"
  else if String.eqb scheme "https" then Some "443"
  else if String.eqb scheme "ftp" then Some "21"
  else None.

Definition parse (s : string) : option URL.t :=
  let '(scheme0, r1) := span isSchemeChar s in
  let scheme := toLowerCase scheme0 in
  match defaultPort scheme, r1 with
  | Some dflt, String ":" (String "/" (String "/" r2)) =>
      let '(host, r3) := span isHostChar r2 in
      let '(digits, r4) := match r3 with
                           | String ":" r => span isDigit r
                           | _ => (EmptyString, r3)
                           end in
      let '(path, r5) := span isPathChar r4 in
      let '(query, r6) := match r5 with
                          | String "?" r => let '(q, r') := span isQueryChar r in (String "?" q, r')
                          | _ => (EmptyString, r5)
                          end in
      let portNumber := default 0 (mathInt digits) in
      let port := if String.eqb digits "" || String.eqb (pretty portNumber) dflt
                  then "" else pretty portNumber in
      if validHost host && String.eqb r6 "" && negb (hasDotSegment path)
         && negb (String.eqb query "?") && (portNumber <=? 65535)
      then
        let hostname := toLowerCase host in
        let pathname := if String.eqb path "" then "/" else path in
        Some {| URL.protocol := scheme +:+ ":";
                URL.hostname := hostname;
                URL.port := port;
                URL.pathname := pathname;
                URL.search := query;
                URL.href := scheme +:+ "://" +:+ hostname
                            +:+ (if String.eqb port "" then "" else ":" +:+ port)
                            +:+ pathname +:+ query |}
      else None
  | _, _ => None
  end.

(** The directory of a path: up to and with its last slash. *)
Definition dirOf (p : string) : string :=
  String.rev (slice (String.length (splitHead "/" (String.rev p))) (String.rev p)).

Definition resolve (rel base : string) : option URL.t :=
  match parse base with
  | None => None
  | Some b =>
      let origin := URL.protocol b +:+ "//" +:+ URL.hostname b
                    +:+ (if String.eqb (URL.port b) "" then "" else ":" +:+ URL.port b) in
      let '(word, rest) := span isSchemeChar rel in
      if startsWith rest ":" && match word with String c _ => isAlpha c | _ => false end
      then parse rel
      else if String.eqb rel "" then parse (origin +:+ URL.pathname b +:+ URL.search b)
      else if startsWith rel "//" then parse (URL.protocol b +:+ rel)
      else if startsWith rel "/" then parse (origin +:+ rel)
      else if startsWith rel "?" then parse (origin +:+ URL.pathname b +:+ rel)
      else parse (origin +:+ dirOf (URL.pathname b) +:+ rel)
  end.

(** A reader of JSON by recursive descent; [fuel] bounds the nesting. *)
Definition isJsonSpace (c : ascii) : bool :=
  existsb (N.eqb (code c)) [9; 10; 13; 32]%N.

Fixpoint skipSpace (s : string) : string :=
  match s with
  | String c s' => if isJsonSpace c then skipSpace s' else s
  | EmptyString => EmptyString
  end.

Definition plainChar (c : ascii) : bool :=
  negb (Ascii.eqb c dquote) && negb (Ascii.eqb c "\") && (32 <=? code c)%N.

Definition readString (s : string) : option (string * string) :=
  match s with
  | String c s' =>
      if Ascii.eqb c dquote then
        let '(text, rest) := span plainChar s' in
        match rest with
        | String d rest' => if Ascii.eqb d dquote then Some (text, rest') else None
        | EmptyString => None
        end
      else None
  | EmptyString => None
  end.

Definition readNumber (s : string) : option (json * string) :=
  let '(sign, r) := match s with
                    | String "-" r => (-1, r)
                    | _ => (1, s)
                    end in
  let '(ds, rest) := span isDigit r in
  if String.eqb ds "" || (startsWith ds "0" && negb (String.eqb ds "0")) then None
  else Some (JNum (sign * default 0 (mathInt ds)), rest).

Fixpoint value (fuel : nat) (s : string) : option (json * string) :=
  match fuel with
  | O => None
  | S fuel' =>
      let elements :=
        fix elements (n : nat) (s : string) : option (list json * string) :=
          match n with
          | O => None
          | S n' =>
              '(v, r) ← value fuel' s;
              match skipSpace r with
              | String "," r' => '(vs, r'') ← elements n' r'; Some (v :: vs, r'')
              | String "]" r' => Some ([v], r')
              | _ => None
              end
          end in
      let members :=
        fix members (n : nat) (s : string) : option (list (string * json) * string) :=
          match n with
          | O => None
          | S n' =>
              '(k, r) ← readString (skipSpace s);
              match skipSpace r with
              | String ":" r1 =>
                  '(v, r2) ← value fuel' r1;
                  match skipSpace r2 with
                  | String "," r3 => '(kvs, r4) ← members n' r3; Some ((k, v) :: kvs, r4)
                  | String "}" r3 => Some ([(k, v)], r3)
                  | _ => None
                  end
              | _ => None
              end
          end in
      let s := skipSpace s in
      match s with
      | String "[" r =>
          match skipSpace r with
          | String "]" r' => Some (JArr [], r')
          | _ => '(vs, r') ← elements (String.length r) r; Some (JArr vs, r')
          end
      | String "{" r =>
          match skipSpace r with
          | String "}" r' => Some (JObj [], r')
          | _ => '(kvs, r') ← members (String.length r) r; Some (JObj kvs, r')
          end
      | _ =>
          if startsWith s "null" then Some (JNull, slice 4 s)
          else if startsWith s "true" then Some (JBool true, slice 4 s)
          else if startsWith s "false" then Some (JBool false, slice 5 s)
          else match readString s with
               | Some (text, r) => Some (JStr text, r)
               | None => readNumber s
               end
      end
  end.

Definition parseJson (s : string) : option json :=
  '(v, rest) ← value (String.length s) s;
  if String.eqb (skipSpace rest) "" then Some v else None.

#[export] Instance runtime : Runtime :=
  {| newURL := parse; newURLBase := resolve; JSONparse := parseJson |}.

End Reference.

(** ** Concrete environments *)

Module Example.
Import Reference.

(** A server: the replies by host and path; any other request finds no
    host. *)
Definition serve (routes : list (string * string * Reply)) (rq : Request) : Reply :=
  match List.find (fun r => String.eqb (fst (fst r)) (rq_hostname rq)
                            && String.eqb (snd (fst r)) (rq_path rq)) routes with
  | Some r => snd r
  | None => ReqError "getaddrinfo ENOTFOUND"
  end.

Definition page (ctype body : string) : Reply :=
  Response 200 None (Some ctype) (BodyEnd body).
Definition moved (statusCode : Z) (location : string) : Reply :=
  Response statusCode (Some location) None (BodyEnd "").

(** A machine without any of the external tools. *)
Definition machine (platform : string) (routes : list (string * string * Reply)) : Env :=
  {| platform := platform;
     net := serve routes;
     overrun := TimeoutError;
     toolOk := fun _ => false;
     toolOutput := fun _ => "converted";
     readOnly := fun _ => false;
     spared := fun _ => false;
     HOME := Some (if String.eqb platform "win32" then "C:\Users\u" else "/home/u");
     APPDATA := Some "C:\Users\u\AppData\Roaming";
     TEMP := Some "C:\Temp";
     now := 1700000000000 |}.

Definition withTools (ok : tool -> bool) (e : Env) : Env :=
  {| platform := platform e; net := net e; overrun := overrun e;
     toolOk := ok; toolOutput := toolOutput e;
     readOnly := readOnly e; spared := spared e;
     HOME := HOME e; APPDATA := APPDATA e; TEMP := TEMP e;
     now := now e |}.

Definition withReadOnly (ro : string -> bool) (e : Env) : Env :=
  {| platform := platform e; net := net e; overrun := overrun e;
     toolOk := toolOk e; toolOutput := toolOutput e;
     readOnly := ro; spared := spared e;
     HOME := HOME e; APPDATA := APPDATA e; TEMP := TEMP e;
     now := now e |}.

(** A world with the given directories and nothing else. *)
Definition worldOf (dirs : list string) : World :=
  {| fs := list_to_map ((fun d => (d, Dir)) <$> dirs); log := []; console := [] |}.

(** Redirects of every kind on one host. *)
Definition redirecting : list (string * string * Reply) :=
  [ ("example.com", "/", moved 302 "http-docs/index.html");
    ("example.com", "/http-docs/index.html", page "text/html" "moved here");
    ("example.com", "/old", moved 301 "https://example.com/new");
    ("example.com", "/new", moved 302 "final.html");
    ("example.com", "/final.html", page "text/html" "final");
    ("example.com", "/gone", moved 302 "/missing");
    ("example.com", "/missing", Response 404 None None (BodyEnd "not found"));
    ("example.com", "/loop", moved 302 "/loop") ].

(** A host that answers its front page with a Location no URL parser
    accepts: a scheme-relative reference without a host. *)
Definition malformedRedirect : list (string * string * Reply) :=
  [ ("example.com", "/", moved 302 "//") ].

(** A page with a plain icon of 180 pixels in front of an Apple touch
    icon of 32 pixels, and a manifest whose larger icon ties with the
    latter. *)
Definition iconPage : string :=
  "<html><head><link rel='icon' sizes='180x180' href='/plain.png'>"
  +:+ "<link rel='apple-touch-icon' sizes='32x32' href='/touch.png'>"
  +:+ "<link rel='manifest' href='/app.json'></head></html>".

Definition manifestText : string :=
  replaceChar "'" dq
    "{'icons': [{'src': 'small.png', 'sizes': '48x48'}, {'src': 'huge.png', 'sizes': '1032x1032'}]}".

Definition iconSite : list (string * string * Reply) :=
  [ ("example.com", "/", page "text/html" iconPage);
    ("example.com", "/app.json", page "application/json" manifestText);
    ("example.com", "/touch.png", page "image/png" "PNG-bytes") ].

(** A site without a page but with a favicon, served as JPEG. *)
Definition faviconSite : list (string * string * Reply) :=
  [ ("example.com", "/favicon.ico", page "image/jpeg" "JPEG-bytes") ].

Definition rmOnly (t : tool) : bool :=
  match t with
  | RmRf _ => true
  | _ => false
  end.

Definition chrome : Browser.t :=
  {| Browser.name := "Google Chrome"; Browser.id := "chrome";
     Browser.path := "/usr/bin/google-chrome"; Browser.appFlag := "--app=" |}.

Definition chromeWin : Browser.t :=
  {| Browser.name := "Google Chrome"; Browser.id := "chrome";
     Browser.path := "C:\Program Files\Google\Chrome\Application\chrome.exe";
     Browser.appFlag := "--app=" |}.

(** A machine with every external tool. *)
Definition everyTool (t : tool) : bool := true.

Definition powershellOnly (t : tool) : bool :=
  match t with
  | Powershell _ => true
  | _ => false
  end.

(** A page with a large icon and, behind it, an icon whose reference no
    URL parser resolves. *)
Definition brokenIconPage : string :=
  "<link rel='icon' sizes='512x512' href='/big.png'><link rel='icon' href='//'>".

(** A page with two icons of size 10^20, the plain one in front of the
    Apple touch icon. *)
Definition hugeIconPage : string :=
  "<link rel='icon' sizes='100000000000000000000x100000000000000000000' href='/plain.png'>"
  +:+ "<link rel='apple-touch-icon' sizes='100000000000000000000x100000000000000000000'"
  +:+ " href='/touch.png'>".

Definition hugeIconSite : list (string * string * Reply) :=
  [ ("example.com", "/", page "text/html" hugeIconPage) ].

(** A host whose front page is the page with the icon that does not
    resolve. *)
Definition brokenIconSite : list (string * string * Reply) :=
  [ ("example.com", "/", page "text/html" brokenIconPage) ].

(** A machine whose only browser is Chromium, at one of the paths the
    table lists for Chrome. *)
Definition chromiumOnly (path : string) (w : World) : bool :=
  String.eqb path "/usr/bin/chromium".

Definition notOnPath (command : string) (w : World) : option string := None.

End Example.

(** ** The vocabulary of the properties *)

Section Vocabulary.
Context `{RT : Runtime} (env : Env).

(** One redirect hop of [fetchUrl]: the request for [url] is answered
    with a status in the 300s and a Location that is not empty, and
    [next] is that Location when it starts with http, and otherwise the
    Location resolved against [url]. *)
Definition hop (accept url next : string) : Prop :=
  ∃ p statusCode l ctype body,
    newURL url = Some p ∧
    net env (requestOf p accept) = Response statusCode (Some l) ctype body ∧
    300 ≤ statusCode < 400 ∧ l ≠ "" ∧
    ((startsWith l "http" = true ∧ next = l) ∨
     (startsWith l "http" = false ∧ ∃ u, newURLBase l url = Some u ∧ next = URL.href u)).

(** A chain of [n] hops from [url] to [final]. *)
Inductive redirects (accept : string) : nat → string → string → Prop :=
  | redirects_O url : redirects accept 0 url url
  | redirects_S n url next final :
      hop accept url next → redirects accept n next final →
      redirects accept (S n) url final.

(** The request for [url] is answered with [statusCode], and the answer
    is not a redirect to follow. *)
Definition answered (accept url : string) (statusCode : Z) : Prop :=
  ∃ p location ctype body,
    newURL url = Some p ∧
    net env (requestOf p accept) = Response statusCode location ctype body ∧
    ¬ (300 ≤ statusCode < 400 ∧ ∃ l, location = Some l ∧ l ≠ "").

(** A file can be copied to [p]: the OS does not refuse, the directory
    is there, and [p] is not itself a directory. *)
Definition writable (p : string) (w : World) : Prop :=
  readOnly env p = false ∧ parentOk env p w = true ∧ isDir p w = false.

(** [w] with one more command line in its log. *)
Definition logged (c : shell) (w : World) : World :=
  {| fs := fs w; log := c :: log w; console := console w |}.

End Vocabulary.

(** [a < b] on numbers. *)
Definition less (a b : number) : bool :=
  match a, b with
  | Num x, Num y => x <? y
  | Num _, Infinity negative => negb negative
  | Infinity negative, Num _ => negative
  | Infinity n, Infinity n' => n && negb n'
  end.

(** The integer value of a finite binary floating-point number of the
    library that has one, and the infinities. *)
Definition ofSpecFloat (f : SpecFloat.spec_float) : option number :=
  match f with
  | SpecFloat.S754_zero _ => Some (Num 0)
  | SpecFloat.S754_infinity negative => Some (Infinity negative)
  | SpecFloat.S754_nan => None
  | SpecFloat.S754_finite negative m e =>
      Some (Num ((if negative then -1 else 1)
                 * (if e <? 0 then Z.pos m / 2 ^ (- e) else Z.pos m * 2 ^ e)))
  end.

(** Integers on both sides of the places where rounding decides. *)
Definition roundingSamples : list Z :=
  (((fun k => 2 ^ k + 2 ^ (k - 53)) <$> (seqZ 53 60 ++ seqZ 1000 30))
   ++ ((fun k => 2 ^ k + 3 * 2 ^ (k - 53)) <$> (seqZ 53 60 ++ seqZ 1000 30))
   ++ ((fun k => 2 ^ k + 2 ^ (k - 53) + 1) <$> (seqZ 53 60 ++ seqZ 1000 30))
   ++ ((fun k => - (10 ^ k) - 1000) <$> (seqZ 0 40 ++ seqZ 300 12))
   ++ seqZ (2 ^ 53 - 100) 200
   ++ seqZ (- 100) 200)%list.

(** Sorted by priority, the larger first: no candidate has a smaller
    priority than one behind it. *)
Definition descending : list Icon.t → Prop :=
  StronglySorted (fun a b => less (Icon.priority a) (Icon.priority b) = false).

(** The world after the command line has refused a URL: the two lines of
    the refusal printed, and nothing else changed. *)
Definition rejected (w : World) : World :=
  {| fs := fs w; log := log w; console := (rev invalidUrlLines ++ console w)%list |}.

(** Every character of [s] satisfies [p]. *)
Fixpoint every (p : ascii -> bool) (s : string) : bool :=
  match s with
  | EmptyString => true
  | String c s' => p c && every p s'
  end.

(** White space occurs in [s] only as single blanks. *)
Fixpoint singleBlanks (s : string) : bool :=
  match s with
  | EmptyString => true
  | String c s' =>
      (if isSpace c
       then Ascii.eqb c " " && match s' with
                               | String d _ => negb (isSpace d)
                               | EmptyString => true
                               end
       else true) && singleBlanks s'
  end.

Definition leadingSpace (s : string) : bool :=
  match s with
  | String c _ => isSpace c
  | EmptyString => false
  end.

Definition trailingSpace (s : string) : bool := leadingSpace (String.rev s).

(** No separator in [s]: a plain file name. *)
Definition plainName (env : Env) (s : string) : bool :=
  every (fun d => negb (Ascii.eqb d (sepChar env))) s.

(** The characters that the shell which [exec] starts, [/bin/sh] and on
    Windows [cmd.exe], does not take as they are between double quotes. *)
Definition shellSpecial (env : Env) (c : ascii) : bool :=
  if win32 env then Ascii.eqb c "%" || Ascii.eqb c dquote
  else Ascii.eqb c "$" || Ascii.eqb c "`" || Ascii.eqb c "\" || Ascii.eqb c dquote.

(** A path that reaches the tool as the program has written it between
    the double quotes of a command line. *)
Definition shellPlain (env : Env) (path : string) : bool :=
  every (fun c => negb (shellSpecial env c)) path.

(** The promise settles: it is fulfilled or rejected. *)
Definition settled {A} (o : outcome A) : Prop := (∃ a, o = Ret a) ∨ (∃ e, o = Throw e).

(** The computation settles from every world. *)
Definition settles {A} (m : M A) : Prop := ∀ w, settled (fst (m w)).

(** The computation is fulfilled from every world. *)
Definition returns {A} (m : M A) : Prop := ∀ w, ∃ a w', m w = (Ret a, w').

(** * Properties *)

Open Scope list_scope.

(** ** Strings *)

Lemma eqb_string_true (a b : string) : String.eqb a b = true ↔ a = b.
Proof. apply String.eqb_eq. Qed.

Lemma eqb_string_false (a b : string) : String.eqb a b = false ↔ a ≠ b.
Proof. apply String.eqb_neq. Qed.

Lemma prefix_empty (s : string) : String.prefix "" s = true.
Proof. by destruct s. Qed.

Lemma app_cons (c : ascii) (a b : string) : String c a +:+ b = String c (a +:+ b).
Proof. reflexivity. Qed.

Lemma app_nil_l_string (s : string) : "" +:+ s = s.
Proof. reflexivity. Qed.

Lemma app_nil_r_string (s : string) : s +:+ "" = s.
Proof. induction s as [|c s IH]; [done|]. by rewrite app_cons, IH. Qed.

Lemma app_assoc_string (a b c : string) : (a +:+ b) +:+ c = a +:+ (b +:+ c).
Proof. induction a as [|d a IH]; [done|]. by rewrite !app_cons, IH. Qed.

Lemma length_app_string (a b : string) :
  String.length (a +:+ b) = (String.length a + String.length b)%nat.
Proof. induction a as [|d a IH]; [done|]. rewrite app_cons. simpl. by rewrite IH. Qed.

Lemma toLowerCase_app a b : toLowerCase (a +:+ b) = toLowerCase a +:+ toLowerCase b.
Proof. induction a as [|c a IH]; [done|]. rewrite app_cons. simpl. by rewrite IH. Qed.

Lemma prefix_cons c p d s :
  String.prefix (String c p) (String d s) = if Ascii.eqb c d then String.prefix p s else false.
Proof.
  simpl. destruct (ascii_dec c d) as [->|Hne].
  - by rewrite Ascii.eqb_refl.
  - apply Ascii.eqb_neq in Hne. by rewrite Hne.
Qed.

Lemma endsWith_unfold s p :
  endsWith s p
  = if String.eqb s p then true
    else match s with
         | EmptyString => false
         | String _ s' => endsWith s' p
         end.
Proof. by destruct s. Qed.

Lemma endsWith_app a p : endsWith (a +:+ p) p = true.
Proof.
  induction a as [|c a IH].
  - change (endsWith p p = true). by rewrite endsWith_unfold, String.eqb_refl.
  - rewrite app_cons, endsWith_unfold, IH. by destruct (String.eqb _ _).
Qed.

Lemma endsWith_app_false x y p :
  endsWith y p = false → (String.length p ≤ String.length y)%nat →
  endsWith (x +:+ y) p = false.
Proof.
  intros Hy Hlen. induction x as [|c x IH]; [done|].
  rewrite app_cons, endsWith_unfold, IH.
  destruct (String.eqb (String c (x +:+ y)) p) eqn:Heq; [|done].
  apply eqb_string_true in Heq. apply (f_equal String.length) in Heq.
  simpl in Heq. rewrite length_app_string in Heq. lia.
Qed.

(** ** The network fetcher *)

Section FetchProperties.
Context `{RT : Runtime} (env : Env).

Lemma redirectOf_Some statusCode l :
  300 ≤ statusCode < 400 → l ≠ "" → redirectOf statusCode (Some l) = Some l.
Proof.
  intros [Hlo Hhi] Hl. unfold redirectOf.
  apply Z.leb_le in Hlo. apply Z.ltb_lt in Hhi. apply eqb_string_false in Hl.
  by rewrite Hlo, Hhi, Hl.
Qed.

Lemma redirectOf_None statusCode location :
  ¬ (300 ≤ statusCode < 400 ∧ ∃ l, location = Some l ∧ l ≠ "") →
  redirectOf statusCode location = None.
Proof.
  intros Hno. unfold redirectOf. destruct location as [l|]; [|done].
  destruct (300 <=? statusCode) eqn:Hlo; [|done].
  destruct (statusCode <? 400) eqn:Hhi; [|done].
  destruct (String.eqb l "") eqn:Hl; [done|]. exfalso. apply Hno.
  apply Z.leb_le in Hlo. apply Z.ltb_lt in Hhi. apply eqb_string_false in Hl.
  eauto.
Qed.

(** A hop costs one unit of fuel and continues with the next URL. *)
Lemma fetchUrl_hop accept url next fuel :
  hop env accept url next →
  fetchUrl env (S fuel) url accept = fetchUrl env fuel next accept.
Proof.
  intros (p & s & l & ct & b & Hp & Hnet & Hs & Hl & Hnext). simpl.
  rewrite Hp, Hnet, (redirectOf_Some _ _ Hs Hl). unfold redirectUrl.
  destruct Hnext as [[-> ->]|[-> (u & -> & ->)]]; done.
Qed.

Lemma fetchUrl_hop_no_fuel accept url next :
  hop env accept url next → fetchUrl env 0 url accept = Throw (overrun env).
Proof.
  intros (p & s & l & ct & b & Hp & Hnet & Hs & Hl & Hnext). simpl.
  rewrite Hp, Hnet, (redirectOf_Some _ _ Hs Hl). unfold redirectUrl.
  destruct Hnext as [[-> ->]|[-> (u & -> & ->)]]; done.
Qed.

Lemma fetchUrl_chain accept n url final k :
  redirects env accept n url final →
  fetchUrl env (n + k) url accept = fetchUrl env k final accept.
Proof.
  induction 1 as [|n url next final Hhop _ IH]; [done|].
  rewrite <- IH. by apply fetchUrl_hop.
Qed.

Lemma fetchUrl_chain_short accept n url final fuel :
  redirects env accept n url final → (fuel < n)%nat →
  fetchUrl env fuel url accept = Throw (overrun env).
Proof.
  intros Hchain. revert fuel.
  induction Hchain as [|n url next final Hhop _ IH]; intros fuel Hlt; [lia|].
  destruct fuel as [|fuel].
  - by eapply fetchUrl_hop_no_fuel.
  - rewrite (fetchUrl_hop _ _ _ _ Hhop). apply IH. lia.
Qed.

(** What [fetchUrl] does with an answer that is not a redirect. *)
Lemma fetchUrl_answered accept url statusCode fuel :
  answered env accept url statusCode →
  (statusCode ≠ 200 → fetchUrl env fuel url accept = Throw (HttpStatusError statusCode)) ∧
  (statusCode = 200 → ∀ c, fetchUrl env fuel url accept ≠ Throw (HttpStatusError c)).
Proof.
  intros (p & loc & ct & b & Hp & Hnet & Hno).
  assert (Hunfold : fetchUrl env fuel url accept =
            if negb (statusCode =? 200) then Throw (HttpStatusError statusCode)
            else match b with
                 | BodyEnd d => Ret {| data := d; contentType := default "" ct |}
                 | BodyFail msg => Throw (SystemError msg)
                 | BodyStall => Throw TimeoutError
                 end).
  { destruct fuel; simpl; by rewrite Hp, Hnet, (redirectOf_None _ _ Hno). }
  rewrite Hunfold. split.
  - intros Hne. apply Z.eqb_neq in Hne. by rewrite Hne.
  - intros -> c. simpl. by destruct b.
Qed.

(** A cycle of redirects is rejected, whatever the number of hops it is
    given time for. *)
Lemma fetchUrl_loop accept n url fuel :
  redirects env accept (S n) url url → fetchUrl env fuel url accept = Throw (overrun env).
Proof.
  intros Hloop. induction (lt_wf fuel) as [fuel _ IH].
  destruct (decide (fuel < S n)%nat) as [Hlt|Hge].
  - by eapply fetchUrl_chain_short.
  - replace fuel with (S n + (fuel - S n))%nat by lia.
    rewrite (fetchUrl_chain _ _ _ _ _ Hloop). apply IH. lia.
Qed.

End FetchProperties.

(** What fetchUrl does with redirects.  It follows every response with a
    status in the 300s and a non-empty Location header by issuing the
    request again: a Location that starts with http is the new URL as it
    is, any other Location is the new URL once resolved against the URL of
    the request that received it.  The hops are not counted: a chain of n
    redirects is followed to its end for every n, when there is time for
    n hops, and rejected when there is not.  At the end of the chain the
    promise is rejected with an HTTP status error exactly when the status
    of the final answer, the one that is not such a redirect, is not
    200. *)
Theorem fetchUrl_follows_redirects `{RT : Runtime} (env : Env)
    (accept url final : string) (n : nat) (statusCode : Z) :
  redirects env accept n url final →
  answered env accept final statusCode →
  (∀ k, fetchUrl env (n + k) url accept = fetchUrl env k final accept) ∧
  (∀ fuel, (fuel < n)%nat → fetchUrl env fuel url accept = Throw (overrun env)) ∧
  (∀ k, (∃ c, fetchUrl env (n + k) url accept = Throw (HttpStatusError c))
        ↔ statusCode ≠ 200).
Proof.
  intros Hchain Hfinal. split; [|split].
  - intros k. by apply fetchUrl_chain.
  - intros fuel Hlt. by eapply fetchUrl_chain_short.
  - intros k. rewrite (fetchUrl_chain _ _ _ _ _ k Hchain).
    destruct (fetchUrl_answered _ _ _ _ k Hfinal) as [Hne Heq]. split.
    + intros [c Hc] ->. by eapply Heq.
    + intros H. eexists. by apply Hne.
Qed.

Import Reference Example.

Ltac run_hop :=
  do 5 eexists; split; [vm_compute; reflexivity|];
  split; [vm_compute; reflexivity|];
  split; [lia|]; split; [discriminate|].

(** A chain of two hops, the first by an absolute Location and the second
    by a relative one, ending on a page answered with 200. *)
Lemma fetchUrl_follows_redirects_witness :
  let env := machine "linux" redirecting in
  (∀ k, fetchUrl env (2 + k) "https://example.com/old" ""
        = fetchUrl env k "https://example.com/final.html" "") ∧
  (∀ fuel, (fuel < 2)%nat →
           fetchUrl env fuel "https://example.com/old" "" = Throw TimeoutError) ∧
  (∀ k, (∃ c, fetchUrl env (2 + k) "https://example.com/old" "" = Throw (HttpStatusError c))
        ↔ 200 ≠ 200).
Proof.
  apply (fetchUrl_follows_redirects (machine "linux" redirecting) ""
           "https://example.com/old" "https://example.com/final.html" 2 200).
  - apply redirects_S with (next := "https://example.com/new").
    { run_hop. left. split; reflexivity. }
    apply redirects_S with (next := "https://example.com/final.html").
    { run_hop. right. split; [reflexivity|]. eexists. split; vm_compute; reflexivity. }
    apply redirects_O.
  - do 4 eexists. split; [vm_compute; reflexivity|]. split; [vm_compute; reflexivity|].
    intros [[Hlo _] _]. lia.
Defined.

(** C7.  The claim: fetchUrl follows every redirect, a relative Location
    being resolved against the URL of the request that received it.  The
    code at this input: the front page of the host is answered with a
    redirect whose Location, [http-docs/index.html], is a relative
    reference, and the page it names once resolved against the URL of the
    request exists and is answered with 200; but the Location starts with
    http, so the test that tells an absolute Location from a relative one
    takes it for a URL, which it is not, and the promise is rejected
    instead of being fulfilled with that page. *)
Theorem fetchUrl_relative_location_not_resolved :
  let env := machine "linux" redirecting in
  net env (requestOf {| URL.protocol := "https:"; URL.hostname := "example.com";
                        URL.port := ""; URL.pathname := "/"; URL.search := "";
                        URL.href := "https://example.com/" |} "")
    = Response 302 (Some "http-docs/index.html") None (BodyEnd "") ∧
  newURL "http-docs/index.html" = None ∧
  URL.href <$> newURLBase "http-docs/index.html" "https://example.com/"
    = Some "https://example.com/http-docs/index.html" ∧
  fetchUrl env 5 "https://example.com/http-docs/index.html" ""
    = Ret {| data := "moved here"; contentType := "text/html" |} ∧
  fetchUrl env 5 "https://example.com/" "" = Throw (TypeError "Invalid URL").
Proof. vm_compute. repeat split. Qed.

(** ** Numbers *)

Section Numbers.

Lemma nearest_pos n : 0 < n → 0 < nearest n.
Proof.
  intros Hn. unfold nearest. cbv zeta.
  destruct (Z.log2 n - 52 <=? 0) eqn:He; [done|].
  apply Z.leb_gt in He.
  assert (0 < 2 ^ (Z.log2 n - 52)) by (apply Z.pow_pos_nonneg; lia).
  assert (0 < n / 2 ^ (Z.log2 n - 52)).
  { apply Z.div_str_pos. split; [done|].
    transitivity (2 ^ Z.log2 n); [apply Z.pow_le_mono_r; lia|].
    by apply Z.log2_spec. }
  destruct (_ || _); nia.
Qed.

(** The integers below 2^53 are doubles. *)
Lemma nearest_small n : 0 ≤ n < 2 ^ 53 → nearest n = n.
Proof.
  intros [Hlo Hhi]. unfold nearest. cbv zeta.
  destruct (Z.log2 n - 52 <=? 0) eqn:He; [done|].
  apply Z.leb_gt in He. exfalso.
  assert (0 < n) by (destruct (decide (n = 0)) as [->|]; [done|lia]).
  assert (Z.log2 n < 53) by (by apply Z.log2_lt_pow2).
  lia.
Qed.

Lemma toNumber_small z : Z.abs z < 2 ^ 53 → toNumber z = Num z.
Proof.
  intros Hz. unfold toNumber. cbv zeta. rewrite nearest_small by lia.
  destruct (2 ^ 1024 <=? Z.abs z) eqn:Hbig.
  - apply Z.leb_le in Hbig. exfalso.
    assert (2 ^ 53 < 2 ^ 1024) by (by apply Z.pow_lt_mono_r). lia.
  - f_equal. lia.
Qed.

(** The conversion is the rounding of IEEE 754 to binary64, to nearest
    and half way to even, as the library specifies it: checked on the
    samples. *)
Lemma toNumber_binary64 :
  Forall (fun z => ofSpecFloat (SpecFloat.binary_normalize 53 1024 z 0 false)
                   = Some (toNumber z)) roundingSamples.
Proof. apply (bool_decide_unpack _). vm_compute. exact I. Qed.

(** Rounding keeps the sign. *)
Lemma positive_toNumber z : positive (Some (toNumber z)) = (0 <? z).
Proof.
  unfold toNumber. cbv zeta.
  destruct (decide (z = 0)) as [->|Hz]; [done|].
  pose proof (nearest_pos (Z.abs z)) as Hpos.
  destruct (2 ^ 1024 <=? nearest (Z.abs z)); simpl.
  - destruct (z <? 0) eqn:Hneg; simpl; symmetry.
    + apply Z.ltb_lt in Hneg. apply Z.ltb_ge. lia.
    + apply Z.ltb_ge in Hneg. apply Z.ltb_lt. lia.
  - destruct (0 <? z) eqn:Hsign.
    + apply Z.ltb_lt in Hsign. apply Z.ltb_lt. nia.
    + apply Z.ltb_ge in Hsign. apply Z.ltb_ge. nia.
Qed.

(** The comparator of the sort is positive exactly when its first
    argument has the smaller priority. *)
Lemma positive_minus a b : positive (minus b a) = less a b.
Proof.
  destruct a as [x|[]], b as [y|[]]; try done.
  change (positive (Some (toNumber (y - x))) = (x <? y)).
  rewrite positive_toNumber.
  destruct (0 <? y - x) eqn:H1, (x <? y) eqn:H2; try done.
  - apply Z.ltb_lt in H1. apply Z.ltb_ge in H2. lia.
  - apply Z.ltb_ge in H1. apply Z.ltb_lt in H2. lia.
Qed.

Lemma less_irrefl a : less a a = false.
Proof. destruct a as [x|[]]; simpl; [apply Z.ltb_irrefl|done..]. Qed.

Lemma less_trans a b c : less a b = true → less b c = true → less a c = true.
Proof.
  destruct a as [x|[]], b as [y|[]], c as [z|[]]; simpl; try done.
  rewrite !Z.ltb_lt. lia.
Qed.

(** [a < b] and [b <= c] *)
Lemma less_le_trans a b c : less a b = true → less c b = false → less a c = true.
Proof.
  destruct a as [x|[]], b as [y|[]], c as [z|[]]; simpl; try done.
  rewrite !Z.ltb_lt, Z.ltb_ge. lia.
Qed.

(** [a >= b] and [b >= c] *)
Lemma not_less_trans a b c : less a b = false → less b c = false → less a c = false.
Proof.
  destruct a as [x|[]], b as [y|[]], c as [z|[]]; simpl; try done.
  rewrite !Z.ltb_ge. lia.
Qed.

Lemma less_not_less a b : less a b = true → less b a = false.
Proof.
  destruct a as [x|[]], b as [y|[]]; simpl; try done.
  rewrite Z.ltb_lt, Z.ltb_ge. lia.
Qed.

(** Two numbers neither of which is the smaller are equal. *)
Lemma less_antisym a b : less a b = false → less b a = false → a = b.
Proof.
  destruct a as [x|[]], b as [y|[]]; simpl; try done.
  rewrite !Z.ltb_ge. intros. f_equal. lia.
Qed.

End Numbers.

(** ** Ranking *)

Section Ranking.

Lemma insertIcon_cons x y l :
  insertIcon x (y :: l)
  = if less (Icon.priority x) (Icon.priority y) then y :: insertIcon x l else x :: y :: l.
Proof. simpl. unfold byPriority. by rewrite positive_minus. Qed.

Lemma insertIcon_Permutation x l : insertIcon x l ≡ₚ x :: l.
Proof.
  induction l as [|y l IH]; [done|]. rewrite insertIcon_cons.
  destruct (less (Icon.priority x) (Icon.priority y)); [|done].
  rewrite IH. apply perm_swap.
Qed.

Lemma sortIcons_Permutation l : sortIcons l ≡ₚ l.
Proof.
  induction l as [|x l IH]; simpl; [done|].
  by rewrite insertIcon_Permutation, IH.
Qed.

Lemma insertIcon_descending x l : descending l → descending (insertIcon x l).
Proof.
  induction 1 as [|y l Hl IH Hy].
  - repeat constructor.
  - rewrite insertIcon_cons.
    destruct (less (Icon.priority x) (Icon.priority y)) eqn:Hlt.
    + constructor; [done|].
      rewrite insertIcon_Permutation. constructor; [by apply less_not_less|done].
    + constructor; [by constructor|].
      constructor; [done|].
      eapply Forall_impl; [exact Hy|]. simpl. intros z Hz.
      by eapply not_less_trans.
Qed.

Lemma sortIcons_descending l : descending (sortIcons l).
Proof.
  induction l as [|x l IH]; simpl; [constructor|]. by apply insertIcon_descending.
Qed.

(** The sort is stable: candidates of one priority keep their order. *)
Lemma insertIcon_stable p x l :
  filter (fun i => Icon.priority i = p) (insertIcon x l)
  = filter (fun i => Icon.priority i = p) (x :: l).
Proof.
  induction l as [|y l IH]; [done|]. rewrite insertIcon_cons.
  destruct (less (Icon.priority x) (Icon.priority y)) eqn:Hlt; [|done].
  rewrite filter_cons, IH, !filter_cons.
  repeat case_decide; try done.
  exfalso. assert (Icon.priority x = Icon.priority y) as Heq by congruence.
  rewrite Heq, less_irrefl in Hlt. done.
Qed.

Lemma sortIcons_stable p l :
  filter (fun i => Icon.priority i = p) (sortIcons l)
  = filter (fun i => Icon.priority i = p) l.
Proof.
  induction l as [|x l IH]; simpl; [done|].
  by rewrite insertIcon_stable, !filter_cons, IH.
Qed.

(** The first candidate after the sort is the first of the candidates of
    maximal priority in encounter order. *)
Lemma sortIcons_head l :
  l ≠ [] →
  ∃ before best after,
    l = before ++ best :: after ∧
    (∀ i, i ∈ before → less (Icon.priority i) (Icon.priority best) = true) ∧
    (∀ i, i ∈ after → less (Icon.priority best) (Icon.priority i) = false) ∧
    head (sortIcons l) = Some best.
Proof.
  induction l as [|x l IH]; [done|]. intros _.
  destruct l as [|y l].
  { exists [], x, []. split_and!; [done|set_solver|set_solver|done]. }
  destruct IH as (before & best & after & Hl & Hbefore & Hafter & Hhead); [done|].
  change (sortIcons (x :: y :: l)) with (insertIcon x (sortIcons (y :: l))).
  destruct (sortIcons (y :: l)) as [|b rest]; [done|].
  injection Hhead as ->. rewrite insertIcon_cons.
  destruct (less (Icon.priority x) (Icon.priority best)) eqn:Hlt.
  - exists (x :: before), best, after.
    rewrite Hl. split_and!; [done| |done|done].
    intros i [->|Hi]%elem_of_cons; auto.
  - exists [], x, (y :: l).
    split_and!; [done|set_solver| |done].
    intros i Hi. rewrite Hl in Hi.
    apply elem_of_app in Hi as [Hi|[->|Hi]%elem_of_cons].
    + apply less_not_less. eapply less_le_trans; [by apply Hbefore|done].
    + done.
    + eapply not_less_trans; [exact Hlt|by apply Hafter].
Qed.

End Ranking.

(** ** Icon discovery *)

Section DiscoveryProperties.
Context `{RT : Runtime} (env : Env).

Lemma bind_Ret {A B} (m : outcome A) (f : A → outcome B) (b : B) :
  m ≫= f = Ret b → ∃ a, m = Ret a ∧ f a = Ret b.
Proof. destruct m; simpl; intros H; try discriminate. eauto. Qed.

(** What the loop of parseIconLinks stores for a link tag. *)
Lemma linkIcon_priority baseUrl link icon :
  linkIcon baseUrl link = Ret (Some icon) →
  ∃ rel,
    capture (attrRegex "rel") link = Some rel ∧
    Icon.size icon = match capture (attrRegex "sizes") link with
                     | Some s => parseIntOr0 (splitHead "x" s)
                     | None => Num 0
                     end ∧
    Icon.isAppleIcon icon = Some (includes (toLowerCase rel) "apple-touch-icon") ∧
    Icon.priority icon = if includes (toLowerCase rel) "apple-touch-icon"
                         then plus (Icon.size icon) 1000 else Icon.size icon.
Proof.
  unfold linkIcon. destruct (capture (attrRegex "rel") link) as [rel|]; [|done].
  destruct (negb (includes (toLowerCase rel) "icon")); [done|].
  destruct (capture (attrRegex "href") link) as [h|]; [|done].
  intros (href & _ & [= <-])%bind_Ret. exists rel. done.
Qed.

Lemma iconLinks_from_links baseUrl links icons :
  iconLinks baseUrl links = Ret icons →
  ∀ icon, icon ∈ icons → ∃ link, link ∈ links ∧ linkIcon baseUrl link = Ret (Some icon).
Proof.
  revert icons. induction links as [|link links IH]; simpl; intros icons.
  - intros [= <-] icon Hin. set_solver.
  - intros (i & Hi & (rest & Hrest & [= <-])%bind_Ret)%bind_Ret icon Hin.
    specialize (IH _ Hrest).
    destruct i as [x|].
    + apply elem_of_cons in Hin as [->|Hin].
      * exists link. split; [set_solver|done].
      * destruct (IH _ Hin) as (l & ? & ?). exists l. split; [set_solver|done].
    + destruct (IH _ Hin) as (l & ? & ?). exists l. split; [set_solver|done].
Qed.

(** The candidates of the page are those of its link tags, one by one
    and in their order. *)
Lemma iconLinks_in_order baseUrl links icons :
  iconLinks baseUrl links = Ret icons →
  ∃ found, Forall2 (fun link o => linkIcon baseUrl link = Ret o) links found ∧
           icons = omap id found.
Proof.
  revert icons. induction links as [|link links IH]; simpl; intros icons.
  - intros [= <-]. exists []. split; [constructor|done].
  - intros (i & Hi & (rest & Hrest & [= <-])%bind_Ret)%bind_Ret.
    destruct (IH _ Hrest) as (found & Hfound & ->).
    exists (i :: found). split; [by constructor|]. by destruct i.
Qed.

Lemma parseIconLinks_icons html baseUrl icons manifestUrl :
  parseIconLinks html baseUrl = Ret (icons, manifestUrl) →
  iconLinks baseUrl (matchAll linkRegex html 0) = Ret icons.
Proof.
  unfold parseIconLinks. intros (found & Hfound & Hrest)%bind_Ret.
  assert (found = icons) as ->; [|done].
  destruct (capture manifestRegex html); [|by injection Hrest].
  apply bind_Ret in Hrest as (? & _ & [= -> _]). done.
Qed.

Lemma parseIconLinks_priority html baseUrl icons manifestUrl :
  parseIconLinks html baseUrl = Ret (icons, manifestUrl) →
  ∀ icon, icon ∈ icons →
    ∃ apple, Icon.isAppleIcon icon = Some apple ∧
             Icon.priority icon = if apple then plus (Icon.size icon) 1000 else Icon.size icon.
Proof.
  intros Hfound%parseIconLinks_icons icon Hin.
  destruct (iconLinks_from_links _ _ _ Hfound _ Hin) as (link & _ & Hlink).
  destruct (linkIcon_priority _ _ _ Hlink) as (rel & _ & _ & Happle & Hprio). eauto.
Qed.

Lemma manifestIcon_priority baseHref j icon :
  manifestIcon baseHref j = Ret icon →
  Icon.isAppleIcon icon = None ∧ Icon.priority icon = Icon.size icon.
Proof.
  unfold manifestIcon.
  intros (src & _ & (href & _ & (sizes & _ & (size & _ & (type & _ &
           (purpose & _ & [= <-])%bind_Ret)%bind_Ret)%bind_Ret)%bind_Ret)%bind_Ret)%bind_Ret.
  done.
Qed.

Lemma forEach_from {A B} (f : A → outcome B) l ys :
  forEach f l = Ret ys → ∀ y, y ∈ ys → ∃ x, x ∈ l ∧ f x = Ret y.
Proof.
  revert ys. induction l as [|x l IH]; simpl; intros ys.
  - intros [= <-] y Hy. set_solver.
  - intros (y0 & Hy0 & (rest & Hrest & [= <-])%bind_Ret)%bind_Ret y Hy.
    apply elem_of_cons in Hy as [->|Hy].
    + exists x. split; [set_solver|done].
    + destruct (IH _ Hrest _ Hy) as (x' & ? & ?). exists x'. split; [set_solver|done].
Qed.

Lemma forEach_in_order {A B} (f : A → outcome B) l ys :
  forEach f l = Ret ys → Forall2 (fun x y => f x = Ret y) l ys.
Proof.
  revert ys. induction l as [|x l IH]; simpl; intros ys.
  - intros [= <-]. constructor.
  - intros (y0 & Hy0 & (rest & Hrest & [= <-])%bind_Ret)%bind_Ret.
    constructor; [done|]. by apply IH.
Qed.

Lemma forEach_Throw_from {A B} (f : A → outcome B) l e :
  forEach f l = Throw e → ∃ x, x ∈ l ∧ f x = Throw e.
Proof.
  induction l as [|x l IH]; simpl; [done|].
  destruct (f x) as [y|e'|e'] eqn:Hx; simpl; [|intros [= <-]; exists x; set_solver|done].
  destruct (forEach f l) as [ys|e'|e'] eqn:Hl; simpl; [done| |done].
  intros [= <-]. destruct IH as (x' & ? & ?); [done|]. exists x'. set_solver.
Qed.

(** The candidates of a manifest that is served and has an icons array
    are those of the entries of the array, one by one and in their order;
    unless the callback fails on an entry, and then there is none. *)
Lemma parseManifest_in_order fuel m d manifest items u icons :
  fetchUrl env fuel m "application/json" = Ret d →
  JSONparse (data d) = Some manifest →
  getProp manifest "icons" = Ret (Some (JArr items)) →
  newURL m = Some u →
  parseManifest env fuel m = Ret icons →
  Forall2 (fun item icon => manifestIcon (URL.href u) item = Ret icon) items icons ∨
  (icons = [] ∧ ∃ item e, item ∈ items ∧ manifestIcon (URL.href u) item = Throw e).
Proof.
  intros Hfetch Hjson Hicons Hu. unfold parseManifest.
  rewrite Hfetch. simpl. rewrite Hjson. simpl. rewrite Hicons. simpl. rewrite Hu. simpl.
  destruct (forEach (manifestIcon (URL.href u)) items) as [ys|e|e] eqn:Hall; simpl; [| |done].
  - intros [= <-]. left. by apply forEach_in_order.
  - intros [= <-]. right. split; [done|].
    destruct (forEach_Throw_from _ _ _ Hall) as (item & ? & ?). eauto.
Qed.

Lemma parseManifest_priority fuel manifestUrl icons :
  parseManifest env fuel manifestUrl = Ret icons →
  ∀ icon, icon ∈ icons →
    Icon.isAppleIcon icon = None ∧ Icon.priority icon = Icon.size icon.
Proof.
  unfold parseManifest, catch. intros H icon Hin.
  match type of H with match ?m with _ => _ end = _ => destruct m as [l| |] eqn:Hm end;
    try discriminate; simplify_eq; [|set_solver].
  apply bind_Ret in Hm as (r & _ & (manifest & _ & (found & _ & Hm)%bind_Ret)%bind_Ret).
  destruct found as [[| | | |items|]|]; try (simplify_eq; set_solver).
  apply bind_Ret in Hm as (baseUrl & _ & Hm).
  destruct (forEach_from _ _ _ Hm _ Hin) as (j & _ & Hj).
  by apply manifestIcon_priority in Hj.
Qed.

Lemma manifestIconsFor_priority fuel manifestUrl icons :
  manifestIconsFor env fuel manifestUrl = Ret icons →
  ∀ icon, icon ∈ icons →
    Icon.isAppleIcon icon = None ∧ Icon.priority icon = Icon.size icon.
Proof.
  unfold manifestIconsFor. destruct manifestUrl as [u|].
  - destruct (String.eqb u ""); [intros [= <-]; set_solver|].
    apply parseManifest_priority.
  - intros [= <-]; set_solver.
Qed.

(** The result of discovery once its three sources have answered. *)
Lemma getBestIconUrl_ranked fuel url r htmlIcons manifestUrl manifestIcons :
  fetchUrl env fuel url "text/html" = Ret r →
  parseIconLinks (data r) url = Ret (htmlIcons, manifestUrl) →
  manifestIconsFor env fuel manifestUrl = Ret manifestIcons →
  getBestIconUrl env fuel url
  = match sortIcons (htmlIcons ++ manifestIcons) with
    | best :: _ => Ret (Icon.href best)
    | [] => favicon url
    end.
Proof.
  intros Hfetch Hparse Hmanifest. unfold getBestIconUrl.
  rewrite Hfetch. simpl. rewrite Hparse. simpl. rewrite Hmanifest. simpl.
  destruct (sortIcons (htmlIcons ++ manifestIcons)); [|done].
  unfold favicon. by destruct (newURL url).
Qed.

(** Discovery does not reject when the page URL is one: whatever is
    thrown inside is answered with the favicon of the host. *)
Lemma getBestIconUrl_no_throw fuel url u :
  newURL url = Some u →
  ∀ e, getBestIconUrl env fuel url ≠ Throw e.
Proof.
  intros Hu e. unfold getBestIconUrl, catch, favicon. rewrite Hu. simpl.
  match goal with |- match ?m with _ => _ end ≠ _ => destruct m end; done.
Qed.

Lemma getBestIconUrl_fetch_failed fuel url u e :
  newURL url = Some u →
  fetchUrl env fuel url "text/html" = Throw e →
  getBestIconUrl env fuel url = Ret (faviconOf u).
Proof.
  intros Hu Hfetch. unfold getBestIconUrl, favicon. rewrite Hfetch, Hu. done.
Qed.

Lemma getBestIconUrl_no_candidates fuel url u r manifestUrl :
  newURL url = Some u →
  fetchUrl env fuel url "text/html" = Ret r →
  parseIconLinks (data r) url = Ret ([], manifestUrl) →
  manifestIconsFor env fuel manifestUrl = Ret [] →
  getBestIconUrl env fuel url = Ret (faviconOf u).
Proof.
  intros Hu Hfetch Hparse Hmanifest.
  rewrite (getBestIconUrl_ranked _ _ _ _ _ _ Hfetch Hparse Hmanifest).
  simpl. unfold favicon. by rewrite Hu.
Qed.

End DiscoveryProperties.

(** C3.  The candidates of the page are those of its link tags, in the
    order of the document, and carry as priority their size, the leading
    number of the sizes attribute, plus 1000 when the rel attribute
    contains apple-touch-icon.  The candidates of the manifest are those
    of the entries of its icons array, in the order of the array, and
    carry as priority their size.  Sizes and priorities are numbers of
    the language, integers held in doubles: the sum with 1000 is exact
    below 2^53.  The sort is descending and stable.  The icon selected is
    the first, in encounter order with the candidates of the page in
    front of those of the manifest, of the candidates of maximal
    priority: every candidate in front of it has a smaller priority, none
    has a larger one. *)
Theorem best_icon_has_maximal_priority `{RT : Runtime} (env : Env) (fuel : nat)
    (url : string) (r : Fetched) (htmlIcons manifestIcons : list Icon.t)
    (manifestUrl : option string) :
  fetchUrl env fuel url "text/html" = Ret r →
  parseIconLinks (data r) url = Ret (htmlIcons, manifestUrl) →
  manifestIconsFor env fuel manifestUrl = Ret manifestIcons →
  htmlIcons ++ manifestIcons ≠ [] →
  (∃ found,
     Forall2 (fun link o => linkIcon url link = Ret o) (matchAll linkRegex (data r) 0) found ∧
     htmlIcons = omap id found) ∧
  (∀ icon, icon ∈ htmlIcons →
     ∃ link rel,
       link ∈ matchAll linkRegex (data r) 0 ∧
       capture (attrRegex "rel") link = Some rel ∧
       Icon.size icon = match capture (attrRegex "sizes") link with
                        | Some s => parseIntOr0 (splitHead "x" s)
                        | None => Num 0
                        end ∧
       Icon.priority icon = (if includes (toLowerCase rel) "apple-touch-icon"
                             then plus (Icon.size icon) 1000 else Icon.size icon) ∧
       (∀ z, Icon.size icon = Num z → Z.abs (z + 1000) < 2 ^ 53 →
             plus (Icon.size icon) 1000 = Num (z + 1000))) ∧
  (∀ m d manifest items u,
     manifestUrl = Some m → m ≠ "" →
     fetchUrl env fuel m "application/json" = Ret d →
     JSONparse (data d) = Some manifest →
     getProp manifest "icons" = Ret (Some (JArr items)) →
     newURL m = Some u →
     Forall2 (fun item icon => manifestIcon (URL.href u) item = Ret icon) items manifestIcons ∨
     (manifestIcons = [] ∧
      ∃ item e, item ∈ items ∧ manifestIcon (URL.href u) item = Throw e)) ∧
  (∀ icon, icon ∈ manifestIcons →
     Icon.isAppleIcon icon = None ∧ Icon.priority icon = Icon.size icon) ∧
  descending (sortIcons (htmlIcons ++ manifestIcons)) ∧
  (∀ p, filter (fun i => Icon.priority i = p) (sortIcons (htmlIcons ++ manifestIcons))
        = filter (fun i => Icon.priority i = p) (htmlIcons ++ manifestIcons)) ∧
  ∃ before best after,
    htmlIcons ++ manifestIcons = before ++ best :: after ∧
    (∀ icon, icon ∈ before → less (Icon.priority icon) (Icon.priority best) = true) ∧
    (∀ icon, icon ∈ after → less (Icon.priority best) (Icon.priority icon) = false) ∧
    getBestIconUrl env fuel url = Ret (Icon.href best).
Proof.
  intros Hfetch Hparse Hmanifest Hsome.
  pose proof (parseIconLinks_icons _ _ _ _ Hparse) as Hfound.
  split_and!; [| | | |apply sortIcons_descending|intros p; apply sortIcons_stable|].
  - by apply iconLinks_in_order.
  - intros icon Hin.
    destruct (iconLinks_from_links _ _ _ Hfound _ Hin) as (link & Hlink & Hicon).
    destruct (linkIcon_priority _ _ _ Hicon) as (rel & ? & ? & _ & ?).
    exists link, rel. split_and!; [done..|].
    intros z -> Hz. by apply toNumber_small.
  - intros m d manifest items u -> Hm%eqb_string_false Hd Hjson Hicons Hu.
    unfold manifestIconsFor in Hmanifest. rewrite Hm in Hmanifest.
    by eapply parseManifest_in_order.
  - by eapply manifestIconsFor_priority.
  - destruct (sortIcons_head _ Hsome) as (before & best & after & Hl & Hb & Ha & Hhead).
    exists before, best, after. split_and!; [done..|].
    rewrite (getBestIconUrl_ranked _ _ _ _ _ _ _ Hfetch Hparse Hmanifest).
    by destruct (sortIcons (htmlIcons ++ manifestIcons)); simplify_eq/=.
Qed.

(** On the example page the Apple touch icon of size 32, priority 1032, is
    selected: the plain icon of size 180 in front of it has a smaller
    priority, and the icon of the manifest that ties with it comes later. *)
Lemma best_icon_has_maximal_priority_witness :
  let env := machine "linux" iconSite in
  getBestIconUrl env 3 "https://example.com/" = Ret "https://example.com/touch.png" ∧
  Icon.priority <$> sortIcons
    (default [] (match parseIconLinks iconPage "https://example.com/" with
                 | Ret (icons, _) => Some icons
                 | _ => None
                 end)
     ++ default [] (match parseManifest env 3 "https://example.com/app.json" with
                    | Ret icons => Some icons
                    | _ => None
                    end))
  = [Num 1032; Num 1032; Num 180; Num 48].
Proof.
  split; [|vm_compute; reflexivity].
  destruct (best_icon_has_maximal_priority (machine "linux" iconSite) 3
              "https://example.com/" {| data := iconPage; contentType := "text/html" |}
              (default [] (match parseIconLinks iconPage "https://example.com/" with
                           | Ret (icons, _) => Some icons
                           | _ => None
                           end))
              (default [] (match parseManifest (machine "linux" iconSite) 3
                                   "https://example.com/app.json" with
                           | Ret icons => Some icons
                           | _ => None
                           end))
              (Some "https://example.com/app.json"))
    as (_ & _ & _ & _ & _ & _ & before & best & after & _ & _ & _ & Hbest);
    [vm_compute; reflexivity..|vm_compute; discriminate|].
  vm_compute. reflexivity.
Defined.

(** Beyond 2^53 the sum with 1000 is rounded: of two icons of size 10^20
    the Apple touch icon has the priority of the plain one, and the plain
    one, in front of it in the document, is selected. *)
Lemma getBestIconUrl_rounded_priority :
  let env := machine "linux" hugeIconSite in
  plus (toNumber (10 ^ 20)) 1000 = toNumber (10 ^ 20) ∧
  getBestIconUrl env 3 "https://example.com/" = Ret "https://example.com/plain.png".
Proof. vm_compute. split; reflexivity. Qed.

(** The page of the example host that redirects to itself. *)
Lemma redirects_loop :
  redirects (machine "linux" redirecting) "text/html" 1
    "https://example.com/loop" "https://example.com/loop".
Proof.
  apply redirects_S with (next := "https://example.com/loop"); [|apply redirects_O].
  run_hop. right. split; [reflexivity|]. eexists. split; vm_compute; reflexivity.
Qed.

(** A page that redirects to itself: the fetch is rejected, and discovery
    answers with the favicon of the host. *)
Lemma getBestIconUrl_redirect_cycle (fuel : nat) :
  getBestIconUrl (machine "linux" redirecting) fuel "https://example.com/loop"
  = Ret "https://example.com/favicon.ico".
Proof.
  erewrite getBestIconUrl_fetch_failed; [|vm_compute; reflexivity|].
  - vm_compute. reflexivity.
  - apply (fetchUrl_loop _ _ 0). exact redirects_loop.
Qed.

(** C2.  The claim: for a page URL that is one, discovery never raises and
    returns the best candidate or the favicon of the host.  The code at
    this input: the front page of the host is answered with a redirect
    whose Location, [//], no URL parser resolves; [new URL] throws inside
    the response callback of fetchUrl, where no promise catches it, and
    the process ends with an uncaught exception instead of returning the
    favicon URL. *)
Theorem getBestIconUrl_fails_to_return :
  validateUrl "https://example.com/" = true ∧
  newURLBase "//" "https://example.com/" = None ∧
  (∀ fuel, getBestIconUrl (machine "linux" malformedRedirect) fuel "https://example.com/"
           = Crash (TypeError "Invalid URL")).
Proof.
  split_and!; [vm_compute; reflexivity..|].
  intros fuel. destruct fuel; vm_compute; reflexivity.
Qed.

(** ** The monad *)

Lemma M_bind_Ret {A B} (m : M A) (f : A → M B) (w w' : World) (b : B) :
  (m ≫= f) w = (Ret b, w') → ∃ a w1, m w = (Ret a, w1) ∧ f a w1 = (Ret b, w').
Proof.
  unfold mbind, M_bind. destruct (m w) as [[a|e|e] w1]; intros H; try discriminate.
  eauto.
Qed.

Lemma M_bind_step {A B} (m : M A) (f : A → M B) (w w1 : World) (a : A) :
  m w = (Ret a, w1) → (m ≫= f) w = f a w1.
Proof. unfold mbind, M_bind. by intros ->. Qed.

Lemma M_bind_throw {A B} (m : M A) (f : A → M B) (w w1 : World) (e : error) :
  m w = (Throw e, w1) → (m ≫= f) w = (Throw e, w1).
Proof. unfold mbind, M_bind. by intros ->. Qed.

Lemma tryCatch_Ret {A} (m : M A) (h : error → M A) (w w1 : World) (a : A) :
  m w = (Ret a, w1) → tryCatch m h w = (Ret a, w1).
Proof. unfold tryCatch. by intros ->. Qed.

Lemma tryCatch_Throw {A} (m : M A) (h : error → M A) (w w1 : World) (e : error) :
  m w = (Throw e, w1) → tryCatch m h w = h e w1.
Proof. unfold tryCatch. by intros ->. Qed.

Ltac bind_step tac :=
  lazymatch goal with
  | |- @mbind M M_bind _ _ ?f ?m ?w = _ => erewrite (M_bind_step m f w); [|tac]; cbn beta iota
  end.

(** ** Download *)

Section DownloadProperties.

Lemma extensionOf_svg ctype iconUrl :
  includes ctype "svg" = true → extensionOf ctype iconUrl = ".svg".
Proof. unfold extensionOf. by intros ->. Qed.

Lemma extensionOf_ico ctype iconUrl :
  includes ctype "svg" = false → includes ctype "ico" = true →
  extensionOf ctype iconUrl = ".ico".
Proof. unfold extensionOf. by intros -> ->. Qed.

(** A JPEG content type decides only for a URL that does not end in .ico. *)
Lemma extensionOf_jpeg ctype iconUrl :
  includes ctype "svg" = false → includes ctype "ico" = false →
  includes ctype "jpeg" = true →
  extensionOf ctype iconUrl = if endsWith iconUrl ".ico" then ".ico" else ".jpg".
Proof. unfold extensionOf. intros -> -> ->. by destruct (endsWith iconUrl ".ico"). Qed.

Lemma extensionOf_default ctype iconUrl :
  includes ctype "svg" = false → includes ctype "ico" = false →
  includes ctype "jpeg" = false → includes ctype "jpg" = false →
  extensionOf ctype iconUrl
  = if endsWith iconUrl ".ico" then ".ico"
    else if endsWith iconUrl ".svg" then ".svg" else ".png".
Proof. unfold extensionOf. intros -> -> -> ->. by destruct (endsWith iconUrl ".ico"). Qed.

End DownloadProperties.

(** C5 (amended).  downloadIcon saves the response as [icon] followed by
    an extension chosen by this chain: a content type that contains svg
    gives [.svg]; otherwise a content type that contains ico, or a URL that
    ends in [.ico], gives [.ico]; otherwise a content type that contains
    jpeg or jpg gives [.jpg]; otherwise a URL that ends in [.svg] gives
    [.svg]; otherwise [.png].  So the content type decides when it names
    svg or ico, and when it names jpeg unless the URL ends in [.ico]; the
    suffix [.svg] is looked at only when the content type does not
    decide. *)
Theorem downloadIcon_extension `{RT : Runtime} (env : Env) (fuel : nat)
    (iconUrl tempDir : string) (r : Fetched) (w w1 w2 : World) :
  fetchUrl env fuel iconUrl "" = Ret r →
  mkdirAsync env tempDir w = (Ret tt, w1) →
  writeFileAsync env (pathJoin env tempDir ("icon" +:+ extensionOf (contentType r) iconUrl))
    (data r) w1 = (Ret tt, w2) →
  downloadIcon env fuel iconUrl tempDir w
  = (Ret (Downloaded (pathJoin env tempDir ("icon" +:+ extensionOf (contentType r) iconUrl))
            (extensionOf (contentType r) iconUrl) (String.length (data r))), w2) ∧
  extensionOf (contentType r) iconUrl
  = (if includes (contentType r) "svg" then ".svg"
     else if includes (contentType r) "ico" then ".ico"
     else if endsWith iconUrl ".ico" then ".ico"
     else if includes (contentType r) "jpeg" then ".jpg"
     else if includes (contentType r) "jpg" then ".jpg"
     else if endsWith iconUrl ".svg" then ".svg"
     else ".png").
Proof.
  intros Hfetch Hmkdir Hwrite. split.
  - unfold downloadIcon. apply tryCatch_Ret. rewrite Hfetch.
    bind_step ltac:(reflexivity). cbv zeta.
    bind_step ltac:(exact Hmkdir).
    bind_step ltac:(exact Hwrite).
    done.
  - unfold extensionOf.
    destruct (includes (contentType r) "svg"), (includes (contentType r) "ico"),
      (endsWith iconUrl ".ico"), (includes (contentType r) "jpeg"); reflexivity.
Qed.

(** A favicon served as [image/x-icon]: the content type decides. *)
Lemma downloadIcon_extension_witness :
  let env := machine "linux" [("example.com", "/icon", page "image/x-icon" "ICO-bytes")] in
  downloadIcon env 3 "https://example.com/icon" "/tmp/icons" (worldOf ["/tmp"])
  = (Ret (Downloaded "/tmp/icons/icon.ico" ".ico" 9),
     put "/tmp/icons/icon.ico" (File "ICO-bytes") (put "/tmp/icons" Dir (worldOf ["/tmp"]))) ∧
  extensionOf "image/x-icon" "https://example.com/icon" = ".ico".
Proof.
  intros env.
  destruct (downloadIcon_extension env 3 "https://example.com/icon" "/tmp/icons"
              {| data := "ICO-bytes"; contentType := "image/x-icon" |}
              (worldOf ["/tmp"]) (put "/tmp/icons" Dir (worldOf ["/tmp"]))
              (put "/tmp/icons/icon.ico" (File "ICO-bytes")
                 (put "/tmp/icons" Dir (worldOf ["/tmp"]))))
    as [Hrun Hext]; [vm_compute; reflexivity..|].
  split; [exact Hrun|exact Hext].
Defined.

(** C5, as first stated, fails: a favicon served with the content type
    image/jpeg from a URL that ends in [.ico] is saved as [icon.ico]: the
    content type names jpeg, and yet the URL suffix decides. *)
Lemma downloadIcon_jpeg_saved_as_ico :
  let env := machine "linux" faviconSite in
  fetchUrl env 3 "https://example.com/favicon.ico" ""
    = Ret {| data := "JPEG-bytes"; contentType := "image/jpeg" |} ∧
  extensionOf "image/jpeg" "https://example.com/favicon.ico" = ".ico" ∧
  extensionOf "image/jpeg" "https://example.com/favicon" = ".jpg" ∧
  fst (downloadIcon env 3 "https://example.com/favicon.ico" "/tmp/icons" (worldOf ["/tmp"]))
    = Ret (Downloaded "/tmp/icons/icon.ico" ".ico" 10).
Proof. vm_compute. repeat split. Qed.

(** ** Transcoding *)

Section TranscoderProperties.
Context (env : Env).

Lemma removeTree_lookup d k w :
  within env d k = true → fs (removeTree env d w) !! k = None.
Proof.
  intros Hin. unfold removeTree. simpl.
  apply map_lookup_filter_None. right. intros x _. simpl. by rewrite Hin.
Qed.

(** A command line of one tool that is not there fails and changes only
    the log. *)
Lemma execAsync_unavailable t w :
  toolOk env t = false →
  execAsync env (Run t) w = (Throw (SystemError "Command failed"), logged (Run t) w).
Proof. intros Hno. unfold execAsync. simpl. unfold runs. by rewrite Hno. Qed.

Lemma execAsync_unavailable_or a b w :
  toolOk env a = false → toolOk env b = false →
  execAsync env (OrElse (Run a) (Run b)) w
  = (Throw (SystemError "Command failed"), logged (OrElse (Run a) (Run b)) w).
Proof. intros Ha Hb. unfold execAsync. simpl. unfold runs. by rewrite Ha, Hb. Qed.

(** The last step of prepareIcon: the removal is attempted, its failure
    is swallowed, and its success leaves nothing of the directory. *)
Lemma cleanup_spec d w :
  ∃ w', ignoring (execAsync env (Run (RmRf d))) w = (Ret tt, w') ∧
        log w' = Run (RmRf d) :: log w ∧
        (toolOk env (RmRf d) = true → ∀ k, within env d k = true → fs w' !! k = None) ∧
        (toolOk env (RmRf d) = false → fs w' = fs w).
Proof.
  unfold ignoring, tryCatch, execAsync. simpl. unfold runs.
  destruct (toolOk env (RmRf d)) eqn:Hok; simpl.
  - eexists. split_and!; [done|done| |done].
    intros _ k Hk. by apply removeTree_lookup.
  - eexists. split_and!; done.
Qed.

Lemma copyFileSync_writable src dst content w :
  fs w !! src = Some (File content) → writable env dst w →
  copyFileSync env src dst w = (Ret tt, put dst (File content) w).
Proof.
  intros Hsrc (Hro & Hparent & Hdir). unfold copyFileSync, writeFileAsync.
  by rewrite Hsrc, Hro, Hparent, Hdir.
Qed.

Lemma copyFileSync_refused src dst content w :
  fs w !! src = Some (File content) → ¬ writable env dst w →
  ∃ e, copyFileSync env src dst w = (Throw e, w).
Proof.
  intros Hsrc Hno. unfold copyFileSync, writeFileAsync, fail, throw, lift. rewrite Hsrc.
  destruct (readOnly env dst) eqn:Hro; [eauto|].
  destruct (parentOk env dst w) eqn:Hparent; simpl; [|eauto].
  destruct (isDir dst w) eqn:Hdir; [eauto|].
  exfalso. by apply Hno.
Qed.

End TranscoderProperties.




(** C6 (amended).  Without any external tool, the fallback is a copy of
    the downloaded file, and the outcome is that of the copy.  On Windows
    convertToIco copies the file to the PNG path it derives from the
    [.ico] path: it returns success with the note when the copy can be
    written, and a failure result when it cannot.  On Linux the file is
    copied as it is to [icon.png] in the output directory: success when
    the copy can be written, an exception when it cannot. *)
Theorem transcoding_without_tools (env : Env)
    (input outputDir extension content : string) (w : World) :
  (∀ t, toolOk env t = false) →
  fs w !! input = Some (File content) →
  (writable env (replaceFirst ".ico" ".png" (pathJoin env outputDir "app.ico")) w →
   ∃ w', convertToIco env input (pathJoin env outputDir "app.ico") w
         = (Ret (IconResult.okNote
                   (replaceFirst ".ico" ".png" (pathJoin env outputDir "app.ico")) pngNote), w') ∧
         fs w' !! replaceFirst ".ico" ".png" (pathJoin env outputDir "app.ico")
         = Some (File content)) ∧
  (¬ writable env (replaceFirst ".ico" ".png" (pathJoin env outputDir "app.ico")) w →
   ∃ e w', convertToIco env input (pathJoin env outputDir "app.ico") w
           = (Ret (IconResult.failed e), w')) ∧
  (writable env (pathJoin env outputDir "icon.png") w →
   ∃ w', prepareLinux env outputDir input extension w
         = (Ret (IconResult.ok (pathJoin env outputDir "icon.png")), w') ∧
         fs w' !! pathJoin env outputDir "icon.png" = Some (File content)) ∧
  (¬ writable env (pathJoin env outputDir "icon.png") w →
   ∃ e w', prepareLinux env outputDir input extension w = (Throw e, w')).
Proof.
  intros Hnone Hinput.
  set (ico := pathJoin env outputDir "app.ico").
  set (png := replaceFirst ".ico" ".png" ico).
  set (pngPath := pathJoin env outputDir "icon.png").
  assert (Hwhich : ∀ (k : M IconResult.t) h,
            tryCatch (_ ← execAsync env (Run (Which "convert")); k) h w
            = h (SystemError "Command failed") (logged (Run (Which "convert")) w)).
  { intros k h. erewrite tryCatch_Throw; [done|].
    erewrite M_bind_throw; [done|]. by apply execAsync_unavailable. }
  assert (Hconv : ∀ i o (k : M IconResult.t) h,
            tryCatch (_ ← execAsync env (OrElse (Run (SipsPng i o)) (Run (Convert i o))); k) h w
            = h (SystemError "Command failed")
                (logged (OrElse (Run (SipsPng i o)) (Run (Convert i o))) w)).
  { intros i o k h. erewrite tryCatch_Throw; [done|].
    erewrite M_bind_throw; [done|]. by apply execAsync_unavailable_or. }
  split_and!.
  - intros Hw. unfold convertToIco. rewrite Hwhich. fold ico png.
    eexists. erewrite tryCatch_Ret; last first.
    { erewrite M_bind_step; [done|]. by apply copyFileSync_writable. }
    split; [done|]. simpl. apply lookup_insert_eq.
  - intros Hno. unfold convertToIco. rewrite Hwhich. fold ico png.
    destruct (copyFileSync_refused env input png content
                (logged (Run (Which "convert")) w) Hinput Hno) as [e He].
    eexists _, _. erewrite tryCatch_Throw; [done|].
    erewrite M_bind_throw; done.
  - intros Hw. unfold prepareLinux. fold pngPath.
    destruct (String.eqb extension ".png").
    + eexists. erewrite M_bind_step; [|by apply copyFileSync_writable].
      split; [done|]. simpl. apply lookup_insert_eq.
    + rewrite Hconv. eexists. erewrite M_bind_step; [|by apply copyFileSync_writable].
      split; [done|]. simpl. apply lookup_insert_eq.
  - intros Hno. unfold prepareLinux. fold pngPath.
    destruct (String.eqb extension ".png").
    + destruct (copyFileSync_refused env input pngPath content w Hinput Hno) as [e He].
      eexists _, _. erewrite M_bind_throw; done.
    + rewrite Hconv.
      destruct (copyFileSync_refused env input pngPath content
                  (logged (OrElse (Run (SipsPng input pngPath)) (Run (Convert input pngPath))) w)
                  Hinput Hno) as [e He].
      eexists _, _. erewrite M_bind_throw; done.
Qed.

(** The favicon downloaded on a Windows machine without tools, then
    transcoded. *)
Lemma transcoding_without_tools_witness :
  let env := machine "win32" faviconSite in
  let w := snd (downloadIcon env 3 "https://example.com/favicon.ico" "C:\Apps\.icon-temp"
                  (worldOf ["C:"; "C:\Apps"])) in
  let input := "C:\Apps\.icon-temp\icon.ico" in
  (writable env (replaceFirst ".ico" ".png" (pathJoin env "C:\Apps" "app.ico")) w →
   ∃ w', convertToIco env input (pathJoin env "C:\Apps" "app.ico") w
         = (Ret (IconResult.okNote
                   (replaceFirst ".ico" ".png" (pathJoin env "C:\Apps" "app.ico")) pngNote), w') ∧
         fs w' !! replaceFirst ".ico" ".png" (pathJoin env "C:\Apps" "app.ico")
         = Some (File "JPEG-bytes")) ∧
  (¬ writable env (replaceFirst ".ico" ".png" (pathJoin env "C:\Apps" "app.ico")) w →
   ∃ e w', convertToIco env input (pathJoin env "C:\Apps" "app.ico") w
           = (Ret (IconResult.failed e), w')) ∧
  (writable env (pathJoin env "C:\Apps" "icon.png") w →
   ∃ w', prepareLinux env "C:\Apps" input ".ico" w
         = (Ret (IconResult.ok (pathJoin env "C:\Apps" "icon.png")), w') ∧
         fs w' !! pathJoin env "C:\Apps" "icon.png" = Some (File "JPEG-bytes")) ∧
  (¬ writable env (pathJoin env "C:\Apps" "icon.png") w →
   ∃ e w', prepareLinux env "C:\Apps" input ".ico" w = (Throw e, w')).
Proof.
  intros env w input.
  apply (transcoding_without_tools env input "C:\Apps" ".ico" "JPEG-bytes" w).
  - intros t. reflexivity.
  - vm_compute. reflexivity.
Defined.

(** C6, as first stated, fails: on a Windows machine without tools the
    icon is downloaded, but the file [app.png] of an earlier run is read
    only, the copy is refused, and transcoding returns a failure. *)
Lemma prepareIcon_without_tools_fails :
  let env := withReadOnly (String.eqb "C:\Apps\app.png") (machine "win32" faviconSite) in
  let w := worldOf ["C:"; "C:\Apps"] in
  (∀ t, toolOk env t = false) ∧
  fst (downloadIcon env 3 "https://example.com/favicon.ico" "C:\Apps\.icon-temp" w)
    = Ret (Downloaded "C:\Apps\.icon-temp\icon.ico" ".ico" 10) ∧
  fst (prepareIcon env 3 "https://example.com/" "C:\Apps" "win32" w)
    = Ret (IconResult.failed "EACCES: permission denied").
Proof. split; [done|]. vm_compute. split; reflexivity. Qed.

(** ** Identifiers and validation *)

(** C8.  For a string that is a URL, generateAppId returns the same
    identifier at every call, whatever the clock reads: the lowercased
    string made of the prefix [com.webnest.], the hostname with its dots
    replaced by hyphens, and the first 20 identifier characters of the
    path with its slashes replaced by hyphens. *)
Theorem generateAppId_deterministic `{RT : Runtime} (now1 now2 : Z)
    (urlString : string) (url : URL.t) :
  newURL urlString = Some url →
  generateAppId now1 urlString = generateAppId now2 urlString ∧
  generateAppId now1 urlString
  = toLowerCase ("com.webnest." +:+ replaceChar "." "-" (URL.hostname url)
                 +:+ substring0 20 (removeChars (fun c => negb (isIdChar c))
                                      (replaceChar "/" "-" (URL.pathname url)))) ∧
  startsWith (generateAppId now1 urlString) "com.webnest." = true.
Proof.
  intros Hurl. unfold generateAppId. rewrite Hurl. split_and!; [done..|].
  unfold appIdOf, startsWith. simpl. apply prefix_empty.
Qed.

Lemma generateAppId_deterministic_witness :
  generateAppId 0 "https://GitHub.com/Some/Repo?tab=readme"
  = generateAppId 1700000000000 "https://GitHub.com/Some/Repo?tab=readme" ∧
  generateAppId 0 "https://GitHub.com/Some/Repo?tab=readme" = "com.webnest.github-com-some-repo" ∧
  startsWith (generateAppId 0 "https://GitHub.com/Some/Repo?tab=readme") "com.webnest." = true.
Proof.
  destruct (generateAppId_deterministic 0 1700000000000
              "https://GitHub.com/Some/Repo?tab=readme"
              {| URL.protocol := "https:"; URL.hostname := "github.com"; URL.port := "";
                 URL.pathname := "/Some/Repo"; URL.search := "?tab=readme";
                 URL.href := "https://github.com/Some/Repo?tab=readme" |})
    as (Hsame & Hid & Hprefix); [vm_compute; reflexivity|].
  split_and!; [exact Hsame| |exact Hprefix].
  rewrite Hid. vm_compute. reflexivity.
Defined.

(** For a string that is not a URL the identifier is read from the clock:
    this is the branch the property above leaves out. *)
Lemma generateAppId_fallback_reads_clock :
  newURL "not a url" = None ∧
  generateAppId 1 "not a url" = "com.webnest.app-1" ∧
  generateAppId 2 "not a url" = "com.webnest.app-2".
Proof. vm_compute. repeat split. Qed.

Section CommandLineProperties.
Context `{RT : Runtime} (env : Env).
Variable detectBrowser : string → M Detected.
Variable listAvailableBrowsers : M unit.
Variable availableBrowsers : M (list string).
Variable getAppNameFromUrl : string → M string.

Lemma validateUrl_true urlString :
  validateUrl urlString = true ↔
  ∃ url, newURL urlString = Some url ∧
         (URL.protocol url = "http:" ∨ URL.protocol url = "https:").
Proof.
  unfold validateUrl. split.
  - destruct (newURL urlString) as [url|]; [|done].
    intros [H|H]%orb_true_iff; apply eqb_string_true in H; eauto.
  - intros (url & -> & [->| ->]); done.
Qed.

Lemma validateUrl_false urlString :
  validateUrl urlString = false ↔
  newURL urlString = None ∨
  ∃ url, newURL urlString = Some url ∧
         URL.protocol url ≠ "http:" ∧ URL.protocol url ≠ "https:".
Proof.
  unfold validateUrl. split.
  - destruct (newURL urlString) as [url|]; [|by left].
    intros [H1 H2]%orb_false_iff. right. exists url.
    apply eqb_string_false in H1, H2. done.
  - intros [->|(url & -> & H1 & H2)]; [done|].
    apply eqb_string_false in H1, H2. by rewrite H1, H2.
Qed.

Lemma action_rejects fuel url options w :
  listBrowsers options = false → validateUrl url = false →
  action env detectBrowser listAvailableBrowsers availableBrowsers getAppNameFromUrl
    fuel url options w
  = (Ret (Exit 1), rejected w).
Proof. intros Hl Hv. unfold action. by rewrite Hl, Hv. Qed.

Lemma action_lists fuel url options :
  listBrowsers options = true →
  action env detectBrowser listAvailableBrowsers availableBrowsers getAppNameFromUrl
    fuel url options
  = (_ ← listAvailableBrowsers; mret Done).
Proof. intros Hl. unfold action. by rewrite Hl. Qed.

End CommandLineProperties.

(** C10.  validateUrl answers true exactly for the strings that parse as a
    URL whose protocol is [http:] or [https:], and false for every other
    string, be it unparseable or of another scheme.  The action of the
    command line tests it before it does anything for the install: for a
    string that fails the test it prints the two lines of the refusal and
    exits with status 1, with the file system untouched, no command run,
    and none of browser detection, title lookup or installation called.
    (With the option that lists the browsers the action lists them and
    returns, whatever the string: nothing is installed then either.) *)
Theorem validateUrl_gates_the_install `{RT : Runtime} (env : Env)
    (detectBrowser : string → M Detected) (listAvailableBrowsers : M unit)
    (availableBrowsers : M (list string)) (getAppNameFromUrl : string → M string)
    (fuel : nat) (url : string) (options : Options) (w : World) :
  (validateUrl url = true ↔
     ∃ u, newURL url = Some u ∧ (URL.protocol u = "http:" ∨ URL.protocol u = "https:")) ∧
  (validateUrl url = false ↔
     newURL url = None ∨
     ∃ u, newURL url = Some u ∧ URL.protocol u ≠ "http:" ∧ URL.protocol u ≠ "https:") ∧
  (validateUrl url = false → listBrowsers options = false →
     action env detectBrowser listAvailableBrowsers availableBrowsers getAppNameFromUrl
       fuel url options w
     = (Ret (Exit 1), rejected w)) ∧
  (validateUrl url = false → listBrowsers options = true →
     action env detectBrowser listAvailableBrowsers availableBrowsers getAppNameFromUrl
       fuel url options w
     = (_ ← listAvailableBrowsers; mret Done) w).
Proof.
  split_and!.
  - apply validateUrl_true.
  - apply validateUrl_false.
  - intros Hv Hl. by apply action_rejects.
  - intros _ Hl. by rewrite action_lists.
Qed.

(** A URL of another scheme and a string that is no URL, given to the
    command line of a machine where every collaborator would succeed. *)
Lemma validateUrl_gates_the_install_witness :
  let env := machine "linux" faviconSite in
  let run url :=
    action env (fun _ => mret (Found chrome)) (mret tt) (mret ["Google Chrome"])
      (fun _ => mret "Example") 3 url
      {| browser := "chrome"; name := None; listBrowsers := false |} (worldOf []) in
  validateUrl "ftp://example.com/" = false ∧
  validateUrl "not a url" = false ∧
  run "ftp://example.com/" = (Ret (Exit 1), rejected (worldOf [])) ∧
  run "not a url" = (Ret (Exit 1), rejected (worldOf [])).
Proof.
  intros env run. split_and!; [reflexivity..| |].
  - apply (validateUrl_gates_the_install env (fun _ => mret (Found chrome)) (mret tt)
             (mret ["Google Chrome"]) (fun _ => mret "Example") 3 "ftp://example.com/"
             {| browser := "chrome"; name := None; listBrowsers := false |} (worldOf []));
      reflexivity.
  - apply (validateUrl_gates_the_install env (fun _ => mret (Found chrome)) (mret tt)
             (mret ["Google Chrome"]) (fun _ => mret "Example") 3 "not a url"
             {| browser := "chrome"; name := None; listBrowsers := false |} (worldOf []));
      reflexivity.
Defined.

(** ** Removal *)

(** C9.  The claim: removing a name that was never installed gives the
    soft not-found result.  The code at this input, on Linux: GitHub is
    installed and Spotify never was; the search of uninstallWebApp accepts
    any desktop entry whose file name contains webnest and whose text
    contains WebNest, which holds of every launcher the tool writes; so
    removing Spotify deletes the launcher of GitHub and reports success. *)
Theorem uninstallWebApp_removes_another_app :
  let env := machine "linux" [] in
  let launcher := "/home/u/.local/share/applications/com.webnest.github-com-.desktop" in
  let installed := snd (installWebApp env 3 "https://github.com/" "GitHub" chrome (worldOf [])) in
  let removal := uninstallWebApp env "Spotify" "chrome" installed in
  Result.success <$> fst (installWebApp env 3 "https://github.com/" "GitHub" chrome (worldOf []))
    = Ret true ∧
  isFile launcher installed = true ∧
  fst removal = Ret (Result.removed launcher "Google Chrome") ∧
  isFile launcher (snd removal) = false.
Proof. vm_compute. repeat split. Qed.

(** ** Installation *)

Section InstallerProperties.
Context `{RT : Runtime} (env : Env).

Lemma writeFileAsync_Ret p content w w' :
  writeFileAsync env p content w = (Ret tt, w') →
  readOnly env p = false ∧ w' = put p (File content) w.
Proof.
  unfold writeFileAsync, fail, throw, lift.
  destruct (readOnly env p); [done|].
  destruct (negb (parentOk env p w)); [done|].
  destruct (isDir p w); [done|]. by intros [= <-].
Qed.

(** [pathJoin] with a name that does not open with a separator ends in
    the name. *)
Lemma pathJoin_suffix a name :
  startsWith name (sep env) = false → ∃ x, pathJoin env a name = x +:+ name.
Proof.
  intros Hname. unfold pathJoin. cbv zeta. rewrite Hname.
  destruct (String.eqb a ""); [by exists ""|].
  destruct (endsWith a (sep env)); [by exists a|].
  exists (a +:+ sep env). by rewrite app_assoc_string.
Qed.

Lemma desktopDatabase_suffix cache :
  desktopDatabase env = Some cache → endsWith cache ".desktop" = false.
Proof.
  unfold desktopDatabase, applicationsDir. destruct (HOME env) as [home|]; [|done]. simpl.
  intros [= <-].
  destruct (pathJoin_suffix (pathJoin env home "/.local/share/applications") "mimeinfo.cache")
    as [x ->].
  { unfold startsWith, sep, sepChar. by destruct (win32 env). }
  apply endsWith_app_false; [done|simpl; lia].
Qed.

(** An application id opens with the letter c. *)
Lemma generateAppId_start url ext :
  startsWith (generateAppId (now env) url +:+ ext) (sep env) = false.
Proof.
  assert (∃ x, generateAppId (now env) url = String "c" x) as [x ->].
  { unfold generateAppId, appIdOf. destruct (newURL url); [|eauto].
    cbv zeta. rewrite toLowerCase_app. eauto. }
  rewrite app_cons. unfold startsWith, sep, sepChar. rewrite prefix_cons.
  by destruct (win32 env).
Qed.

(** The launcher is not the cache of the desktop database. *)
Lemma desktopFile_not_database appDir url :
  Some (pathJoin env appDir (generateAppId (now env) url +:+ ".desktop")) ≠ desktopDatabase env.
Proof.
  intros Heq. symmetry in Heq. apply desktopDatabase_suffix in Heq.
  destruct (pathJoin_suffix appDir (generateAppId (now env) url +:+ ".desktop")) as [x Hx];
    [apply generateAppId_start|].
  rewrite Hx, <- app_assoc_string, endsWith_app in Heq. done.
Qed.

(** The refresh of the desktop database cannot fail, and it touches no
    file but the cache of the database. *)
Lemma refresh_spec w :
  ∃ w', ignoring (execAsync env (OrElse (Run UpdateDesktopDatabase) STrue)) w = (Ret tt, w') ∧
        ∀ k, Some k ≠ desktopDatabase env → fs w' !! k = fs w !! k.
Proof.
  unfold ignoring, tryCatch, execAsync. simpl.
  destruct (runs env UpdateDesktopDatabase _); simpl.
  - eexists. split; [done|]. intros k Hk.
    destruct (desktopDatabase env) as [cache|]; [|done]. simpl.
    rewrite lookup_insert_ne; [done|]. congruence.
  - eexists. split; done.
Qed.

(** On Linux, an icon pipeline that ends in a failure result or in an
    exception leaves the install as it would be without it: the launcher
    is written with the stock icon and the result is a success with the
    note on the icon. *)
Lemma createLinuxApp_icon_failure fuel url appName browser appDir iconDir
    (w w1 w2 w3 w4 : World) (o : outcome IconResult.t) :
  mkdirAsync env appDir w = (Ret tt, w1) →
  expandHomePath env "~/.local/share/icons/webnest" = Ret iconDir →
  mkdirAsync env iconDir w1 = (Ret tt, w2) →
  prepareIcon env fuel url iconDir "linux" w2 = (o, w3) →
  (∃ e, o = Throw e) ∨ (∃ r, o = Ret r ∧ IconResult.success r = false) →
  writeFileAsync env (pathJoin env appDir (generateAppId (now env) url +:+ ".desktop"))
    (desktopContent appName (Browser.path browser) url "web-browser" (sanitizeAppName appName))
    w3 = (Ret tt, w4) →
  ∃ w5,
    createLinuxApp env fuel url appName browser appDir w
    = (Ret (Result.created (pathJoin env appDir (generateAppId (now env) url +:+ ".desktop"))
              (iconFailed +:+ linuxNote)), w5) ∧
    fs w5 !! pathJoin env appDir (generateAppId (now env) url +:+ ".desktop")
    = Some (File (desktopContent appName (Browser.path browser) url "web-browser"
                    (sanitizeAppName appName))).
Proof.
  intros Hmk1 Hhome Hmk2 Hicon Hfailed Hwrite.
  unfold createLinuxApp. cbv zeta.
  assert (Hcaught :
    tryCatch
      (iconResult ← prepareIcon env fuel url iconDir "linux";
       if IconResult.success iconResult then
         p ← lift (orThrow (IconResult.path iconResult)
                     (TypeError "The path argument must be of type string"));
         _ ← renameSync env p
               (pathJoin env iconDir (generateAppId (now env) url +:+ ".png"));
         mret (pathJoin env iconDir (generateAppId (now env) url +:+ ".png"), "")
       else mret ("web-browser", iconFailed))
      (fun _ => mret ("web-browser", iconFailed)) w2
    = (Ret ("web-browser", iconFailed), w3)).
  { destruct Hfailed as [[e ->]|(r & -> & Hr)].
    - erewrite tryCatch_Throw; [done|]. by erewrite M_bind_throw.
    - erewrite tryCatch_Ret; [done|]. erewrite M_bind_step; [|exact Hicon]. by rewrite Hr. }
  pose proof (writeFileAsync_Ret _ _ _ _ Hwrite) as [Hro ->].
  match type of Hwrite with _ = (_, ?w4) => destruct (refresh_spec w4) as (w5 & Hrefresh & Hframe) end.
  exists w5. split.
  { bind_step ltac:(exact Hmk1).
    rewrite Hhome. bind_step ltac:(reflexivity).
    bind_step ltac:(exact Hmk2).
    bind_step ltac:(exact Hcaught).
    bind_step ltac:(exact Hwrite).
    bind_step ltac:(unfold chmodAsync, present; simpl; by rewrite lookup_insert_eq, Hro).
    bind_step ltac:(exact Hrefresh).
    done. }
  rewrite Hframe by apply desktopFile_not_database. simpl. apply lookup_insert_eq.
Qed.

Lemma put_all_lookup (l : list string) (q : string) (w : World) :
  q ∈ l → fs (foldr (fun q => put q Dir) w l) !! q = Some Dir.
Proof.
  induction l as [|x l IH]; [set_solver|]. intros [->|Hq]%elem_of_cons; simpl.
  - apply lookup_insert_eq.
  - destruct (decide (x = q)) as [->|Hne]; [apply lookup_insert_eq|].
    rewrite lookup_insert_ne by done. by apply IH.
Qed.

(** After [mkdir -p] the directory is there. *)
Lemma mkdirAsync_isDir dir w w1 :
  mkdirAsync env dir w = (Ret tt, w1) → isDir dir w1 = true.
Proof.
  unfold mkdirAsync, fail, throw, lift. cbv zeta.
  destruct (isDir dir w) eqn:Hdir; [by intros [= <-]|].
  destruct (readOnly env dir); [done|].
  destruct (existsb _ _); [done|]. intros [= <-].
  unfold isDir. rewrite put_all_lookup; [done|]. set_solver.
Qed.

Lemma mkdirAsync_again dir w :
  isDir dir w = true → mkdirAsync env dir w = (Ret tt, w).
Proof. intros H. unfold mkdirAsync. cbv zeta. by rewrite H. Qed.

End InstallerProperties.

(** Without any network the install succeeds on the three platforms, with
    the note on the icon. *)
Lemma installWebApp_offline :
  let installed platform tools browser w :=
    fst (installWebApp (withTools tools (machine platform [])) 3
           "https://example.com/" "Example" browser w) in
  let powershell t := match t with Powershell _ => true | _ => false end in
  installed "linux" (fun _ => false) chrome (worldOf [])
    = Ret (Result.created "/home/u/.local/share/applications/com.webnest.example-com-.desktop"
             (iconFailed +:+ linuxNote)) ∧
  installed "darwin" (fun _ => false) chrome (worldOf [])
    = Ret (Result.created "/home/u/Applications/Chrome Apps.localized/Example.app"
             (iconFailed +:+ spotlightNote)) ∧
  installed "win32" powershell chromeWin (worldOf ["C:"; "C:\Temp"])
    = Ret (Result.created
             "C:\Users\u\AppData\Roaming\Microsoft\Windows\Start Menu\Programs\Chrome Apps\Example.lnk"
             (iconFailed +:+ startMenuNote)).
Proof. vm_compute. repeat split. Qed.

(** C1.  The claim: a failure of the icon pipeline is never fatal to the
    install.  The code at this input: the host answers the request for the
    page with a redirect whose Location, [//], no URL parser resolves;
    [new URL] throws inside the response callback of fetchUrl, where
    neither a promise nor the try block around prepareIcon catches it; the
    process ends with an uncaught exception before the launcher is
    written. *)
Theorem installWebApp_fatal_icon_failure :
  let launcher := "/home/u/.local/share/applications/com.webnest.example-com-.desktop" in
  ∀ fuel,
    fst (installWebApp (machine "linux" malformedRedirect) fuel
           "https://example.com/" "Example" chrome (worldOf []))
      = Crash (TypeError "Invalid URL") ∧
    present launcher
      (snd (installWebApp (machine "linux" malformedRedirect) fuel
              "https://example.com/" "Example" chrome (worldOf [])))
      = false.
Proof.
  intros launcher fuel. destruct fuel; vm_compute; split; reflexivity.
Qed.

(** ** Removal, continued: where the not-found result is given *)

Section RegistryProperties.
Context `{RT : Runtime} (env : Env).

Lemma find_None {A} (f : A → bool) (l : list A) :
  (∀ x, x ∈ l → f x = false) → List.find f l = None.
Proof.
  induction l as [|x l IH]; simpl; [done|]. intros H.
  rewrite (H x) by set_solver. apply IH. intros y Hy. apply H. set_solver.
Qed.

Lemma readdirAsync_names dir w files w' :
  readdirAsync env dir w = (Ret files, w') →
  w' = w ∧ ∀ f, f ∈ files →
    ∃ k n, fs w !! k = Some n ∧ dirname env k = dir ∧ f = basename env k.
Proof.
  unfold readdirAsync. destruct (isDir dir w); [|done].
  intros [= <- <-]. split; [done|]. intros f Hf.
  apply list_elem_of_fmap in Hf as (k & -> & Hk).
  apply list_elem_of_filter in Hk as [Hdir Hk].
  apply list_elem_of_fmap in Hk as ([k' n] & -> & Hk).
  apply elem_of_map_to_list in Hk. eauto.
Qed.

(** No launcher directory for the browser: not found. *)
Lemma uninstallWebApp_no_directory appName browserId appDir w :
  getWebAppDirectoryById env browserId = Ret (Some appDir) →
  present appDir w = false →
  uninstallWebApp env appName browserId w
  = (Ret (Result.missing ("No " +:+ getBrowserName browserId +:+ " apps directory found")), w).
Proof.
  intros Hdir Hno. unfold uninstallWebApp. cbv zeta. rewrite Hdir.
  bind_step ltac:(reflexivity).
  bind_step ltac:(unfold tryCatch, statAsync, mbind, M_bind; rewrite Hno; reflexivity).
  done.
Qed.

(** On macOS and on Windows, a directory that holds no launcher of that
    name, in any case: not found, and nothing is touched. *)
Lemma uninstallWebApp_bundle_not_found appName browserId appDir ext w :
  (platform env = "darwin" ∧ ext = ".app") ∨ (platform env = "win32" ∧ ext = ".lnk") →
  getWebAppDirectoryById env browserId = Ret (Some appDir) →
  isDir appDir w = true →
  (∀ k n, fs w !! k = Some n → dirname env k = appDir →
          toLowerCase (basename env k) ≠ toLowerCase (sanitizeAppName appName) +:+ ext) →
  present (pathJoin env appDir (sanitizeAppName appName +:+ ext)) w = false →
  uninstallWebApp env appName browserId w
  = (Ret (Result.missing ("App " +:+ quoted appName +:+ " not found in "
                          +:+ getBrowserName browserId +:+ " apps")), w).
Proof.
  intros Hplatform Hdir Hthere Hnone Habsent.
  assert (Hpresent : present appDir w = true).
  { unfold isDir in Hthere. unfold present. by destruct (fs w !! appDir) as [[]|]. }
  assert (Hfind : findBundle env appDir (sanitizeAppName appName) ext w
                  = (Ret (Some (pathJoin env appDir (sanitizeAppName appName +:+ ext)),
                          false), w)).
  { unfold findBundle. cbv zeta. erewrite tryCatch_Throw; last first.
    { unfold statAsync, mbind, M_bind. rewrite Habsent. reflexivity. }
    destruct (readdirAsync env appDir w) as [o w'] eqn:Hread.
    assert (∃ files, o = Ret files) as [files ->].
    { unfold readdirAsync in Hread. rewrite Hthere in Hread. injection Hread as <- _. eauto. }
    destruct (readdirAsync_names _ _ _ _ Hread) as [-> Hfiles].
    bind_step ltac:(exact Hread).
    rewrite find_None; [done|].
    intros f (k & n & Hk & Hkdir & ->)%Hfiles.
    apply eqb_string_false. by eapply Hnone. }
  unfold uninstallWebApp. cbv zeta. rewrite Hdir.
  bind_step ltac:(reflexivity).
  bind_step ltac:(unfold tryCatch, statAsync, mbind, M_bind; rewrite Hpresent; reflexivity).
  destruct Hplatform as [[-> ->]|[-> ->]]; simpl; bind_step ltac:(exact Hfind); done.
Qed.

Lemma within_refl p : within env p p = true.
Proof. unfold within. by rewrite String.eqb_refl. Qed.

Lemma refusedIn_here p q w :
  present q w = true → readOnly env q = true → within env p q = true →
  refusedIn env p w = true.
Proof.
  intros Hq Hro Hin. unfold refusedIn. apply existsb_exists. exists q. split.
  - apply list_elem_of_In, list_elem_of_fmap.
    unfold present in Hq. destruct (fs w !! q) as [n|] eqn:Hlook; [|done].
    exists (q, n). split; [done|]. by apply elem_of_map_to_list.
  - by rewrite Hin, Hro.
Qed.

(** What a removal that fails leaves: every path outside the tree is as
    it was, and so are the entries refused. *)
Lemma rmAsync_Throw p w e w' :
  rmAsync env p w = (Throw e, w') →
  (∀ k, within env p k = false → fs w' !! k = fs w !! k) ∧
  (∀ k, fs w' !! k = fs w !! k ∨ fs w' !! k = None) ∧
  (∀ k, present k w = true → readOnly env k = true → fs w' !! k = fs w !! k) ∧
  log w' = log w.
Proof.
  unfold rmAsync. destruct (refusedIn env p w); [|done]. intros [= _ <-]. simpl.
  split_and!; [| | |done].
  - intros k Hk. destruct (fs w !! k) as [n|] eqn:Hlook.
    + apply map_lookup_filter_Some. split; [done|]. simpl. by rewrite Hk.
    + apply map_lookup_filter_None. by left.
  - intros k. destruct (filter _ (fs w) !! k) as [n|] eqn:Hlook; [|by right].
    left. apply map_lookup_filter_Some in Hlook as [-> _]. done.
  - intros k Hk Hro. unfold present in Hk.
    destruct (fs w !! k) as [n|] eqn:Hlook; [|done].
    apply map_lookup_filter_Some. split; [done|]. simpl.
    rewrite (refusedIn_here k k w); [by rewrite orb_true_r| |done|apply within_refl].
    unfold present. by rewrite Hlook.
Qed.

Lemma rmAsync_Ret p w w' : rmAsync env p w = (Ret tt, w') → w' = removeTree env p w.
Proof. unfold rmAsync. destruct (refusedIn env p w); [done|]. by intros [= <-]. Qed.

(** A launcher that is found and that the OS refuses to remove: a failure
    without the not-found flag, and the launcher is still there. *)
Lemma uninstallWebApp_removal_refused appName browserId appDir ext w :
  (platform env = "darwin" ∧ ext = ".app") ∨ (platform env = "win32" ∧ ext = ".lnk") →
  getWebAppDirectoryById env browserId = Ret (Some appDir) →
  present appDir w = true →
  present (pathJoin env appDir (sanitizeAppName appName +:+ ext)) w = true →
  readOnly env (pathJoin env appDir (sanitizeAppName appName +:+ ext)) = true →
  ∃ w',
    uninstallWebApp env appName browserId w
    = (Ret (Result.failed "Failed to remove app: EACCES: permission denied"), w') ∧
    fs w' !! pathJoin env appDir (sanitizeAppName appName +:+ ext)
    = fs w !! pathJoin env appDir (sanitizeAppName appName +:+ ext) ∧
    Result.notFound (Result.failed "Failed to remove app: EACCES: permission denied") = false.
Proof.
  intros Hplatform Hdir Hthere Hfound Hro.
  set (appPath := pathJoin env appDir (sanitizeAppName appName +:+ ext)) in *.
  assert (Hfind : findBundle env appDir (sanitizeAppName appName) ext w
                  = (Ret (Some appPath, true), w)).
  { unfold findBundle, tryCatch, statAsync, mbind, M_bind. cbv zeta. fold appPath.
    by rewrite Hfound. }
  destruct (rmAsync env appPath w) as [o w'] eqn:Hrm.
  assert (o = Throw (SystemError "EACCES: permission denied")) as ->.
  { unfold rmAsync in Hrm.
    rewrite (refusedIn_here appPath appPath w Hfound Hro (within_refl _)) in Hrm.
    by injection Hrm as <- _. }
  exists w'. split_and!; [| |done].
  - unfold uninstallWebApp. cbv zeta. rewrite Hdir.
    bind_step ltac:(reflexivity).
    bind_step ltac:(unfold tryCatch, statAsync, mbind, M_bind; rewrite Hthere; reflexivity).
    destruct Hplatform as [[-> ->]|[-> ->]]; simpl; bind_step ltac:(exact Hfind);
      (erewrite tryCatch_Throw; last first;
       [erewrite M_bind_throw; [done|]; exact Hrm|done]).
  - by apply (rmAsync_Throw _ _ _ _ Hrm).
Qed.

End RegistryProperties.

(** * Further properties

    Properties of the code beyond the claims of the specification. *)

(** ** Strings, continued *)

Lemma rev_app_spec (s acc : string) : String.rev_app s acc = String.rev s +:+ acc.
Proof.
  unfold String.rev. revert acc. induction s as [|c s IH]; intros acc; simpl; [done|].
  rewrite IH, (IH (String c "")), app_assoc_string. done.
Qed.

Lemma rev_cons (c : ascii) (s : string) : String.rev (String c s) = String.rev s +:+ String c "".
Proof. unfold String.rev at 1. simpl. apply rev_app_spec. Qed.

Lemma rev_app_string (a b : string) : String.rev (a +:+ b) = String.rev b +:+ String.rev a.
Proof.
  induction a as [|c a IH].
  - by rewrite app_nil_l_string, app_nil_r_string.
  - by rewrite app_cons, !rev_cons, IH, app_assoc_string.
Qed.

Lemma rev_involutive_string (s : string) : String.rev (String.rev s) = s.
Proof.
  induction s as [|c s IH]; [done|]. by rewrite rev_cons, rev_app_string, IH.
Qed.

Lemma every_app p a b : every p (a +:+ b) = every p a && every p b.
Proof. induction a as [|c a IH]; [done|]. rewrite app_cons. simpl. by rewrite IH, andb_assoc. Qed.

Lemma every_rev p s : every p (String.rev s) = every p s.
Proof.
  induction s as [|c s IH]; [done|].
  rewrite rev_cons, every_app, IH. simpl. rewrite andb_true_r. apply andb_comm.
Qed.

Lemma every_removeChars p s : every (fun c => negb (p c)) (removeChars p s) = true.
Proof.
  induction s as [|c s IH]; simpl; [done|].
  destruct (p c) eqn:Hc; simpl; [done|]. by rewrite Hc.
Qed.

Lemma collapseSpaces_cons c s :
  collapseSpaces (String c s)
  = if isSpace c then
      match s with
      | String d _ => if isSpace d then collapseSpaces s else String " " (collapseSpaces s)
      | EmptyString => String " " EmptyString
      end
    else String c (collapseSpaces s).
Proof. by destruct s. Qed.

Lemma every_collapseSpaces p s :
  p " "%char = true → every p s = true → every p (collapseSpaces s) = true.
Proof.
  intros Hblank. induction s as [|c s IH]; [done|].
  intros [Hc Hs]%andb_true_iff. specialize (IH Hs). rewrite collapseSpaces_cons.
  destruct (isSpace c).
  - destruct s as [|d s]; [simpl; by rewrite Hblank|].
    destruct (isSpace d); [done|]. change (p " "%char && every p (collapseSpaces (String d s)) = true).
    by rewrite Hblank.
  - change (p c && every p (collapseSpaces s) = true). by rewrite Hc.
Qed.

Lemma every_trimStart p s : every p s = true → every p (trimStart s) = true.
Proof.
  induction s as [|c s IH]; simpl; [done|]. intros [Hc Hs]%andb_true_iff.
  destruct (isSpace c); [auto|]. simpl. by rewrite Hc.
Qed.

Lemma every_trim p s : every p s = true → every p (trim s) = true.
Proof.
  intros H. unfold trim. rewrite every_rev. apply every_trimStart.
  rewrite every_rev. by apply every_trimStart.
Qed.

Lemma every_substring0 p n s : every p s = true → every p (substring0 n s) = true.
Proof.
  revert s. induction n as [|n IH]; intros [|c s]; simpl; try done.
  intros [Hc Hs]%andb_true_iff. rewrite Hc. by apply IH.
Qed.

Lemma length_substring0 n s : (String.length (substring0 n s) ≤ n)%nat.
Proof.
  revert s. induction n as [|n IH]; intros [|c s]; simpl; try lia.
  specialize (IH s). lia.
Qed.

Lemma substring0_short n s : (String.length s ≤ n)%nat → substring0 n s = s.
Proof.
  revert s. induction n as [|n IH]; intros [|c s]; simpl; try done; try lia.
  intros H. f_equal. apply IH. lia.
Qed.

Lemma length_substring0_long n s :
  (n ≤ String.length s)%nat → String.length (substring0 n s) = n.
Proof.
  revert s. induction n as [|n IH]; intros [|c s]; simpl; try done; try lia.
  intros H. f_equal. apply IH. lia.
Qed.

(** X1.  Whatever the name, sanitizeAppName returns at most 50 characters,
    none of which is one of the nine characters it removes: the two angle
    brackets, the colon, the double quote, the two slashes, the bar, the
    question mark and the asterisk. *)
Theorem sanitizeAppName_safe (name : string) :
  (String.length (sanitizeAppName name) ≤ 50)%nat ∧
  every (fun c => negb (isInvalidFilenameChar c)) (sanitizeAppName name) = true.
Proof.
  split; [apply length_substring0|].
  unfold sanitizeAppName. apply every_substring0, every_trim.
  apply every_collapseSpaces; [done|]. apply every_removeChars.
Qed.

Lemma singleBlanks_app a b :
  singleBlanks (a +:+ b) = true → singleBlanks a = true ∧ singleBlanks b = true.
Proof.
  induction a as [|c a IH]; [done|]. rewrite app_cons. simpl.
  intros [Hc Hab]%andb_true_iff. destruct (IH Hab) as [Ha Hb]. split; [|done].
  rewrite Ha, andb_true_r. destruct (isSpace c); [|done].
  apply andb_true_iff in Hc as [-> Hnext]. simpl.
  destruct a as [|d a]; [done|]. by rewrite app_cons in Hnext.
Qed.

Lemma collapseSpaces_head d s :
  leadingSpace (collapseSpaces (String d s)) = isSpace d ∧ collapseSpaces (String d s) ≠ "".
Proof.
  revert d. induction s as [|e s IH]; intros d; rewrite collapseSpaces_cons.
  - destruct (isSpace d) eqn:Hd; simpl; by rewrite ?Hd.
  - destruct (isSpace d) eqn:Hd; [|simpl; by rewrite Hd].
    destruct (isSpace e) eqn:He; [|done].
    destruct (IH e) as [H1 H2]. by rewrite H1.
Qed.

Lemma singleBlanks_collapseSpaces s : singleBlanks (collapseSpaces s) = true.
Proof.
  induction s as [|c s IH]; [done|]. rewrite collapseSpaces_cons.
  destruct (isSpace c) eqn:Hc.
  - destruct s as [|d s]; [done|]. destruct (isSpace d) eqn:Hd; [done|].
    destruct (collapseSpaces_head d s) as [Hhead Hne].
    change (singleBlanks (String " " (collapseSpaces (String d s))))
      with ((true && match collapseSpaces (String d s) with
                     | String e _ => negb (isSpace e)
                     | EmptyString => true
                     end) && singleBlanks (collapseSpaces (String d s))).
    rewrite IH, andb_true_r.
    destruct (collapseSpaces (String d s)) as [|e t]; [done|].
    simpl in Hhead. simpl. by rewrite Hhead, Hd.
  - change (singleBlanks (String c (collapseSpaces s)))
      with ((if isSpace c then Ascii.eqb c " " && match collapseSpaces s with
                                                  | String e _ => negb (isSpace e)
                                                  | EmptyString => true
                                                  end else true)
            && singleBlanks (collapseSpaces s)).
    by rewrite Hc, IH.
Qed.

Lemma trimStart_split s : ∃ sp, s = sp +:+ trimStart s ∧ every isSpace sp = true.
Proof.
  induction s as [|c s (sp & IH & Hsp)]; [by exists ""|]. simpl.
  destruct (isSpace c) eqn:Hc.
  - exists (String c sp). rewrite app_cons, <- IH. simpl. by rewrite Hc.
  - by exists "".
Qed.

Lemma trim_split s : ∃ sp, trimStart s = trim s +:+ sp ∧ every isSpace sp = true.
Proof.
  destruct (trimStart_split (String.rev (trimStart s))) as (sp & H & Hsp).
  exists (String.rev sp). rewrite every_rev. split; [|done].
  apply (f_equal String.rev) in H.
  by rewrite rev_involutive_string, rev_app_string in H.
Qed.

Lemma leadingSpace_trimStart s : leadingSpace (trimStart s) = false.
Proof. induction s as [|c s IH]; [done|]. simpl. by destruct (isSpace c) eqn:Hc; simpl. Qed.

Lemma leadingSpace_trim s : leadingSpace (trim s) = false.
Proof.
  destruct (trim_split s) as (sp & H & _).
  pose proof (leadingSpace_trimStart s) as Hlead. rewrite H in Hlead.
  by destruct (trim s).
Qed.

Lemma trailingSpace_trim s : trailingSpace (trim s) = false.
Proof.
  unfold trailingSpace, trim. rewrite rev_involutive_string. apply leadingSpace_trimStart.
Qed.

Lemma substring0_slice n s : s = substring0 n s +:+ slice n s.
Proof.
  revert s. induction n as [|n IH]; intros [|c s]; simpl; try done.
  rewrite app_cons. by rewrite <- IH.
Qed.

Lemma singleBlanks_suffix a b : singleBlanks (a +:+ b) = true → singleBlanks b = true.
Proof. intros H. by apply singleBlanks_app in H as [_ ?]. Qed.

Lemma singleBlanks_prefix a b : singleBlanks (a +:+ b) = true → singleBlanks a = true.
Proof. intros H. by apply singleBlanks_app in H as [? _]. Qed.

(** X2.  In the result of sanitizeAppName white space occurs only as
    single blanks, and never at the start.  It does not occur at the end
    either unless the result has the full 50 characters: the name is
    trimmed before it is cut, so a cut name can end in a blank. *)
Theorem sanitizeAppName_spacing (name : string) :
  singleBlanks (sanitizeAppName name) = true ∧
  leadingSpace (sanitizeAppName name) = false ∧
  ((String.length (sanitizeAppName name) < 50)%nat →
   trailingSpace (sanitizeAppName name) = false).
Proof.
  unfold sanitizeAppName.
  set (t := collapseSpaces (removeChars isInvalidFilenameChar name)).
  assert (Ht : singleBlanks (trim t) = true).
  { destruct (trimStart_split t) as (sp1 & H1 & _).
    destruct (trim_split t) as (sp2 & H2 & _).
    pose proof (singleBlanks_collapseSpaces (removeChars isInvalidFilenameChar name)) as H.
    fold t in H. rewrite H1 in H. apply singleBlanks_suffix in H.
    rewrite H2 in H. by apply singleBlanks_prefix in H. }
  split; [|split].
  - rewrite (substring0_slice 50 (trim t)) in Ht. by apply singleBlanks_prefix in Ht.
  - pose proof (leadingSpace_trim t) as H. by destruct (trim t).
  - intros Hlen. destruct (decide (String.length (trim t) ≤ 50)%nat) as [Hle|Hgt].
    + rewrite substring0_short by done. apply trailingSpace_trim.
    + rewrite length_substring0_long in Hlen by lia. lia.
Qed.

Lemma length_toLowerCase s : String.length (toLowerCase s) = String.length s.
Proof. induction s as [|c s IH]; simpl; congruence. Qed.

Lemma length_replaceChar c d s :
  String.length (replaceChar c (String d EmptyString) s) = String.length s.
Proof.
  induction s as [|e s IH]; [done|]. simpl.
  destruct (Ascii.eqb c e); rewrite app_cons, app_nil_l_string; simpl; congruence.
Qed.

Lemma every_impl (p q : ascii → bool) s :
  (∀ c, p c = true → q c = true) → every p s = true → every q s = true.
Proof.
  intros Hpq. induction s as [|c s IH]; [done|]. simpl.
  intros [Hc Hs]%andb_true_iff. rewrite (Hpq _ Hc). by apply IH.
Qed.

Lemma every_toLowerCase (p q : ascii → bool) s :
  (∀ c, p c = true → q (lowerChar c) = true) →
  every p s = true → every q (toLowerCase s) = true.
Proof.
  intros Hpq. induction s as [|c s IH]; [done|]. simpl.
  intros [Hc Hs]%andb_true_iff. rewrite (Hpq _ Hc). by apply IH.
Qed.

Lemma every_replaceChar c d s :
  Ascii.eqb c d = false →
  every (fun x => negb (Ascii.eqb x c)) (replaceChar c (String d EmptyString) s) = true.
Proof.
  intros Hcd. induction s as [|e s IH]; [done|]. simpl.
  destruct (Ascii.eqb c e) eqn:He; rewrite app_cons, app_nil_l_string; simpl; rewrite IH, andb_true_r.
  - rewrite Ascii.eqb_sym. by rewrite Hcd.
  - rewrite Ascii.eqb_sym. by rewrite He.
Qed.

Lemma lowerChar_dot c : negb (Ascii.eqb c ".") = true → negb (Ascii.eqb (lowerChar c) ".") = true.
Proof. destruct c as [[] [] [] [] [] [] [] []]; by vm_compute. Qed.

Lemma lowerChar_idChar c :
  isIdChar c = true → isIdChar (lowerChar c) && Ascii.eqb (lowerChar (lowerChar c)) (lowerChar c) = true.
Proof. destruct c as [[] [] [] [] [] [] [] []]; by vm_compute. Qed.

(** X3.  For a string that parses as a URL, generateAppId returns
    com.webnest. followed by a host part and a path part; the host part
    has the length of the hostname and no dot; the path part has at most
    20 characters, each a lower-case letter, a digit or a hyphen. *)
Theorem generateAppId_shape `{RT : Runtime} (now : Z) (urlString : string) (url : URL.t) :
  newURL urlString = Some url →
  ∃ host path,
    generateAppId now urlString = "com.webnest." +:+ host +:+ path ∧
    String.length host = String.length (URL.hostname url) ∧
    every (fun c => negb (Ascii.eqb c ".")) host = true ∧
    (String.length path ≤ 20)%nat ∧
    every (fun c => isIdChar c && Ascii.eqb (lowerChar c) c) path = true.
Proof.
  intros Hurl. unfold generateAppId, appIdOf. rewrite Hurl. cbv zeta.
  eexists (toLowerCase (replaceChar "." "-" (URL.hostname url))), _.
  split; [|split; [|split; [|split]]].
  - by rewrite !toLowerCase_app.
  - by rewrite length_toLowerCase, length_replaceChar.
  - eapply every_toLowerCase; [|by apply every_replaceChar]. apply lowerChar_dot.
  - rewrite length_toLowerCase. apply length_substring0.
  - eapply every_toLowerCase; [|apply every_substring0, every_removeChars].
    intros c Hc. apply lowerChar_idChar. by apply negb_true_iff, negb_false_iff in Hc.
Qed.

Lemma generateAppId_shape_witness :
  ∃ host path,
    generateAppId (RT := Reference.runtime) 0 "https://GitHub.com/Some/Repo?tab=readme"
      = "com.webnest." +:+ host +:+ path ∧
    String.length host = String.length "github.com" ∧
    every (fun c => negb (Ascii.eqb c ".")) host = true ∧
    (String.length path ≤ 20)%nat ∧
    every (fun c => isIdChar c && Ascii.eqb (lowerChar c) c) path = true.
Proof.
  apply (generateAppId_shape (RT := Reference.runtime) 0 "https://GitHub.com/Some/Repo?tab=readme"
           {| URL.protocol := "https:"; URL.hostname := "github.com"; URL.port := "";
              URL.pathname := "/Some/Repo"; URL.search := "?tab=readme";
              URL.href := "https://github.com/Some/Repo?tab=readme" |}).
  vm_compute. reflexivity.
Defined.

(** ** The network fetcher and icon discovery, continued *)



Section DiscoveryFallbacks.
Context `{RT : Runtime} (env : Env).

(** A pattern that opens with literal text only matches where that text
    stands, in any case. *)
Lemma run_lit_prefix {A} (p : string) (r : regex) (s : string) (cap : option string)
    (k : string → option string → option A) (x : A) :
  run (lit p r) s cap k = Some x → String.prefix (toLowerCase p) (toLowerCase s) = true.
Proof.
  revert s. induction p as [|c p IH]; intros s; simpl.
  - intros _. apply prefix_empty.
  - destruct s as [|d s]; [done|]. simpl.
    destruct (Ascii.eqb (lowerChar c) (lowerChar d)) eqn:Hcd; [|done].
    apply Ascii.eqb_eq in Hcd. rewrite Hcd. intros H%IH.
    destruct (ascii_dec (lowerChar d) (lowerChar d)); done.
Qed.

Lemma matchAt_lit_None (p : string) (r : regex) (s : string) :
  String.prefix (toLowerCase p) (toLowerCase s) = false → matchAt (lit p r) s = None.
Proof.
  intros H. unfold matchAt.
  destruct (run _ _ _ _) eqn:Hrun; [|done]. apply run_lit_prefix in Hrun. congruence.
Qed.

Lemma includes_cons c s p :
  includes (String c s) p = if String.prefix p (String c s) then true else includes s p.
Proof. reflexivity. Qed.

Lemma includes_cons_false c s p :
  includes (String c s) p = false → String.prefix p (String c s) = false ∧ includes s p = false.
Proof. rewrite includes_cons. by destruct (String.prefix p (String c s)). Qed.

Lemma includes_false_prefix s p : includes s p = false → String.prefix p s = false.
Proof.
  destruct s as [|c s]; [|by intros [? _]%includes_cons_false].
  unfold includes. by destruct (String.prefix p "").
Qed.

Lemma matchAll_lit_nil (p : string) (r : regex) (s : string) :
  includes (toLowerCase s) (toLowerCase p) = false → matchAll (lit p r) s 0 = [].
Proof.
  induction s as [|c s IH]; intros H.
  - simpl. rewrite matchAt_lit_None; [done|]. by apply includes_false_prefix.
  - change (toLowerCase (String c s)) with (String (lowerChar c) (toLowerCase s)) in H.
    pose proof (includes_false_prefix _ _ H) as Hp.
    apply includes_cons_false in H as [_ H].
    simpl. rewrite matchAt_lit_None by done. by apply IH.
Qed.

Lemma search_lit_None (p : string) (r : regex) (s : string) :
  includes (toLowerCase s) (toLowerCase p) = false → search (lit p r) s = None.
Proof.
  induction s as [|c s IH]; intros H.
  - simpl. rewrite matchAt_lit_None; [done|]. by apply includes_false_prefix.
  - change (toLowerCase (String c s)) with (String (lowerChar c) (toLowerCase s)) in H.
    pose proof (includes_false_prefix _ _ H) as Hp.
    apply includes_cons_false in H as [_ H].
    simpl. rewrite matchAt_lit_None by done. by apply IH.
Qed.

Lemma parseIconLinks_no_link html baseUrl :
  includes (toLowerCase html) "<link" = false →
  parseIconLinks html baseUrl = Ret ([], None).
Proof.
  intros H. unfold parseIconLinks, linkRegex, manifestRegex, capture.
  rewrite (matchAll_lit_nil "<link"), (search_lit_None "<link") by done. done.
Qed.

Lemma absolute_settled href base : settled (absolute href base).
Proof.
  unfold absolute, settled. destruct (startsWith href "http"); [eauto|].
  destruct (newURLBase href base); simpl; eauto.
Qed.

Lemma linkIcon_settled baseUrl link : settled (linkIcon baseUrl link).
Proof.
  unfold linkIcon. destruct (capture (attrRegex "rel") link); [|left; eauto].
  destruct (negb _); [left; eauto|].
  destruct (capture (attrRegex "href") link) as [h|]; [|left; eauto].
  destruct (absolute_settled h baseUrl) as [[a ->]|[e ->]]; [left|right]; simpl; eauto.
Qed.

Lemma iconLinks_settled baseUrl links : settled (iconLinks baseUrl links).
Proof.
  induction links as [|l links IH]; simpl; [left; eauto|].
  destruct (linkIcon_settled baseUrl l) as [[a ->]|[e ->]]; [|right; simpl; eauto].
  destruct IH as [[icons ->]|[e ->]]; [left|right]; simpl; eauto.
Qed.

Lemma iconLinks_Throw baseUrl links link e :
  link ∈ links → linkIcon baseUrl link = Throw e → ∃ e', iconLinks baseUrl links = Throw e'.
Proof.
  intros Hin Hthrow. induction links as [|l links IH]; [set_solver|]. simpl.
  apply elem_of_cons in Hin as [<-|Hin].
  - rewrite Hthrow. simpl. eauto.
  - destruct (linkIcon_settled baseUrl l) as [[a ->]|[e1 ->]]; [|simpl; eauto].
    destruct (IH Hin) as [e' ->]. simpl. eauto.
Qed.

Lemma parseIconLinks_settled html baseUrl : settled (parseIconLinks html baseUrl).
Proof.
  unfold parseIconLinks.
  destruct (iconLinks_settled baseUrl (matchAll linkRegex html 0)) as [[a ->]|[e ->]];
    [|right; simpl; eauto]. simpl.
  destruct (capture manifestRegex html) as [m|]; [|left; eauto].
  destruct (absolute_settled m baseUrl) as [[x ->]|[e ->]]; [left|right]; simpl; eauto.
Qed.

Lemma getProp_settled v k : settled (getProp v k).
Proof. destruct v; simpl; unfold settled; eauto. Qed.

Lemma manifestIcon_settled baseHref icon : settled (manifestIcon baseHref icon).
Proof.
  unfold manifestIcon.
  destruct (getProp_settled icon "src") as [[src ->]|[e ->]]; [|right; simpl; eauto]. simpl.
  assert (Hhref : settled (match src with
                           | Some (JStr h) => absolute h baseHref
                           | _ => Throw (TypeError "href.startsWith is not a function")
                           end)).
  { destruct src as [[]|]; try apply absolute_settled; right; eauto. }
  destruct Hhref as [[href ->]|[e ->]]; [|right; simpl; eauto]. simpl.
  destruct (getProp_settled icon "sizes") as [[sizes ->]|[e ->]]; [|right; simpl; eauto]. simpl.
  assert (Hsize : settled (match sizes with
                           | Some v =>
                               if truthy v then
                                 match v with
                                 | JStr s => Ret (sizeOf s)
                                 | _ => Throw (TypeError "icon.sizes.split is not a function")
                                 end
                               else Ret (Num 0)
                           | None => Ret (Num 0)
                           end)).
  { destruct sizes as [v|]; [|left; eauto]. destruct (truthy v); [|left; eauto].
    destruct v; try (by right; eauto). left; eauto. }
  destruct Hsize as [[size ->]|[e ->]]; [|right; simpl; eauto]. simpl.
  destruct (getProp_settled icon "type") as [[type ->]|[e ->]]; [|right; simpl; eauto]. simpl.
  destruct (getProp_settled icon "purpose") as [[purpose ->]|[e ->]]; [|right; simpl; eauto].
  left. simpl. eauto.
Qed.

Lemma forEach_settled {A B} (f : A → outcome B) l :
  (∀ x, settled (f x)) → settled (forEach f l).
Proof.
  intros Hf. induction l as [|x l IH]; simpl; [left; eauto|].
  destruct (Hf x) as [[y ->]|[e ->]]; [|right; simpl; eauto].
  destruct IH as [[ys ->]|[e ->]]; [left|right]; simpl; eauto.
Qed.

Lemma forEach_Throw {A B} (f : A → outcome B) l x e :
  (∀ x, settled (f x)) → x ∈ l → f x = Throw e → ∃ e', forEach f l = Throw e'.
Proof.
  intros Hf Hin Hthrow. induction l as [|y l IH]; [set_solver|]. simpl.
  apply elem_of_cons in Hin as [<-|Hin].
  - rewrite Hthrow. simpl. eauto.
  - destruct (Hf y) as [[b ->]|[e1 ->]]; [|simpl; eauto].
    destruct (IH Hin) as [e' ->]. simpl. eauto.
Qed.

Lemma catch_settled {A} (m : outcome A) (a : A) :
  settled m → ∃ b, catch m (fun _ => Ret a) = Ret b.
Proof. intros [[b ->]|[e ->]]; simpl; eauto. Qed.

Lemma parseManifest_Ret fuel manifestUrl :
  settled (fetchUrl env fuel manifestUrl "application/json") →
  ∃ icons, parseManifest env fuel manifestUrl = Ret icons.
Proof.
  intros Hfetch. unfold parseManifest. apply catch_settled.
  destruct Hfetch as [[r ->]|[e ->]]; [|right; simpl; eauto]. simpl.
  destruct (JSONparse (data r)) as [manifest|]; [|right; simpl; eauto]. simpl.
  destruct (getProp_settled manifest "icons") as [[icons ->]|[e ->]]; [|right; simpl; eauto].
  simpl. destruct icons as [[]|]; try (by left; eauto).
  destruct (newURL manifestUrl) as [u|]; [|right; simpl; eauto]. simpl.
  apply forEach_settled, manifestIcon_settled.
Qed.

(** X6.  parseManifest never rejects.  It resolves whenever the fetch of
    the manifest settles, and with the empty list when that fetch is
    rejected, when the text is not JSON, and when the callback fails on
    any one entry of the icons array: the entries that were well formed
    are lost with it. *)
Theorem parseManifest_never_rejects (fuel : nat) (manifestUrl : string) :
  (∀ e, parseManifest env fuel manifestUrl ≠ Throw e) ∧
  (settled (fetchUrl env fuel manifestUrl "application/json") →
   ∃ icons, parseManifest env fuel manifestUrl = Ret icons) ∧
  (∀ e, fetchUrl env fuel manifestUrl "application/json" = Throw e →
        parseManifest env fuel manifestUrl = Ret []) ∧
  (∀ r, fetchUrl env fuel manifestUrl "application/json" = Ret r →
        JSONparse (data r) = None →
        parseManifest env fuel manifestUrl = Ret []) ∧
  (∀ r manifest items u item e,
     fetchUrl env fuel manifestUrl "application/json" = Ret r →
     JSONparse (data r) = Some manifest →
     getProp manifest "icons" = Ret (Some (JArr items)) →
     newURL manifestUrl = Some u →
     item ∈ items → manifestIcon (URL.href u) item = Throw e →
     parseManifest env fuel manifestUrl = Ret []).
Proof.
  unfold parseManifest. split_and!.
  - intros e. by destruct (_ ≫= _).
  - fold (parseManifest env fuel manifestUrl). apply parseManifest_Ret.
  - by intros e ->.
  - intros r -> Hjson. simpl. by rewrite Hjson.
  - intros r manifest items u item e -> Hjson Hicons Hu Hin Hbad. simpl.
    rewrite Hjson. simpl. rewrite Hicons. simpl. rewrite Hu. simpl.
    destruct (forEach_Throw _ _ _ _ (manifestIcon_settled (URL.href u)) Hin Hbad) as [e' ->].
    done.
Qed.

(** X5.  When the reference of one icon link of the page does not resolve
    against the page URL, parseIconLinks throws: no candidate of the page
    is returned, the well-formed ones before and after it included. *)
Theorem parseIconLinks_malformed_href (html baseUrl link : string) (e : error) :
  link ∈ matchAll linkRegex html 0 →
  linkIcon baseUrl link = Throw e →
  ∃ e', parseIconLinks html baseUrl = Throw e'.
Proof.
  intros Hin Hbad. unfold parseIconLinks.
  destruct (iconLinks_Throw _ _ _ _ Hin Hbad) as [e' ->]. simpl. eauto.
Qed.

(** Discovery returns when the fetch of the page settles and, if the page
    names a manifest, the fetch of that manifest settles too. *)
Lemma getBestIconUrl_Ret_named fuel url u :
  newURL url = Some u →
  settled (fetchUrl env fuel url "text/html") →
  (∀ r icons m, fetchUrl env fuel url "text/html" = Ret r →
                parseIconLinks (data r) url = Ret (icons, Some m) → m ≠ "" →
                settled (fetchUrl env fuel m "application/json")) →
  ∃ icon, getBestIconUrl env fuel url = Ret icon.
Proof.
  intros Hu Hpage Hmanifest. unfold getBestIconUrl, favicon. rewrite Hu. simpl.
  destruct Hpage as [[r Hr]|[e ->]]; [|simpl; eauto]. rewrite Hr. simpl.
  destruct (parseIconLinks_settled (data r) url) as [[[icons m] Hm]|[e ->]]; [|simpl; eauto].
  rewrite Hm. simpl.
  assert (∃ more, manifestIconsFor env fuel m = Ret more) as [more ->].
  { unfold manifestIconsFor. destruct m as [m|]; [|eauto].
    destruct (String.eqb m "") eqn:Hempty; [eauto|]. apply parseManifest_Ret.
    apply (Hmanifest r icons m Hr Hm). by apply eqb_string_false. }
  simpl. destruct (sortIcons _); eauto.
Qed.

Lemma getBestIconUrl_Ret fuel url u :
  newURL url = Some u →
  settled (fetchUrl env fuel url "text/html") →
  (∀ m, settled (fetchUrl env fuel m "application/json")) →
  ∃ icon, getBestIconUrl env fuel url = Ret icon.
Proof. intros Hu Hpage Hmanifest. eapply getBestIconUrl_Ret_named; eauto. Qed.

(** X7.  For a page URL that parses, getBestIconUrl never rejects, and it
    resolves whenever the fetches it makes settle: the fetch of the page
    and, when the page names a manifest, the fetch of that manifest.  It
    resolves to the favicon.ico of the host when the fetch of the page is
    rejected, when parseIconLinks throws, and when the page holds no link
    tag at all. *)
Theorem getBestIconUrl_falls_back (fuel : nat) (url : string) (u : URL.t) :
  newURL url = Some u →
  (settled (fetchUrl env fuel url "text/html") →
   (∀ r icons m, fetchUrl env fuel url "text/html" = Ret r →
                 parseIconLinks (data r) url = Ret (icons, Some m) → m ≠ "" →
                 settled (fetchUrl env fuel m "application/json")) →
   ∃ icon, getBestIconUrl env fuel url = Ret icon) ∧
  (∀ e, getBestIconUrl env fuel url ≠ Throw e) ∧
  (∀ e, fetchUrl env fuel url "text/html" = Throw e →
        getBestIconUrl env fuel url = Ret (faviconOf u)) ∧
  (∀ r e, fetchUrl env fuel url "text/html" = Ret r →
          parseIconLinks (data r) url = Throw e →
          getBestIconUrl env fuel url = Ret (faviconOf u)) ∧
  (∀ r, fetchUrl env fuel url "text/html" = Ret r →
        includes (toLowerCase (data r)) "<link" = false →
        getBestIconUrl env fuel url = Ret (faviconOf u)).
Proof.
  intros Hu. split; [intros Hpage Hmanifest; by eapply getBestIconUrl_Ret_named|].
  unfold getBestIconUrl, favicon. rewrite Hu. simpl. split_and!.
  - intros e. by destruct (_ ≫= _).
  - by intros e ->.
  - intros r e -> Hbad. simpl. by rewrite Hbad.
  - intros r -> Hno. simpl. by rewrite parseIconLinks_no_link.
Qed.

End DiscoveryFallbacks.

Lemma parseIconLinks_malformed_href_witness :
  ∃ e, parseIconLinks brokenIconPage "https://example.com/" = Throw e.
Proof.
  apply (parseIconLinks_malformed_href brokenIconPage "https://example.com/"
           "<link rel='icon' href='//'>" (TypeError "Invalid URL")).
  - vm_compute. apply list_elem_of_further, list_elem_of_here.
  - vm_compute. reflexivity.
Defined.

(** The four cases on four hosts: a page with icons and a manifest that
    is served; a host without a front page, so that the fetch is rejected;
    a page one of whose icon links does not resolve; a page without any
    link tag. *)
Lemma getBestIconUrl_falls_back_witness :
  (∃ icon, getBestIconUrl (machine "linux" iconSite) 3 "https://example.com/" = Ret icon) ∧
  getBestIconUrl (machine "linux" faviconSite) 3 "https://example.com/"
    = Ret "https://example.com/favicon.ico" ∧
  getBestIconUrl (machine "linux" brokenIconSite) 3 "https://example.com/"
    = Ret "https://example.com/favicon.ico" ∧
  getBestIconUrl (machine "linux" redirecting) 3 "https://example.com/final.html"
    = Ret "https://example.com/favicon.ico".
Proof.
  set (u := {| URL.protocol := "https:"; URL.hostname := "example.com"; URL.port := "";
               URL.pathname := "/"; URL.search := "";
               URL.href := "https://example.com/" |}).
  set (u' := {| URL.protocol := "https:"; URL.hostname := "example.com"; URL.port := "";
                URL.pathname := "/final.html"; URL.search := "";
                URL.href := "https://example.com/final.html" |}).
  split_and!.
  - destruct (getBestIconUrl_falls_back (machine "linux" iconSite) 3 "https://example.com/" u)
      as (Hreturns & _); [vm_compute; reflexivity|].
    apply Hreturns.
    + left. eexists. vm_compute. reflexivity.
    + intros r icons m Hr Hm _. vm_compute in Hr. injection Hr as <-.
      vm_compute in Hm. injection Hm as _ <-.
      left. eexists. vm_compute. reflexivity.
  - destruct (getBestIconUrl_falls_back (machine "linux" faviconSite) 3 "https://example.com/" u)
      as (_ & _ & Hrejected & _); [vm_compute; reflexivity|].
    apply (Hrejected (SystemError "getaddrinfo ENOTFOUND")). vm_compute. reflexivity.
  - destruct (getBestIconUrl_falls_back (machine "linux" brokenIconSite) 3
                "https://example.com/" u)
      as (_ & _ & _ & Hbroken & _); [vm_compute; reflexivity|].
    apply (Hbroken {| data := brokenIconPage; contentType := "text/html" |}
                   (TypeError "Invalid URL")); vm_compute; reflexivity.
  - destruct (getBestIconUrl_falls_back (machine "linux" redirecting) 3
                "https://example.com/final.html" u')
      as (_ & _ & _ & _ & Hplain); [vm_compute; reflexivity|].
    apply (Hplain {| data := "final"; contentType := "text/html" |}); vm_compute; reflexivity.
Defined.

(** ** Settling: what a computation of the program can end in *)

Lemma tryCatch_inv {A} (m : M A) (h : error → M A) (w w' : World) (a : A) :
  tryCatch m h w = (Ret a, w') →
  m w = (Ret a, w') ∨ ∃ e w1, m w = (Throw e, w1) ∧ h e w1 = (Ret a, w').
Proof. unfold tryCatch. destruct (m w) as [[] w1]; eauto. Qed.

Lemma mret_inv {A} (a b : A) (w w' : World) :
  (mret a : M A) w = (Ret b, w') → a = b ∧ w = w'.
Proof. by intros [= -> ->]. Qed.

Lemma lift_inv {A} (o : outcome A) (a : A) (w w' : World) :
  lift o w = (Ret a, w') → o = Ret a ∧ w = w'.
Proof. by intros [= -> ->]. Qed.

Lemma settles_ret {A} (a : A) : settles (mret a : M A).
Proof. intros w. left. by exists a. Qed.

Lemma settles_lift {A} (o : outcome A) : settled o → settles (lift o).
Proof. by intros H w. Qed.

Lemma settles_bind {A B} (m : M A) (f : A → M B) :
  settles m → (∀ a, settles (f a)) → settles (m ≫= f).
Proof.
  intros Hm Hf w. specialize (Hm w). unfold mbind, M_bind.
  destruct (m w) as [o w1]. simpl in Hm. destruct Hm as [[a ->]|[e ->]]; simpl in *.
  - apply Hf.
  - right. eauto.
Qed.

Lemma settles_tryCatch {A} (m : M A) (h : error → M A) :
  settles m → (∀ e, settles (h e)) → settles (tryCatch m h).
Proof.
  intros Hm Hh w. specialize (Hm w). unfold tryCatch.
  destruct (m w) as [o w1]. simpl in Hm. destruct Hm as [[a ->]|[e ->]]; simpl in *.
  - left. eauto.
  - apply Hh.
Qed.

Lemma returns_tryCatch {A} (m : M A) (h : error → M A) :
  settles m → (∀ e, returns (h e)) → returns (tryCatch m h).
Proof.
  intros Hm Hh w. specialize (Hm w). unfold tryCatch.
  destruct (m w) as [o w1]. simpl in Hm. destruct Hm as [[a ->]|[e ->]]; simpl in *.
  - eauto.
  - apply Hh.
Qed.

Lemma returns_settles {A} (m : M A) : returns m → settles m.
Proof. intros H w. destruct (H w) as (a & w' & ->). left. eauto. Qed.

Lemma returns_ret {A} (a : A) : returns (mret a : M A).
Proof. intros w. by exists a, w. Qed.

Lemma returns_bind {A B} (m : M A) (f : A → M B) :
  returns m → (∀ a, returns (f a)) → returns (m ≫= f).
Proof.
  intros Hm Hf w. destruct (Hm w) as (a & w1 & H). unfold mbind, M_bind. rewrite H. apply Hf.
Qed.

Section Settling.
Context `{RT : Runtime} (env : Env).

Lemma settles_fail {A} msg : settles (fail msg : M A).
Proof. intros w. right. eauto. Qed.

Lemma settles_writeFileAsync p c : settles (writeFileAsync env p c).
Proof.
  intros w. unfold writeFileAsync, fail, throw, lift.
  destruct (readOnly env p); [right; eauto|].
  destruct (negb _); [right; eauto|]. destruct (isDir p w); [right; eauto|left; eauto].
Qed.

Lemma settles_mkdirAsync d : settles (mkdirAsync env d).
Proof.
  intros w. unfold mkdirAsync, fail, throw, lift. cbv zeta.
  destruct (isDir d w); [left; eauto|]. destruct (readOnly env d); [right; eauto|].
  destruct (existsb _ _); [right; eauto|left; eauto].
Qed.

Lemma settles_execAsync c : settles (execAsync env c).
Proof. intros w. unfold execAsync. destruct (sh _ _ _) as [[] w1]; [left|right]; eauto. Qed.

Lemma settles_copyFileSync a b : settles (copyFileSync env a b).
Proof.
  intros w. unfold copyFileSync. destruct (fs w !! a) as [[]|]; try (by right; eauto).
  apply settles_writeFileAsync.
Qed.

Lemma returns_ignoring (m : M unit) : settles m → returns (ignoring m).
Proof. intros H. apply returns_tryCatch; [done|]. intros _. apply returns_ret. Qed.

Lemma settles_forSizes (f : Z → M unit) sizes :
  (∀ s, settles (f s)) → settles (forSizes f sizes).
Proof.
  intros Hf. induction sizes as [|s sizes IH]; simpl; [apply settles_ret|].
  apply settles_bind; [done|]. by intros _.
Qed.

Lemma settles_iconsetEntry i d s : settles (iconsetEntry env i d s).
Proof.
  unfold iconsetEntry. cbv zeta. apply settles_bind; [apply settles_execAsync|].
  intros _. destruct (_ <=? _); [apply settles_execAsync|apply settles_ret].
Qed.

(** What a command that succeeded has done. *)
Lemma execAsync_Run_Ret t w w' :
  execAsync env (Run t) w = (Ret tt, w') →
  toolOk env t = true ∧ w' = effect env t (logged (Run t) w).
Proof.
  unfold execAsync, sh, runs, logged.
  destruct (toolOk env t); simpl; [|by intros [=]]. split; [done|].
  destruct (match t with ConvertIco _ _ => _ | _ => _ end); by simplify_eq.
Qed.

Lemma convertToIcns_returns (inputPath outputPath : string) (w : World) :
  ∃ r w',
    convertToIcns env inputPath outputPath w = (Ret r, w') ∧
    head (log w') = Some (Run (RmRf (pathJoin env (dirname env outputPath) "icon.iconset"))) ∧
    (toolOk env (RmRf (pathJoin env (dirname env outputPath) "icon.iconset")) = true →
     ∀ k, within env (pathJoin env (dirname env outputPath) "icon.iconset") k = true →
          fs w' !! k = None).
Proof.
  unfold convertToIcns. cbv zeta.
  set (tempDir := pathJoin env (dirname env outputPath) "icon.iconset").
  set (body := _ ← mkdirAsync env tempDir; _).
  assert (Hbody : settles body).
  { apply settles_bind; [apply settles_mkdirAsync|]. intros _.
    apply settles_bind; [apply settles_forSizes, settles_iconsetEntry|]. intros _.
    apply settles_bind; [apply settles_execAsync|]. intros _.
    apply settles_bind; [apply settles_execAsync|]. intros _. apply settles_ret. }
  unfold tryCatch. specialize (Hbody w). destruct (body w) as [o w1] eqn:Hrun. simpl in Hbody.
  destruct Hbody as [[r ->]|[e ->]]; simpl in *.
  - exists r, w1. split; [done|]. subst body.
    apply M_bind_Ret in Hrun as (? & ? & _ & Hrun).
    apply M_bind_Ret in Hrun as (? & ? & _ & Hrun).
    apply M_bind_Ret in Hrun as (? & ? & _ & Hrun).
    apply M_bind_Ret in Hrun as ([] & ? & Hrm & Hrun).
    apply mret_inv in Hrun as [_ <-].
    apply execAsync_Run_Ret in Hrm as [_ ->]. split; [done|].
    intros _ k Hk. simpl. by apply removeTree_lookup.
  - destruct (cleanup_spec env tempDir w1) as (w2 & Hclean & Hlog & Hgone & _).
    eexists _, w2. split.
    { unfold mbind, M_bind. rewrite Hclean. reflexivity. }
    split; [by rewrite Hlog|]. done.
Qed.

(** X9.  convertToIcns never rejects: it always returns a result object.
    The last command it runs removes the icon.iconset directory beside the
    output file, on success and on failure alike; when that command
    succeeds, and the path of the directory holds no character that the
    shell expands between double quotes, nothing of the directory is
    left. *)
Theorem convertToIcns_always_cleans_up (inputPath outputPath : string) (w : World) :
  ∃ r w',
    convertToIcns env inputPath outputPath w = (Ret r, w') ∧
    head (log w') = Some (Run (RmRf (pathJoin env (dirname env outputPath) "icon.iconset"))) ∧
    (toolOk env (RmRf (pathJoin env (dirname env outputPath) "icon.iconset")) = true →
     shellPlain env (pathJoin env (dirname env outputPath) "icon.iconset") = true →
     ∀ k, within env (pathJoin env (dirname env outputPath) "icon.iconset") k = true →
          fs w' !! k = None).
Proof.
  destruct (convertToIcns_returns inputPath outputPath w) as (r & w' & Hrun & Hlog & Hgone).
  exists r, w'. split_and!; [done..|]. intros Hok _. by apply Hgone.
Qed.

End Settling.

Section Transcoding.
Context `{RT : Runtime} (env : Env).

Lemma execAsync_Run_ok t w :
  runs env t w = true → execAsync env (Run t) w = (Ret tt, effect env t (logged (Run t) w)).
Proof.
  intros H. unfold execAsync, sh.
  replace (runs env t {| fs := fs w; log := Run t :: log w; console := console w |})
    with (runs env t w); [by rewrite H|].
  unfold runs, isFile, isDir. by destruct t.
Qed.

Lemma convertToIco_returns (inputPath outputPath : string) :
  returns (convertToIco env inputPath outputPath).
Proof.
  unfold convertToIco. apply returns_tryCatch.
  - apply settles_bind; [apply settles_execAsync|]. intros _.
    apply settles_bind; [apply settles_execAsync|]. intros _. apply settles_ret.
  - intros _. apply returns_tryCatch.
    + cbv zeta. apply settles_bind; [apply settles_copyFileSync|]. intros _. apply settles_ret.
    + intros e. apply returns_ret.
Qed.


End Transcoding.

Section Downloading.
Context `{RT : Runtime} (env : Env).

Lemma downloadIcon_body_settles fuel iconUrl tempDir :
  settled (fetchUrl env fuel iconUrl "") →
  settles (r ← lift (fetchUrl env fuel iconUrl "");
           let ext := extensionOf (contentType r) iconUrl in
           _ ← mkdirAsync env tempDir;
           let iconPath := pathJoin env tempDir ("icon" +:+ ext) in
           _ ← writeFileAsync env iconPath (data r);
           mret (Downloaded iconPath ext (String.length (data r)))).
Proof.
  intros Hfetch. apply settles_bind; [by apply settles_lift|]. intros r. cbv zeta.
  apply settles_bind; [apply settles_mkdirAsync|]. intros _.
  apply settles_bind; [apply settles_writeFileAsync|]. intros _. apply settles_ret.
Qed.

Lemma returns_downloadIcon fuel iconUrl tempDir :
  settled (fetchUrl env fuel iconUrl "") → returns (downloadIcon env fuel iconUrl tempDir).
Proof.
  intros Hfetch. unfold downloadIcon.
  apply returns_tryCatch; [by apply downloadIcon_body_settles|]. intros e. apply returns_ret.
Qed.

(** X8.  downloadIcon never rejects, and it returns a result whenever the
    fetch settles.  A rejected fetch gives the failure result with the
    message of the error and leaves the file system as it was.  A success
    result names the file icon plus extension inside the temporary
    directory, and that file holds the bytes fetched. *)
Theorem downloadIcon_never_rejects (fuel : nat) (iconUrl tempDir : string) (w : World) :
  (∀ e, fst (downloadIcon env fuel iconUrl tempDir w) ≠ Throw e) ∧
  (settled (fetchUrl env fuel iconUrl "") →
   ∃ d w', downloadIcon env fuel iconUrl tempDir w = (Ret d, w')) ∧
  (∀ e, fetchUrl env fuel iconUrl "" = Throw e →
        downloadIcon env fuel iconUrl tempDir w = (Ret (DownloadFailed (message e)), w)) ∧
  (∀ path extension size w',
     downloadIcon env fuel iconUrl tempDir w = (Ret (Downloaded path extension size), w') →
     ∃ r, fetchUrl env fuel iconUrl "" = Ret r ∧
          extension = extensionOf (contentType r) iconUrl ∧
          path = pathJoin env tempDir ("icon" +:+ extension) ∧
          size = String.length (data r) ∧
          fs w' !! path = Some (File (data r))).
Proof.
  split_and!.
  - intros e. unfold downloadIcon, tryCatch.
    destruct (_ ≫= _) as [[] w1]; simpl; try done.
  - intros Hfetch. by apply returns_downloadIcon.
  - intros e He. unfold downloadIcon. erewrite tryCatch_Throw; [reflexivity|].
    apply M_bind_throw. by rewrite He.
  - intros path extension size w' Hrun. unfold downloadIcon in Hrun.
    apply tryCatch_inv in Hrun as [Hrun|(e & w1 & _ & Hrun)]; [|by apply mret_inv in Hrun as [[=] _]].
    apply M_bind_Ret in Hrun as (r & w1 & [Hfetch <-]%lift_inv & Hrun). cbv zeta in Hrun.
    apply M_bind_Ret in Hrun as ([] & w2 & _ & Hrun).
    apply M_bind_Ret in Hrun as ([] & w3 & Hwrite & Hrun).
    apply mret_inv in Hrun as [[= <- <- <-] <-].
    apply writeFileAsync_Ret in Hwrite as [_ ->].
    exists r. split_and!; try done. simpl. apply lookup_insert_eq.
Qed.

End Downloading.

Section Installing.
Context `{RT : Runtime} (env : Env).

Lemma chmodAsync_Ret p mode w w' : chmodAsync env p mode w = (Ret tt, w') → w' = w.
Proof.
  unfold chmodAsync, fail, throw, lift. destruct (negb _); [done|].
  destruct (readOnly env p); [done|]. by intros [= <-].
Qed.

(** A command line that ends in [|| true] cannot fail. *)
Lemma ignoring_or_true t w :
  (∀ w0, effect env t w0 = w0) →
  ignoring (execAsync env (OrElse (Run t) STrue)) w
  = (Ret tt, logged (OrElse (Run t) STrue) w).
Proof.
  intros Hsame. unfold ignoring, tryCatch, execAsync. simpl.
  destruct (runs env t _); [|done]. by rewrite Hsame.
Qed.

Lemma ignoring_fs (t : tool) w w' u :
  (∀ w0, effect env t w0 = w0) →
  ignoring (execAsync env (Run t)) w = (Ret u, w') → fs w' = fs w.
Proof.
  intros Hsame. destruct u. unfold ignoring, tryCatch, execAsync. simpl.
  destruct (runs env t _); [rewrite Hsame|]; by intros [= <-].
Qed.

Lemma writeFileAsync_parent p content w w' :
  writeFileAsync env p content w = (Ret tt, w') → parentOk env p w = true.
Proof.
  unfold writeFileAsync, fail, throw, lift.
  destruct (readOnly env p); [done|]. by destruct (parentOk env p w).
Qed.

Lemma createLinuxApp_Ret fuel url appName browser appDir w r w' :
  createLinuxApp env fuel url appName browser appDir w = (Ret r, w') →
  ∃ iconPath iconNote,
    ((iconPath = "web-browser" ∧ iconNote = iconFailed) ∨
     (∃ iconDir, expandHomePath env "~/.local/share/icons/webnest" = Ret iconDir ∧
                 iconPath = pathJoin env iconDir (generateAppId (now env) url +:+ ".png") ∧
                 iconNote = "")) ∧
    r = Result.created (pathJoin env appDir (generateAppId (now env) url +:+ ".desktop"))
          (iconNote +:+ linuxNote) ∧
    ∃ w4,
      parentOk env (pathJoin env appDir (generateAppId (now env) url +:+ ".desktop")) w4 = true ∧
      fs w' !! pathJoin env appDir (generateAppId (now env) url +:+ ".desktop")
      = Some (File (desktopContent appName (Browser.path browser) url iconPath
                      (sanitizeAppName appName))) ∧
      ∀ k, k ≠ pathJoin env appDir (generateAppId (now env) url +:+ ".desktop") →
           Some k ≠ desktopDatabase env → fs w' !! k = fs w4 !! k.
Proof.
  unfold createLinuxApp. cbv zeta. intros Hrun.
  apply M_bind_Ret in Hrun as ([] & w1 & _ & Hrun).
  apply M_bind_Ret in Hrun as (iconDir & w2 & [Hhome <-]%lift_inv & Hrun).
  apply M_bind_Ret in Hrun as ([] & w3 & _ & Hrun).
  apply M_bind_Ret in Hrun as ([iconPath iconNote] & w4 & Hicon & Hrun).
  apply M_bind_Ret in Hrun as ([] & w5 & Hwrite & Hrun).
  apply M_bind_Ret in Hrun as ([] & w6 & ->%chmodAsync_Ret & Hrun).
  apply M_bind_Ret in Hrun as ([] & w7 & Hrefresh & Hrun).
  apply mret_inv in Hrun as [<- <-].
  destruct (refresh_spec env w5) as (wr & Hrefresh' & Hframe).
  rewrite Hrefresh' in Hrefresh. injection Hrefresh as <-.
  pose proof (writeFileAsync_parent _ _ _ _ Hwrite) as Hparent.
  apply writeFileAsync_Ret in Hwrite as [_ ->].
  exists iconPath, iconNote. split_and!; [|done|]; last first.
  { exists w4. split_and!; [done| |].
    - rewrite Hframe by apply desktopFile_not_database. simpl. apply lookup_insert_eq.
    - intros k Hk Hcache. rewrite (Hframe k Hcache). simpl. by rewrite lookup_insert_ne. }
  apply tryCatch_inv in Hicon as [Hicon|(e & w0 & _ & Hicon)];
    [|apply mret_inv in Hicon as [[= <- <-] _]; by left].
  apply M_bind_Ret in Hicon as (iconResult & w0 & _ & Hicon).
  destruct (IconResult.success iconResult);
    [|apply mret_inv in Hicon as [[= <- <-] _]; by left].
  apply M_bind_Ret in Hicon as (p & w8 & _ & Hicon).
  apply M_bind_Ret in Hicon as ([] & w9 & _ & Hicon).
  apply mret_inv in Hicon as [[= <- <-] _]. right. eauto.
Qed.

Lemma createMacOSApp_Ret fuel url appName browser appDir w r w' :
  createMacOSApp env fuel url appName browser appDir w = (Ret r, w') →
  ∃ iconNote,
    (iconNote = iconFailed ∨ iconNote = "") ∧
    r = Result.created (pathJoin env appDir (sanitizeAppName appName +:+ ".app"))
          (iconNote +:+ spotlightNote) ∧
    fs w' !! pathJoin env
               (pathJoin env
                  (pathJoin env (pathJoin env appDir (sanitizeAppName appName +:+ ".app"))
                     "Contents") "MacOS") (sanitizeAppName appName)
    = Some (File (launcherScript (Browser.path browser) url)).
Proof.
  unfold createMacOSApp. cbv zeta. intros Hrun.
  apply M_bind_Ret in Hrun as ([] & w1 & _ & Hrun).
  apply M_bind_Ret in Hrun as ([] & w2 & _ & Hrun).
  apply M_bind_Ret in Hrun as (iconNote & w3 & Hicon & Hrun).
  apply M_bind_Ret in Hrun as ([] & w4 & _ & Hrun).
  apply M_bind_Ret in Hrun as ([] & w5 & Hwrite & Hrun).
  apply M_bind_Ret in Hrun as ([] & w6 & ->%chmodAsync_Ret & Hrun).
  apply M_bind_Ret in Hrun as ([] & w7 & Hreg & Hrun).
  apply mret_inv in Hrun as [<- <-].
  apply ignoring_fs in Hreg; [|done]. rewrite Hreg.
  apply writeFileAsync_Ret in Hwrite as [_ ->].
  exists iconNote. split_and!; [|done|simpl; apply lookup_insert_eq].
  apply tryCatch_inv in Hicon as [Hicon|(e & w0 & _ & Hicon)];
    [|apply mret_inv in Hicon as [<- _]; by left].
  apply M_bind_Ret in Hicon as (iconResult & w0 & _ & Hicon).
  destruct (IconResult.success iconResult);
    [|apply mret_inv in Hicon as [<- _]; by left].
  destruct (IconResult.path iconResult) as [p|];
    [|apply mret_inv in Hicon as [<- _]; by right].
  apply M_bind_Ret in Hicon as (there & w8 & _ & Hicon).
  destruct (negb _ && there).
  - apply M_bind_Ret in Hicon as ([] & w9 & _ & Hicon).
    apply mret_inv in Hicon as [<- _]. by right.
  - apply mret_inv in Hicon as [<- _]. by right.
Qed.

Lemma createWindowsApp_Ret fuel url appName browser appDir w r w' :
  createWindowsApp env fuel url appName browser appDir w = (Ret r, w') →
  ∃ iconNote,
    (iconNote = iconFailed ∨ iconNote = "") ∧
    r = Result.created (pathJoin env appDir (sanitizeAppName appName +:+ ".lnk"))
          (iconNote +:+ startMenuNote).
Proof.
  unfold createWindowsApp. cbv zeta. intros Hrun.
  apply M_bind_Ret in Hrun as ([] & w1 & _ & Hrun).
  apply M_bind_Ret in Hrun as ([iconPath iconNote] & w2 & Hicon & Hrun).
  apply M_bind_Ret in Hrun as (temp & w3 & _ & Hrun).
  apply M_bind_Ret in Hrun as ([] & w4 & _ & Hrun).
  apply M_bind_Ret in Hrun as ([] & w5 & _ & Hrun).
  apply mret_inv in Hrun as [<- <-].
  exists iconNote. split; [|done].
  apply tryCatch_inv in Hicon as [Hicon|(e & w0 & _ & Hicon)];
    [|apply mret_inv in Hicon as [[= <- <-] _]; by left].
  apply M_bind_Ret in Hicon as (iconResult & w0 & _ & Hicon).
  destruct (IconResult.success iconResult);
    apply mret_inv in Hicon as [[= <- <-] _]; eauto.
Qed.

(** X14.  On Linux, whenever createLinuxApp returns, the launcher is in
    place: the file named by the application id, with the extension
    desktop, in the launcher directory holds the desktop entry of the app,
    whose icon is either the stock web-browser icon, with the note that
    the icon could not be fetched, or the icon file named by the
    application id in the icon directory; and the result is a success
    with the path of that launcher. *)
Theorem createLinuxApp_launcher (fuel : nat) (url appName appDir : string)
    (browser : Browser.t) (w w' : World) (r : Result.t) :
  createLinuxApp env fuel url appName browser appDir w = (Ret r, w') →
  ∃ iconPath iconNote,
    ((iconPath = "web-browser" ∧ iconNote = iconFailed) ∨
     (∃ iconDir, expandHomePath env "~/.local/share/icons/webnest" = Ret iconDir ∧
                 iconPath = pathJoin env iconDir (generateAppId (now env) url +:+ ".png") ∧
                 iconNote = "")) ∧
    r = Result.created (pathJoin env appDir (generateAppId (now env) url +:+ ".desktop"))
          (iconNote +:+ linuxNote) ∧
    fs w' !! pathJoin env appDir (generateAppId (now env) url +:+ ".desktop")
    = Some (File (desktopContent appName (Browser.path browser) url iconPath
                    (sanitizeAppName appName))).
Proof.
  intros (iconPath & iconNote & Hicon & -> & w4 & _ & Hfs & _)%createLinuxApp_Ret.
  by exists iconPath, iconNote.
Qed.

(** X15.  On macOS, whenever createMacOSApp returns, the launcher script
    of the bundle is in place: the file named by the sanitized app name
    under Contents/MacOS of the bundle holds the script that starts the
    browser with the URL; the result is a success with the path of the
    bundle and the Spotlight note, after the icon note if the icon
    failed. *)
Theorem createMacOSApp_launcher (fuel : nat) (url appName appDir : string)
    (browser : Browser.t) (w w' : World) (r : Result.t) :
  createMacOSApp env fuel url appName browser appDir w = (Ret r, w') →
  ∃ iconNote,
    (iconNote = iconFailed ∨ iconNote = "") ∧
    r = Result.created (pathJoin env appDir (sanitizeAppName appName +:+ ".app"))
          (iconNote +:+ spotlightNote) ∧
    fs w' !! pathJoin env
               (pathJoin env
                  (pathJoin env (pathJoin env appDir (sanitizeAppName appName +:+ ".app"))
                     "Contents") "MacOS") (sanitizeAppName appName)
    = Some (File (launcherScript (Browser.path browser) url)).
Proof. apply createMacOSApp_Ret. Qed.

(** X13.  installWebApp never returns a failure result.  Whenever it
    returns, for a browser id that is not the name of an inherited member,
    the platform is one of darwin, win32 and linux, the result is a
    success without an error, and its appPath is, inside the directory
    getWebAppDirectory gives for the browser, the sanitized name with the
    extension app or lnk, or on Linux the application id with the
    extension desktop. *)
Theorem installWebApp_result (fuel : nat) (url appName : string) (browser : Browser.t)
    (w w' : World) (r : Result.t) :
  inheritedName (Browser.id browser) = false →
  installWebApp env fuel url appName browser w = (Ret r, w') →
  ∃ appDir file,
    getWebAppDirectory env browser = Ret appDir ∧
    ((platform env = "darwin" ∧ file = sanitizeAppName appName +:+ ".app") ∨
     (platform env = "win32" ∧ file = sanitizeAppName appName +:+ ".lnk") ∨
     (platform env = "linux" ∧ file = generateAppId (now env) url +:+ ".desktop")) ∧
    Result.success r = true ∧
    Result.appPath r = Some (pathJoin env appDir file) ∧
    Result.error r = None.
Proof.
  unfold installWebApp. intros _ Hrun.
  apply M_bind_Ret in Hrun as (appDir & w1 & [Hdir <-]%lift_inv & Hrun).
  apply M_bind_Ret in Hrun as ([] & w2 & _ & Hrun).
  exists appDir.
  destruct (String.eqb (platform env) "darwin") eqn:Hdarwin.
  { apply eqb_string_true in Hdarwin.
    apply createMacOSApp_Ret in Hrun as (note & _ & -> & _). eexists. split_and!; eauto. }
  destruct (String.eqb (platform env) "win32") eqn:Hwin32.
  { apply eqb_string_true in Hwin32.
    apply createWindowsApp_Ret in Hrun as (note & _ & ->). eexists. split_and!; eauto. }
  destruct (String.eqb (platform env) "linux") eqn:Hlinux.
  { apply eqb_string_true in Hlinux.
    apply createLinuxApp_Ret in Hrun as (icon & note & _ & -> & _). eexists. split_and!; eauto 6. }
  exfalso. unfold getWebAppDirectory, directories in Hdir.
  by rewrite Hdarwin, Hwin32, Hlinux in Hdir.
Qed.

(** On any other platform the install is rejected before anything is
    touched; the default branch of its own switch is never reached. *)
Lemma installWebApp_unsupported_platform (fuel : nat) (url appName : string)
    (browser : Browser.t) (w : World) :
  platform env ≠ "darwin" → platform env ≠ "win32" → platform env ≠ "linux" →
  installWebApp env fuel url appName browser w
  = (Throw (AppError ("Unsupported platform: " +:+ platform env)), w).
Proof.
  intros H1%eqb_string_false H2%eqb_string_false H3%eqb_string_false.
  unfold installWebApp, getWebAppDirectory, directories. by rewrite H1, H2, H3.
Qed.

End Installing.

Section Removing.
Context `{RT : Runtime} (env : Env).

Lemma statAsync_same p w o w' : statAsync p w = (o, w') → w' = w.
Proof. unfold statAsync, fail, throw, lift. destruct (present p w); by intros [= _ <-]. Qed.

Lemma readdirAsync_same d w o w' : readdirAsync env d w = (o, w') → w' = w.
Proof. unfold readdirAsync, fail, throw, lift. destruct (isDir d w); by intros [= _ <-]. Qed.

Lemma readFileSync_same p w o w' : readFileSync p w = (o, w') → w' = w.
Proof.
  unfold readFileSync, fail, throw, lift. destruct (fs w !! p) as [[]|]; by intros [= _ <-].
Qed.

Lemma findBundle_same appDir safeName ext w o w' :
  findBundle env appDir safeName ext w = (o, w') → w' = w.
Proof.
  unfold findBundle, tryCatch. cbv zeta. unfold mbind at 1, M_bind at 1.
  destruct (statAsync _ w) as [[] w1] eqn:Hstat; apply statAsync_same in Hstat as ->;
    try by intros [= _ <-].
  unfold mbind, M_bind.
  destruct (readdirAsync env appDir w) as [[files| |] w1] eqn:Hread;
    apply readdirAsync_same in Hread as ->; try by intros [= _ <-].
  destruct (List.find _ files); by intros [= _ <-].
Qed.

Lemma findDesktop_same appDir safeName w o w' :
  findDesktop env appDir safeName w = (o, w') → w' = w.
Proof.
  unfold findDesktop. unfold mbind at 1, M_bind at 1.
  destruct (readdirAsync env appDir w) as [[files| |] w1] eqn:Hread;
    apply readdirAsync_same in Hread as ->; try by intros [= _ <-].
  destruct (List.find _ files) as [m|]; [|by intros [= _ <-]]. cbv zeta.
  unfold mbind, M_bind, tryCatch.
  destruct (readFileSync _ w) as [[] w1] eqn:Hread; apply readFileSync_same in Hread as ->;
    by intros [= _ <-].
Qed.

Lemma removeTree_other d k w :
  within env d k = false → fs (removeTree env d w) !! k = fs w !! k.
Proof.
  intros Hk. unfold removeTree. simpl.
  destruct (fs w !! k) as [n|] eqn:Hlook.
  - by apply map_lookup_filter_Some.
  - apply map_lookup_filter_None. by left.
Qed.

End Removing.

(** Concrete runs. *)


Lemma installWebApp_result_witness :
  let env := machine "linux" [] in
  ∃ appDir file,
    getWebAppDirectory env chrome = Ret appDir ∧
    ((platform env = "darwin" ∧ file = sanitizeAppName "GitHub" +:+ ".app") ∨
     (platform env = "win32" ∧ file = sanitizeAppName "GitHub" +:+ ".lnk") ∨
     (platform env = "linux" ∧ file = generateAppId (now env) "https://github.com/" +:+ ".desktop")) ∧
    Result.success
      (Result.created "/home/u/.local/share/applications/com.webnest.github-com-.desktop"
         (iconFailed +:+ linuxNote)) = true ∧
    Result.appPath
      (Result.created "/home/u/.local/share/applications/com.webnest.github-com-.desktop"
         (iconFailed +:+ linuxNote)) = Some (pathJoin env appDir file) ∧
    Result.error
      (Result.created "/home/u/.local/share/applications/com.webnest.github-com-.desktop"
         (iconFailed +:+ linuxNote)) = None.
Proof.
  intros env.
  apply (installWebApp_result env 3 "https://github.com/" "GitHub" chrome (worldOf [])
           (snd (installWebApp env 3 "https://github.com/" "GitHub" chrome (worldOf [])))).
  - reflexivity.
  - vm_compute. reflexivity.
Defined.

Lemma createLinuxApp_launcher_witness :
  let env := machine "linux" [] in
  let appDir := "/home/u/.local/share/applications" in
  let w' := snd (createLinuxApp env 3 "https://github.com/" "GitHub" chrome appDir (worldOf [])) in
  ∃ iconPath iconNote,
    ((iconPath = "web-browser" ∧ iconNote = iconFailed) ∨
     (∃ iconDir, expandHomePath env "~/.local/share/icons/webnest" = Ret iconDir ∧
                 iconPath = pathJoin env iconDir
                              (generateAppId (now env) "https://github.com/" +:+ ".png") ∧
                 iconNote = "")) ∧
    Result.created "/home/u/.local/share/applications/com.webnest.github-com-.desktop"
      (iconFailed +:+ linuxNote)
    = Result.created
        (pathJoin env appDir (generateAppId (now env) "https://github.com/" +:+ ".desktop"))
        (iconNote +:+ linuxNote) ∧
    fs w' !! pathJoin env appDir (generateAppId (now env) "https://github.com/" +:+ ".desktop")
    = Some (File (desktopContent "GitHub" (Browser.path chrome) "https://github.com/" iconPath
                    (sanitizeAppName "GitHub"))).
Proof.
  intros env appDir w'.
  apply (createLinuxApp_launcher env 3 "https://github.com/" "GitHub" appDir chrome (worldOf [])).
  vm_compute. reflexivity.
Defined.

Lemma createMacOSApp_launcher_witness :
  let env := machine "darwin" [] in
  let appDir := "/home/u/Applications/Chrome Apps.localized" in
  let w' := snd (createMacOSApp env 3 "https://github.com/" "GitHub" chrome appDir (worldOf [])) in
  ∃ iconNote,
    (iconNote = iconFailed ∨ iconNote = "") ∧
    Result.created "/home/u/Applications/Chrome Apps.localized/GitHub.app"
      (iconFailed +:+ spotlightNote)
    = Result.created (pathJoin env appDir (sanitizeAppName "GitHub" +:+ ".app"))
        (iconNote +:+ spotlightNote) ∧
    fs w' !! pathJoin env
               (pathJoin env
                  (pathJoin env (pathJoin env appDir (sanitizeAppName "GitHub" +:+ ".app"))
                     "Contents") "MacOS") (sanitizeAppName "GitHub")
    = Some (File (launcherScript (Browser.path chrome) "https://github.com/")).
Proof.
  intros env appDir w'.
  apply (createMacOSApp_launcher env 3 "https://github.com/" "GitHub" appDir chrome (worldOf [])).
  vm_compute. reflexivity.
Defined.

(** ** Strings: patterns that open with a character they do not repeat *)

Lemma prefix_refl_string p s : String.prefix p (p +:+ s) = true.
Proof.
  induction p as [|c p IH]; [apply prefix_empty|].
  by rewrite app_cons, prefix_cons, Ascii.eqb_refl.
Qed.

Lemma slice_app p s : slice (String.length p) (p +:+ s) = s.
Proof. induction p as [|c p IH]; [done|]. by rewrite app_cons. Qed.

(** Text without the character [c] that is a prefix of [x] followed by
    [c] lies inside [x]. *)
Lemma prefix_before c q x y :
  every (fun d => negb (Ascii.eqb d c)) q = true →
  String.prefix q (x +:+ String c y) = true → String.prefix q x = true.
Proof.
  revert x. induction q as [|d q IH]; intros x Hq; [intros _; apply prefix_empty|].
  simpl in Hq. apply andb_true_iff in Hq as [Hd Hq].
  destruct x as [|e x].
  - rewrite app_nil_l_string, prefix_cons.
    apply negb_true_iff in Hd. by rewrite Hd.
  - rewrite app_cons, !prefix_cons. destruct (Ascii.eqb d e); [by apply IH|done].
Qed.

Lemma replaceFirst_unfold p r s :
  replaceFirst p r s
  = if String.prefix p s then r +:+ slice (String.length p) s
    else match s with
         | EmptyString => EmptyString
         | String c s' => String c (replaceFirst p r s')
         end.
Proof. by destruct s. Qed.

Lemma replaceFirst_suffix c q r s :
  every (fun d => negb (Ascii.eqb d c)) q = true →
  includes s (String c q) = false →
  replaceFirst (String c q) r (s +:+ String c q) = s +:+ r.
Proof.
  intros Hq. induction s as [|d s IH]; intros Hs.
  - change (replaceFirst (String c q) r (String c q) = r).
    pose proof (prefix_refl_string (String c q) "") as Hp. rewrite app_nil_r_string in Hp.
    pose proof (slice_app (String c q) "") as Hsl. rewrite app_nil_r_string in Hsl.
    by rewrite replaceFirst_unfold, Hp, Hsl, app_nil_r_string.
  - apply includes_cons_false in Hs as [Hp Hs].
    rewrite !app_cons.
    assert (String.prefix (String c q) (String d (s +:+ String c q)) = false) as Hno.
    { rewrite prefix_cons in Hp |- *. destruct (Ascii.eqb c d); [|done].
      destruct (String.prefix q (s +:+ String c q)) eqn:Hpre; [|done].
      apply prefix_before in Hpre; [congruence|done]. }
    rewrite replaceFirst_unfold, Hno. by rewrite IH.
Qed.

(** ** Paths *)

Section Paths.
Context (env : Env).

Lemma afterSep_app x y :
  plainName env x = true → afterSep env (x +:+ String (sepChar env) y) = y.
Proof.
  unfold plainName. induction x as [|d x IH].
  - intros _. change (afterSep env (String (sepChar env) y) = y). simpl.
    by rewrite Ascii.eqb_refl.
  - intros [Hd Hx]%andb_true_iff. rewrite app_cons.
    change (afterSep env (String d (x +:+ String (sepChar env) y)))
      with (if Ascii.eqb d (sepChar env) then x +:+ String (sepChar env) y
            else afterSep env (x +:+ String (sepChar env) y)).
    apply negb_true_iff in Hd. rewrite Hd. by apply IH.
Qed.

Lemma splitHead_app c x y :
  every (fun d => negb (Ascii.eqb d c)) x = true → splitHead c (x +:+ String c y) = x.
Proof.
  induction x as [|d x IH].
  - intros _. change (splitHead c (String c y) = ""). simpl. by rewrite Ascii.eqb_refl.
  - intros [Hd Hx]%andb_true_iff. rewrite app_cons.
    change (splitHead c (String d (x +:+ String c y)))
      with (if Ascii.eqb c d then "" else String d (splitHead c (x +:+ String c y))).
    apply negb_true_iff in Hd. rewrite Ascii.eqb_sym, Hd. by rewrite IH.
Qed.

Lemma pathJoin_plain a name :
  a ≠ "" → endsWith a (sep env) = false → plainName env name = true →
  pathJoin env a name = a +:+ sep env +:+ name.
Proof.
  intros Ha Hend Hname. unfold pathJoin. cbv zeta.
  apply eqb_string_false in Ha. rewrite Ha, Hend.
  replace (startsWith name (sep env)) with false; [done|].
  unfold startsWith, sep. destruct name as [|d name]; [done|].
  rewrite prefix_cons. unfold plainName in Hname. simpl in Hname.
  apply andb_true_iff in Hname as [Hd _]. apply negb_true_iff in Hd.
  by rewrite Ascii.eqb_sym, Hd.
Qed.

Lemma dirname_join a name :
  plainName env name = true → dirname env (a +:+ sep env +:+ name) = a.
Proof.
  intros Hname. unfold dirname, sep.
  rewrite !rev_app_string, app_assoc_string.
  change (String.rev (String (sepChar env) "")) with (String (sepChar env) "").
  rewrite app_cons, app_nil_l_string, afterSep_app; [apply rev_involutive_string|].
  unfold plainName. by rewrite every_rev.
Qed.

Lemma basename_join a name :
  plainName env name = true → basename env (a +:+ sep env +:+ name) = name.
Proof.
  intros Hname. unfold basename, sep.
  rewrite !rev_app_string, app_assoc_string.
  change (String.rev (String (sepChar env) "")) with (String (sepChar env) "").
  rewrite app_cons, app_nil_l_string, splitHead_app; [apply rev_involutive_string|].
  by rewrite every_rev.
Qed.

Lemma join_longer a name : a +:+ sep env +:+ name ≠ a.
Proof.
  intros H. apply (f_equal String.length) in H.
  rewrite !length_app_string in H. simpl in H. lia.
Qed.

End Paths.

(** ** The list of installed apps *)

Section ListingProperties.
Context `{RT : Runtime} (env : Env).

Lemma listedApp_returns appDir browserId file w :
  ∃ apps, listedApp env appDir browserId file w = (Ret apps, w).
Proof.
  unfold listedApp. cbv zeta.
  destruct (String.eqb (platform env) "darwin"); [by eexists|].
  destruct (String.eqb (platform env) "win32"); [by eexists|].
  destruct (String.eqb (platform env) "linux"); [|by eexists].
  destruct (endsWith file ".desktop"); [|by eexists].
  unfold tryCatch, mbind, M_bind, readFileSync, fail, throw, lift.
  destruct (fs w !! pathJoin env appDir file) as [[]|]; by eexists.
Qed.

Lemma listedApps_elem appDir browserId files w :
  ∃ apps,
    listedApps env appDir browserId files w = (Ret apps, w) ∧
    ∀ a, a ∈ apps ↔
         ∃ file l, file ∈ files ∧ listedApp env appDir browserId file w = (Ret l, w) ∧ a ∈ l.
Proof.
  induction files as [|file files (more & Hmore & IH)]; simpl.
  - exists []. split; [done|]. intros a. split; [by intros ?%elem_of_nil|].
    by intros (? & ? & ?%elem_of_nil & _).
  - destruct (listedApp_returns appDir browserId file w) as [l Hl].
    exists (l ++ more). split.
    { unfold mbind, M_bind. by rewrite Hl, Hmore. }
    intros a. rewrite elem_of_app, IH. split.
    + intros [Ha|(f & l' & Hf & Hl' & Ha)].
      * exists file, l. split_and!; [left|done|done].
      * exists f, l'. split_and!; [by right|done|done].
    + intros (f & l' & [->|Hf]%elem_of_cons & Hl' & Ha).
      * left. congruence.
      * right. eauto.
Qed.

Lemma stat_there appDir w :
  tryCatch (_ ← statAsync appDir; mret true) (fun _ => mret false) w = (Ret (present appDir w), w).
Proof. unfold tryCatch, mbind, M_bind, statAsync. by destruct (present appDir w). Qed.

Lemma isDir_present p w : isDir p w = true → present p w = true.
Proof. unfold isDir, present. by destruct (fs w !! p) as [[]|]. Qed.

(** The names [readdir] gives are those of the entries directly inside. *)
Lemma readdirAsync_elem dir w :
  isDir dir w = true →
  ∃ files, readdirAsync env dir w = (Ret files, w) ∧
           ∀ f, f ∈ files ↔ ∃ k n, fs w !! k = Some n ∧ dirname env k = dir ∧ f = basename env k.
Proof.
  intros Hdir. unfold readdirAsync. rewrite Hdir. eexists. split; [done|].
  intros f. rewrite list_elem_of_fmap. split.
  - intros (k & -> & Hk). apply list_elem_of_filter in Hk as [Hkdir Hk].
    apply list_elem_of_fmap in Hk as ([k' n] & -> & Hk).
    apply elem_of_map_to_list in Hk. eauto.
  - intros (k & n & Hk & Hkdir & ->). exists k. split; [done|].
    apply list_elem_of_filter. split; [done|].
    apply list_elem_of_fmap. exists (k, n). split; [done|]. by apply elem_of_map_to_list.
Qed.

Lemma listInstalledApps_at appDir browserId w :
  getWebAppDirectoryById env browserId = Ret (Some appDir) →
  isDir appDir w = true →
  ∃ files apps,
    readdirAsync env appDir w = (Ret files, w) ∧
    listInstalledApps env browserId w = (Ret apps, w) ∧
    ∀ a, a ∈ apps ↔
         ∃ file l, file ∈ files ∧ listedApp env appDir browserId file w = (Ret l, w) ∧ a ∈ l.
Proof.
  intros Hdir Hthere.
  destruct (readdirAsync_elem appDir w Hthere) as (files & Hread & _).
  destruct (listedApps_elem appDir browserId files w) as (apps & Hlist & Helem).
  exists files, apps. split_and!; [done| |done].
  unfold listInstalledApps. rewrite Hdir.
  bind_step ltac:(reflexivity).
  bind_step ltac:(apply stat_there).
  rewrite (isDir_present _ _ Hthere). simpl.
  apply tryCatch_Ret. bind_step ltac:(exact Hread). done.
Qed.

(** X18.  For a browser id that is not the name of an inherited member,
    and once the launcher directory is determined (on macOS and Linux the
    home directory has to be known), listInstalledApps never rejects and
    changes nothing; it returns the empty list on a platform that is not
    supported and when the launcher directory is not an existing
    directory. *)
Theorem listInstalledApps_never_rejects (browserId : string) (dir : option string) (w : World) :
  inheritedName browserId = false →
  getWebAppDirectoryById env browserId = Ret dir →
  ∃ apps,
    listInstalledApps env browserId w = (Ret apps, w) ∧
    (dir = None → apps = []) ∧
    (∀ appDir, dir = Some appDir → isDir appDir w = false → apps = []).
Proof.
  intros _ Hdir. unfold listInstalledApps. rewrite Hdir.
  destruct dir as [appDir|]; [|by exists []].
  destruct (isDir appDir w) eqn:Hthere.
  - destruct (listInstalledApps_at appDir browserId w Hdir Hthere) as (files & apps & _ & Hrun & _).
    unfold listInstalledApps in Hrun. rewrite Hdir in Hrun. exists apps.
    split_and!; [done|done|]. intros ? [= <-] ?. congruence.
  - exists []. split_and!; [|done|done].
    bind_step ltac:(reflexivity).
    bind_step ltac:(apply stat_there).
    destruct (present appDir w); [|done]. simpl.
    erewrite tryCatch_Throw; [done|].
    apply M_bind_throw. unfold readdirAsync. by rewrite Hthere.
Qed.

End ListingProperties.

(** ** The Name line of a launcher *)

Lemma restOfLine_app a c b :
  isLineTerminator c = true → restOfLine (a +:+ String c b) = restOfLine a.
Proof.
  intros Hc. induction a as [|d a IH].
  - change (restOfLine (String c b) = ""). simpl. by rewrite Hc.
  - rewrite app_cons. simpl. by rewrite IH.
Qed.

Lemma restOfLine_nl a b : restOfLine (a +:+ nl +:+ b) = restOfLine a.
Proof. by apply (restOfLine_app a (ascii_of_N 10) b). Qed.

Lemma restOfLine_plain s :
  every (fun c => negb (isLineTerminator c)) s = true → restOfLine s = s.
Proof.
  induction s as [|c s IH]; [done|]. simpl. intros [Hc Hs]%andb_true_iff.
  apply negb_true_iff in Hc. rewrite Hc. by rewrite IH.
Qed.

Lemma nameMatch_Name s :
  restOfLine s ≠ "" → nameMatch true ("Name=" +:+ s) = Some (restOfLine s).
Proof.
  intros Hs.
  change ("Name=" +:+ s) with (String "N" (String "a" (String "m" (String "e" (String "=" s))))).
  simpl. unfold startsWith. rewrite prefix_empty. by destruct (restOfLine s).
Qed.

Lemma nameMatch_desktopContent appName browserPath url iconPath safeName :
  restOfLine appName ≠ "" →
  nameMatch true (desktopContent appName browserPath url iconPath safeName)
  = Some (restOfLine appName).
Proof.
  intros Hname. unfold desktopContent, joinLines.
  match goal with
  | |- nameMatch true (_ +:+ nl +:+ _ +:+ nl +:+ _ +:+ nl +:+ ("Name=" +:+ appName) +:+ nl +:+ ?rest) = _ =>
      change (nameMatch true (("Name=" +:+ appName) +:+ nl +:+ rest) = Some (restOfLine appName));
      rewrite (app_assoc_string "Name=" appName (nl +:+ rest))
  end.
  rewrite nameMatch_Name; rewrite restOfLine_nl; done.
Qed.

Section ListingRoundTrip.
Context `{RT : Runtime} (env : Env).

Lemma linux_sep : platform env = "linux" → sep env = "/" ∧ sepChar env = "/"%char.
Proof. intros H. unfold sep, sepChar, win32. by rewrite H. Qed.

Lemma dirFor_linux browserId :
  dirFor ((fun b => (b, "~/.local/share/applications")) <$> browserIds) browserId
  = "~/.local/share/applications".
Proof.
  unfold dirFor, browserIds. simpl.
  repeat (destruct (String.eqb browserId _); [done|]). done.
Qed.

Lemma getWebAppDirectoryById_linux browserId :
  platform env = "linux" →
  getWebAppDirectoryById env browserId
  = (d ← expandHomePath env "~/.local/share/applications"; Ret (Some d)).
Proof.
  intros Hlinux. unfold getWebAppDirectoryById, directories. rewrite Hlinux. simpl.
  by rewrite dirFor_linux.
Qed.

Lemma getWebAppDirectory_linux browser :
  platform env = "linux" →
  getWebAppDirectory env browser = expandHomePath env "~/.local/share/applications".
Proof.
  intros Hlinux. unfold getWebAppDirectory, directories. rewrite Hlinux. simpl.
  by rewrite dirFor_linux.
Qed.

(** The launcher directory of Linux is not empty and does not end with
    a separator. *)
Lemma linux_appDir appDir :
  platform env = "linux" →
  expandHomePath env "~/.local/share/applications" = Ret appDir →
  appDir ≠ "" ∧ endsWith appDir (sep env) = false.
Proof.
  intros Hlinux. destruct (linux_sep Hlinux) as [Hsep _].
  unfold expandHomePath. simpl. destruct (HOME env) as [home|]; [|done]. simpl.
  intros [= <-]. unfold pathJoin. cbv zeta. rewrite Hsep. simpl.
  destruct (String.eqb home "") eqn:Hhome; [done|].
  assert (∀ x, x +:+ ".local/share/applications" ≠ "" ∧
               endsWith (x +:+ ".local/share/applications") "/" = false) as Hx.
  { intros x. split.
    - intros H%(f_equal String.length). rewrite length_app_string in H. simpl in H. lia.
    - apply endsWith_app_false; [done|simpl; lia]. }
  destruct (endsWith home "/").
  - apply Hx.
  - rewrite <- app_assoc_string. apply Hx.
Qed.

(** On Linux the cache of the desktop database lies in the launcher
    directory. *)
Lemma desktopDatabase_linux appDir :
  platform env = "linux" →
  expandHomePath env "~/.local/share/applications" = Ret appDir →
  desktopDatabase env = Some (appDir +:+ sep env +:+ "mimeinfo.cache").
Proof.
  intros Hlinux Hdir. destruct (linux_appDir appDir Hlinux Hdir) as [Hne Hend].
  destruct (linux_sep Hlinux) as [_ HsepChar].
  unfold expandHomePath in Hdir. simpl in Hdir.
  unfold desktopDatabase, applicationsDir.
  destruct (HOME env) as [home|]; [|done]. simpl in *. injection Hdir as ->.
  f_equal. apply pathJoin_plain; [done..|]. unfold plainName. by rewrite HsepChar.
Qed.

(** X20.  Install, then list, on Linux.  After installWebApp has
    returned for an app name whose first line is not empty and a URL whose
    application id holds no slash, listInstalledApps returns a list with an
    entry whose path is the appPath of the install and whose name is the
    first line of the app name; and it does so for every browser id that
    is not the name of an inherited member, whichever browser the app was
    installed for: on Linux the browsers share one launcher directory. *)
Theorem install_then_list_on_linux (fuel : nat) (url appName browserId : string)
    (browser : Browser.t) (w w' : World) (r : Result.t) :
  inheritedName browserId = false →
  platform env = "linux" →
  installWebApp env fuel url appName browser w = (Ret r, w') →
  restOfLine appName ≠ "" →
  plainName env (generateAppId (now env) url) = true →
  ∃ apps app,
    listInstalledApps env browserId w' = (Ret apps, w') ∧
    app ∈ apps ∧
    App.name app = restOfLine appName ∧
    Some (App.path app) = Result.appPath r ∧
    App.browser app = getBrowserName browserId.
Proof.
  intros _ Hlinux Hrun Hname Hid.
  destruct (linux_sep Hlinux) as [Hsep HsepChar].
  unfold installWebApp in Hrun.
  apply M_bind_Ret in Hrun as (appDir & w1 & [Hdir <-]%lift_inv & Hrun).
  apply M_bind_Ret in Hrun as ([] & w2 & _ & Hrun).
  rewrite Hlinux in Hrun. simpl in Hrun.
  apply createLinuxApp_Ret in Hrun as (icon & note & _ & -> & w4 & Hparent & Hlaunch & Hframe).
  rewrite getWebAppDirectory_linux in Hdir by done.
  destruct (linux_appDir appDir Hlinux Hdir) as [Hne Hend].
  set (file := generateAppId (now env) url +:+ ".desktop") in *.
  assert (Hfile : plainName env file = true).
  { unfold plainName, file. rewrite every_app. unfold plainName in Hid.
    rewrite Hid, HsepChar. done. }
  rewrite (pathJoin_plain env appDir file Hne Hend Hfile) in *.
  set (content := desktopContent _ _ _ _ _) in *.
  assert (Hthere : isDir appDir w' = true).
  { unfold parentOk in Hparent. rewrite dirname_join in Hparent by done.
    apply eqb_string_false in Hne. rewrite Hne in Hparent. simpl in Hparent.
    unfold isDir in *. rewrite Hframe; [done|symmetry; apply join_longer|].
    rewrite (desktopDatabase_linux appDir Hlinux Hdir). intros [= Heq].
    symmetry in Heq. by apply join_longer in Heq. }
  assert (HbyId : getWebAppDirectoryById env browserId = Ret (Some appDir)).
  { rewrite getWebAppDirectoryById_linux by done. by rewrite Hdir. }
  destruct (listInstalledApps_at env appDir browserId w' HbyId Hthere)
    as (files & apps & Hread & Hlist & Helem).
  destruct (readdirAsync_elem env appDir w' Hthere) as (files' & Hread' & Hfiles).
  rewrite Hread in Hread'. injection Hread' as <-.
  exists apps. eexists. split; [done|]. split.
  - apply Helem. exists file. eexists. split_and!.
    + apply Hfiles. exists (appDir +:+ sep env +:+ file), (File content).
      rewrite Hlaunch, dirname_join, basename_join by done. done.
    + unfold listedApp. cbv zeta. rewrite Hlinux. simpl.
      unfold file at 1. rewrite endsWith_app.
      rewrite (pathJoin_plain env appDir file Hne Hend Hfile).
      apply tryCatch_Ret.
      bind_step ltac:(unfold readFileSync; rewrite Hlaunch; reflexivity).
      unfold content. rewrite nameMatch_desktopContent by done. reflexivity.
    + apply list_elem_of_here.
  - done.
Qed.

End ListingRoundTrip.

Section ListingByPlatform.
Context `{RT : Runtime} (env : Env).

(** X19.  On Linux, for a browser id that is not the name of an
    inherited member, listInstalledApps lists exactly the entries of the
    launcher directory whose name ends in .desktop, that can be read as
    files, and whose text has a line that starts with Name= and goes on:
    the name listed is the rest of the first such line, the path is the
    one of the entry.  Whether WebNest wrote the entry, and for which
    browser, plays no part. *)
Theorem listInstalledApps_on_linux (browserId appDir : string) (w : World) :
  inheritedName browserId = false →
  platform env = "linux" →
  getWebAppDirectoryById env browserId = Ret (Some appDir) →
  isDir appDir w = true →
  ∃ apps,
    listInstalledApps env browserId w = (Ret apps, w) ∧
    ∀ app, app ∈ apps ↔
      ∃ k n content,
        fs w !! k = Some n ∧ dirname env k = appDir ∧
        endsWith (basename env k) ".desktop" = true ∧
        fs w !! pathJoin env appDir (basename env k) = Some (File content) ∧
        nameMatch true content = Some (App.name app) ∧
        App.path app = pathJoin env appDir (basename env k) ∧
        App.browser app = getBrowserName browserId ∧
        App.browserId app = browserId.
Proof.
  intros _ Hlinux Hdir Hthere.
  destruct (listInstalledApps_at env appDir browserId w Hdir Hthere)
    as (files & apps & Hread & Hlist & Helem).
  destruct (readdirAsync_elem env appDir w Hthere) as (files' & Hread' & Hfiles).
  rewrite Hread in Hread'. injection Hread' as <-.
  exists apps. split; [done|]. intros app. rewrite Helem. split.
  - intros (file & l & (k & n & Hk & Hkdir & ->)%Hfiles & Hl & Happ).
    unfold listedApp in Hl. cbv zeta in Hl. rewrite Hlinux in Hl. simpl in Hl.
    destruct (endsWith (basename env k) ".desktop") eqn:Hext;
      [|apply mret_inv in Hl as [<- _]; by apply elem_of_nil in Happ].
    unfold tryCatch, mbind, M_bind, readFileSync, fail, throw, lift in Hl.
    destruct (fs w !! pathJoin env appDir (basename env k)) as [[content|]|] eqn:Hfile;
      try (apply mret_inv in Hl as [<- _]; by apply elem_of_nil in Happ).
    apply mret_inv in Hl as [<- _].
    destruct (nameMatch true content) as [name|] eqn:Hname; [|by apply elem_of_nil in Happ].
    apply list_elem_of_singleton in Happ as ->.
    exists k, n, content. by split_and!.
  - intros (k & n & content & Hk & Hkdir & Hext & Hfile & Hname & Hpath & Hbrowser & Hid).
    exists (basename env k). eexists. split_and!.
    + apply Hfiles. eauto.
    + unfold listedApp. cbv zeta. rewrite Hlinux. simpl. rewrite Hext.
      apply tryCatch_Ret.
      bind_step ltac:(unfold readFileSync; rewrite Hfile; reflexivity).
      rewrite Hname. reflexivity.
    + destruct app. simpl in *. subst. apply list_elem_of_here.
Qed.

(** X21.  On macOS and on Windows, for a browser id that is not the name
    of an inherited member, every entry of the launcher directory named
    with the extension of the platform (app, lnk) is listed, with the path
    of the entry and, as its name, the file name without the first
    occurrence of the extension: that is the name in front of the
    extension when this name does not contain the extension itself. *)
Theorem listInstalledApps_bundle_name (browserId appDir ext name k : string) (n : node)
    (w : World) :
  inheritedName browserId = false →
  (platform env = "darwin" ∧ ext = ".app") ∨ (platform env = "win32" ∧ ext = ".lnk") →
  getWebAppDirectoryById env browserId = Ret (Some appDir) →
  isDir appDir w = true →
  fs w !! k = Some n → dirname env k = appDir → basename env k = name +:+ ext →
  ∃ apps,
    listInstalledApps env browserId w = (Ret apps, w) ∧
    {| App.name := replaceFirst ext "" (name +:+ ext);
       App.path := pathJoin env appDir (name +:+ ext);
       App.browser := getBrowserName browserId;
       App.browserId := browserId |} ∈ apps ∧
    (includes name ext = false → replaceFirst ext "" (name +:+ ext) = name).
Proof.
  intros _ Hplatform Hdir Hthere Hk Hkdir Hbase.
  destruct (listInstalledApps_at env appDir browserId w Hdir Hthere)
    as (files & apps & Hread & Hlist & Helem).
  destruct (readdirAsync_elem env appDir w Hthere) as (files' & Hread' & Hfiles).
  rewrite Hread in Hread'. injection Hread' as <-.
  exists apps. split_and!; [done| |].
  - apply Helem. exists (name +:+ ext). eexists. split_and!.
    + apply Hfiles. exists k, n. by rewrite Hbase.
    + unfold listedApp. cbv zeta.
      destruct Hplatform as [[-> ->]|[-> ->]]; simpl; by rewrite endsWith_app.
    + apply list_elem_of_here.
  - intros Hplain.
    destruct Hplatform as [[_ ->]|[_ ->]];
      (rewrite replaceFirst_suffix; [apply app_nil_r_string|done|done]).
Qed.

End ListingByPlatform.

(** ** Removal: what is touched *)

Section RemovalFrame.
Context `{RT : Runtime} (env : Env).

Lemma every_splitHead c s : every (fun d => negb (Ascii.eqb d c)) (splitHead c s) = true.
Proof.
  induction s as [|d s IH]; [done|]. simpl.
  destruct (Ascii.eqb c d) eqn:Hcd; [done|]. simpl.
  by rewrite Ascii.eqb_sym, Hcd, IH.
Qed.

Lemma basename_plain k : plainName env (basename env k) = true.
Proof. unfold plainName, basename. rewrite every_rev. apply every_splitHead. Qed.

Lemma prefix_app_cancel a p s : String.prefix (a +:+ p) (a +:+ s) = String.prefix p s.
Proof.
  induction a as [|c a IH]; [done|]. by rewrite !app_cons, prefix_cons, Ascii.eqb_refl.
Qed.

Lemma prefix_every (q : ascii → bool) p s :
  String.prefix p s = true → every q s = true → every q p = true.
Proof.
  revert s. induction p as [|c p IH]; intros s; [done|].
  destruct s as [|d s]; [done|]. rewrite prefix_cons.
  destruct (Ascii.eqb c d) eqn:Hcd; [|done]. apply Ascii.eqb_eq in Hcd as ->.
  simpl. intros Hp [Hd Hs]%andb_true_iff. rewrite Hd. simpl. by eapply IH.
Qed.

Lemma app_inv_head_string a b c : a +:+ b = a +:+ c → b = c.
Proof. induction a as [|d a IH]; [done|]. rewrite !app_cons. intros [= H]. by apply IH. Qed.

(** The launcher that the search of macOS and Windows names lies in the
    launcher directory. *)
Lemma findBundle_path appDir safeName ext w p found w' :
  findBundle env appDir safeName ext w = (Ret (Some p, found), w') →
  ∃ f, p = pathJoin env appDir f.
Proof.
  unfold findBundle. cbv zeta. intros [Hrun|(e & w1 & _ & Hrun)]%tryCatch_inv.
  - apply M_bind_Ret in Hrun as ([] & w1 & _ & [[= <- _] _]%mret_inv). eauto.
  - apply M_bind_Ret in Hrun as (files & w2 & _ & Hrun).
    destruct (List.find _ files); apply mret_inv in Hrun as [[= <- _] _]; eauto.
Qed.

(** The launcher that the search of Linux accepts is an entry of the
    launcher directory whose name ends in .desktop. *)
Lemma findDesktop_path appDir safeName w p found w' :
  findDesktop env appDir safeName w = (Ret (Some p, found), w') →
  ∃ k n, fs w !! k = Some n ∧ dirname env k = appDir ∧
         p = pathJoin env appDir (basename env k) ∧
         endsWith (basename env k) ".desktop" = true.
Proof.
  unfold findDesktop. intros (files & w1 & Hread & Hrun)%M_bind_Ret.
  destruct (readdirAsync_names env _ _ _ _ Hread) as [-> Hfiles].
  destruct (List.find _ files) as [m|] eqn:Hfind; [|by apply mret_inv in Hrun as [[= ] _]].
  apply find_some in Hfind as [Hin Hcandidate]. apply list_elem_of_In in Hin.
  destruct (Hfiles m Hin) as (k & n & Hk & Hdir & ->).
  cbv zeta in Hrun. apply M_bind_Ret in Hrun as (b & w2 & _ & [[= <- _] _]%mret_inv).
  exists k, n. split_and!; [done..|].
  unfold desktopCandidate in Hcandidate. by destruct (endsWith (basename env k) ".desktop").
Qed.

(** On Linux the cache of the desktop database is not a launcher, and it
    does not lie below one. *)
Lemma desktopDatabase_not_within appDir k cache :
  platform env = "linux" →
  expandHomePath env "~/.local/share/applications" = Ret appDir →
  endsWith (basename env k) ".desktop" = true →
  desktopDatabase env = Some cache →
  within env (pathJoin env appDir (basename env k)) cache = false.
Proof.
  intros Hlinux Hdir Hext Hcache.
  destruct (linux_appDir env appDir Hlinux Hdir) as [Hne Hend].
  destruct (linux_sep env Hlinux) as [Hsep HsepChar].
  rewrite (desktopDatabase_linux env appDir Hlinux Hdir) in Hcache. injection Hcache as <-.
  rewrite (pathJoin_plain env appDir (basename env k) Hne Hend (basename_plain k)).
  unfold within. apply orb_false_iff. split.
  - apply eqb_string_false. intros Heq.
    apply app_inv_head_string, app_inv_head_string in Heq. by rewrite <- Heq in Hext.
  - unfold startsWith. rewrite !app_assoc_string, !prefix_app_cancel.
    destruct (String.prefix _ _) eqn:Hprefix; [|done].
    apply (prefix_every (fun d => negb (Ascii.eqb d (sepChar env)))) in Hprefix;
      [|by rewrite HsepChar].
    rewrite every_app in Hprefix. apply andb_true_iff in Hprefix as [_ Hlast].
    unfold sep in Hlast. simpl in Hlast. by rewrite Ascii.eqb_refl in Hlast.
Qed.


End RemovalFrame.


(** Concrete runs. *)

Lemma listInstalledApps_never_rejects_witness :
  let env := machine "linux" [] in
  ∃ apps,
    listInstalledApps env "chrome" (worldOf []) = (Ret apps, worldOf []) ∧
    (Some "/home/u/.local/share/applications" = None → apps = []) ∧
    (∀ appDir, Some "/home/u/.local/share/applications" = Some appDir →
               isDir appDir (worldOf []) = false → apps = []).
Proof.
  intros env.
  apply (listInstalledApps_never_rejects env "chrome" (Some "/home/u/.local/share/applications")
           (worldOf [])).
  - reflexivity.
  - vm_compute. reflexivity.
Defined.

Lemma listInstalledApps_on_linux_witness :
  let env := machine "linux" [] in
  let appDir := "/home/u/.local/share/applications" in
  let w := snd (installWebApp env 3 "https://github.com/" "GitHub" chrome (worldOf [])) in
  ∃ apps,
    listInstalledApps env "edge" w = (Ret apps, w) ∧
    ∀ app, app ∈ apps ↔
      ∃ k n content,
        fs w !! k = Some n ∧ dirname env k = appDir ∧
        endsWith (basename env k) ".desktop" = true ∧
        fs w !! pathJoin env appDir (basename env k) = Some (File content) ∧
        nameMatch true content = Some (App.name app) ∧
        App.path app = pathJoin env appDir (basename env k) ∧
        App.browser app = getBrowserName "edge" ∧
        App.browserId app = "edge".
Proof.
  intros env appDir w.
  apply (listInstalledApps_on_linux env "edge" appDir w).
  - reflexivity.
  - reflexivity.
  - vm_compute. reflexivity.
  - vm_compute. reflexivity.
Defined.

Lemma install_then_list_on_linux_witness :
  let env := machine "linux" [] in
  let run := installWebApp env 3 "https://github.com/" "GitHub" chrome (worldOf []) in
  let r := Result.created "/home/u/.local/share/applications/com.webnest.github-com-.desktop"
             (iconFailed +:+ linuxNote) in
  ∃ apps app,
    listInstalledApps env "brave" (snd run) = (Ret apps, snd run) ∧
    app ∈ apps ∧
    App.name app = restOfLine "GitHub" ∧
    Some (App.path app) = Result.appPath r ∧
    App.browser app = getBrowserName "brave".
Proof.
  intros env run r.
  apply (install_then_list_on_linux env 3 "https://github.com/" "GitHub" "brave" chrome
           (worldOf []) (snd run) r).
  - reflexivity.
  - reflexivity.
  - vm_compute. reflexivity.
  - vm_compute. discriminate.
  - vm_compute. reflexivity.
Defined.

Lemma listInstalledApps_bundle_name_witness :
  let env := machine "darwin" [] in
  let appDir := "/home/u/Applications/Chrome Apps.localized" in
  let w := snd (installWebApp env 3 "https://github.com/" "GitHub" chrome (worldOf [])) in
  ∃ apps,
    listInstalledApps env "chrome" w = (Ret apps, w) ∧
    {| App.name := replaceFirst ".app" "" ("GitHub" +:+ ".app");
       App.path := pathJoin env appDir ("GitHub" +:+ ".app");
       App.browser := getBrowserName "chrome";
       App.browserId := "chrome" |} ∈ apps ∧
    (includes "GitHub" ".app" = false → replaceFirst ".app" "" ("GitHub" +:+ ".app") = "GitHub").
Proof.
  intros env appDir w.
  apply (listInstalledApps_bundle_name env "chrome" appDir ".app" "GitHub"
           "/home/u/Applications/Chrome Apps.localized/GitHub.app" Dir w).
  - reflexivity.
  - left. split; reflexivity.
  - vm_compute. reflexivity.
  - vm_compute. reflexivity.
  - vm_compute. reflexivity.
  - vm_compute. reflexivity.
  - vm_compute. reflexivity.
Defined.

(** ** Transcoding and installation, continued *)

Lemma returns_bind_lift {A B} (a : A) (f : A → M B) :
  returns (f a) → returns (lift (Ret a) ≫= f).
Proof. intros H w. apply H. Qed.

Section TranscodingPaths.
Context `{RT : Runtime} (env : Env).

(** [pathJoin] with a name that does not open with a separator appends
    the name. *)
Lemma pathJoin_ext a name ext :
  startsWith name (sep env) = false →
  startsWith (name +:+ ext) (sep env) = false →
  pathJoin env a (name +:+ ext) = pathJoin env a name +:+ ext.
Proof.
  intros H1 H2. unfold pathJoin. cbv zeta. rewrite H1, H2.
  destruct (String.eqb a ""); [done|].
  destruct (endsWith a (sep env)); by rewrite ?app_assoc_string.
Qed.

Lemma app_ico_png outputDir :
  includes (pathJoin env outputDir "app") ".ico" = false →
  replaceFirst ".ico" ".png" (pathJoin env outputDir "app.ico") = pathJoin env outputDir "app.png".
Proof.
  intros Hplain.
  assert (∀ ext, startsWith ("app" +:+ ext) (sep env) = false) as Hstart.
  { intros ext. unfold startsWith, sep, sepChar. by destruct (win32 env). }
  change "app.ico" with ("app" +:+ ".ico"). change "app.png" with ("app" +:+ ".png").
  rewrite !pathJoin_ext; try done; [|apply (Hstart "")..].
  by apply replaceFirst_suffix.
Qed.

(** X11.  Without ImageMagick, and for an output directory whose path does
    not contain .ico, convertToIco asked for app.ico in that directory
    copies the input, when the copy can be written, to app.png in the same
    directory, returns success with that path and the note on PNG, and has
    run nothing but the failed look-up of convert. *)
Theorem convertToIco_copies_to_png (inputPath outputDir content : string) (w : World) :
  toolOk env (Which "convert") = false →
  fs w !! inputPath = Some (File content) →
  includes (pathJoin env outputDir "app") ".ico" = false →
  writable env (pathJoin env outputDir "app.png") w →
  convertToIco env inputPath (pathJoin env outputDir "app.ico") w
  = (Ret (IconResult.okNote (pathJoin env outputDir "app.png") pngNote),
     put (pathJoin env outputDir "app.png") (File content) (logged (Run (Which "convert")) w)).
Proof.
  intros Hwhich Hinput Hplain Hwritable. unfold convertToIco.
  erewrite tryCatch_Throw; last first.
  { apply M_bind_throw. by apply execAsync_unavailable. }
  cbv zeta. rewrite app_ico_png by done.
  apply tryCatch_Ret.
  bind_step ltac:(apply (copyFileSync_writable env inputPath _ content); [exact Hinput|exact Hwritable]).
  reflexivity.
Qed.

Lemma returns_convertToIcns i o : returns (convertToIcns env i o).
Proof. intros w. destruct (convertToIcns_returns env i o w) as (r & w' & H & _). eauto. Qed.

Lemma returns_prepareDarwin tempDir outputDir path extension :
  returns (prepareDarwin env tempDir outputDir path extension).
Proof.
  unfold prepareDarwin. cbv zeta. apply returns_bind; [|intros; apply returns_convertToIcns].
  destruct (String.eqb extension ".svg"); [|apply returns_ret].
  apply returns_tryCatch; [|intros; apply returns_ret].
  apply settles_bind; [apply settles_execAsync|]. intros _. apply settles_ret.
Qed.

(** X12.  For a platform other than linux (darwin, win32, or one that is
    not supported), prepareIcon returns a result object whenever discovery
    has returned an icon URL and the fetch of that icon settles: every
    failure of the download, of the conversion and of the clean-up is
    turned into a result or ignored.  (On linux an unguarded copyFileSync
    can reject.) *)
Theorem prepareIcon_never_rejects_off_linux (fuel : nat)
    (url outputDir platform iconUrl : string) (w : World) :
  platform ≠ "linux" →
  getBestIconUrl env fuel url = Ret iconUrl →
  settled (fetchUrl env fuel iconUrl "") →
  ∃ r w', prepareIcon env fuel url outputDir platform w = (Ret r, w').
Proof.
  intros Hplatform%eqb_string_false Hbest Hfetch. revert w.
  change (returns (prepareIcon env fuel url outputDir platform)).
  unfold prepareIcon. rewrite Hbest.
  apply returns_bind_lift. cbv zeta.
  apply returns_bind.
  { by apply returns_downloadIcon. }
  intros [path extension size|err]; [|apply returns_ret].
  rewrite Hplatform.
  apply returns_bind.
  - destruct (String.eqb platform "darwin"); [apply returns_prepareDarwin|].
    destruct (String.eqb platform "win32"); [apply convertToIco_returns|apply returns_ret].
  - intros r. apply returns_bind; [apply returns_ignoring, settles_execAsync|].
    intros _. apply returns_ret.
Qed.

End TranscodingPaths.

Section Windows.
Context `{RT : Runtime} (env : Env).

Lemma unlinkSync_Ret p w w' :
  unlinkSync env p w = (Ret tt, w') → fs w' = delete p (fs w).
Proof.
  unfold unlinkSync, fail, throw, lift. destruct (negb _); [done|].
  destruct (readOnly env p); [done|]. by intros [= <-].
Qed.

(** X16.  On Windows, whenever createWindowsApp returns, the PowerShell
    script it wrote to the temporary directory has been run with success,
    that run is the last command executed, and the script is no longer
    there. *)
Theorem createWindowsApp_removes_its_script (fuel : nat) (url appName appDir : string)
    (browser : Browser.t) (w w' : World) (r : Result.t) :
  createWindowsApp env fuel url appName browser appDir w = (Ret r, w') →
  ∃ temp,
    TEMP env = Some temp ∧
    toolOk env (Powershell (pathJoin env temp ("webnest_" +:+ pretty (now env) +:+ ".ps1"))) = true ∧
    head (log w')
    = Some (Run (Powershell (pathJoin env temp ("webnest_" +:+ pretty (now env) +:+ ".ps1")))) ∧
    fs w' !! pathJoin env temp ("webnest_" +:+ pretty (now env) +:+ ".ps1") = None.
Proof.
  unfold createWindowsApp. cbv zeta. intros Hrun.
  apply M_bind_Ret in Hrun as ([] & w1 & _ & Hrun).
  apply M_bind_Ret in Hrun as ([iconPath iconNote] & w2 & _ & Hrun).
  apply M_bind_Ret in Hrun as (temp & w3 & [Htemp <-]%lift_inv & Hrun).
  apply M_bind_Ret in Hrun as ([] & w4 & _ & Hrun).
  apply M_bind_Ret in Hrun as ([] & w5 & Hps & Hrun).
  apply mret_inv in Hrun as [_ <-].
  exists temp. split.
  { unfold orThrow in Htemp. destruct (TEMP env); by simplify_eq. }
  apply tryCatch_inv in Hps as [Hps|(e & w6 & _ & Hps)].
  - apply M_bind_Ret in Hps as ([] & w6 & Hexec & Hunlink).
    apply execAsync_Run_Ret in Hexec as [Hok ->].
    pose proof Hunlink as Hlog.
    apply unlinkSync_Ret in Hunlink. split_and!; [done| |].
    + unfold unlinkSync, fail, throw, lift in Hlog. destruct (negb _); [done|].
      destruct (readOnly env _); [done|]. injection Hlog as <-. simpl.
      by destruct (fs w4 !! _) as [[text|]|]; [destruct (capture shortcutRegex text)| |].
    + rewrite Hunlink. apply lookup_delete_eq.
  - apply M_bind_Ret in Hps as ([] & w7 & _ & Hps). done.
Qed.

End Windows.

(** Concrete runs. *)

Lemma convertToIco_copies_to_png_witness :
  let env := machine "win32" faviconSite in
  let w := snd (downloadIcon env 3 "https://example.com/favicon.ico" "C:\Apps\.icon-temp"
                  (worldOf ["C:"; "C:\Apps"])) in
  convertToIco env "C:\Apps\.icon-temp\icon.ico" (pathJoin env "C:\Apps" "app.ico") w
  = (Ret (IconResult.okNote (pathJoin env "C:\Apps" "app.png") pngNote),
     put (pathJoin env "C:\Apps" "app.png") (File "JPEG-bytes")
       (logged (Run (Which "convert")) w)).
Proof.
  intros env w.
  apply (convertToIco_copies_to_png env "C:\Apps\.icon-temp\icon.ico" "C:\Apps" "JPEG-bytes" w).
  - reflexivity.
  - vm_compute. reflexivity.
  - vm_compute. reflexivity.
  - split_and!; vm_compute; reflexivity.
Defined.

Lemma prepareIcon_never_rejects_off_linux_witness :
  let env := machine "win32" faviconSite in
  ∃ r w', prepareIcon env 3 "https://example.com/" "C:\Apps" "win32"
            (worldOf ["C:"; "C:\Apps"]) = (Ret r, w').
Proof.
  intros env.
  apply (prepareIcon_never_rejects_off_linux env 3 "https://example.com/" "C:\Apps" "win32"
           "https://example.com/favicon.ico").
  - discriminate.
  - vm_compute. reflexivity.
  - left. eexists. vm_compute. reflexivity.
Defined.

Lemma createWindowsApp_removes_its_script_witness :
  let env := withTools powershellOnly (machine "win32" []) in
  let appDir := "C:\Users\u\AppData\Roaming\Microsoft\Windows\Start Menu\Programs\Chrome Apps" in
  let w' := snd (createWindowsApp env 3 "https://github.com/" "GitHub" chromeWin appDir
                   (worldOf ["C:"; "C:\Temp"])) in
  ∃ temp,
    TEMP env = Some temp ∧
    toolOk env (Powershell (pathJoin env temp ("webnest_" +:+ pretty (now env) +:+ ".ps1"))) = true ∧
    head (log w')
    = Some (Run (Powershell (pathJoin env temp ("webnest_" +:+ pretty (now env) +:+ ".ps1")))) ∧
    fs w' !! pathJoin env temp ("webnest_" +:+ pretty (now env) +:+ ".ps1") = None.
Proof.
  intros env appDir w'.
  apply (createWindowsApp_removes_its_script env 3 "https://github.com/" "GitHub" appDir
           chromeWin (worldOf ["C:"; "C:\Temp"]) w'
           (Result.created
              "C:\Users\u\AppData\Roaming\Microsoft\Windows\Start Menu\Programs\Chrome Apps\GitHub.lnk"
              (iconFailed +:+ startMenuNote))).
  vm_compute. reflexivity.
Defined.

(** ** Browser discovery *)


Section DetectorProperties.
Context `{RT : Runtime} (env : Env).
Variable LOCALAPPDATA : option string.
Variable canExecute : string → World → bool.
Variable pathLookup : string → World → option string.

Lemma browserExists_inv p w b w' :
  browserExists env canExecute p w = (Ret b, w') →
  w' = w ∧ ∃ q, expandHomePath env p = Ret q ∧ b = canExecute q w.
Proof.
  unfold browserExists. intros Hrun.
  apply M_bind_Ret in Hrun as (q & w1 & [Hq <-]%lift_inv & Hrun).
  unfold access in Hrun. injection Hrun as <- <-. eauto.
Qed.

Lemma browserExists_Ret p q w :
  expandHomePath env p = Ret q →
  browserExists env canExecute p w = (Ret (canExecute q w), w).
Proof. intros H. unfold browserExists. by rewrite H. Qed.

Lemma firstExisting_inv paths w r w' :
  firstExisting env canExecute paths w = (Ret r, w') →
  w' = w ∧
  ∀ p, r = Some p → p ∈ paths ∧ ∃ q, expandHomePath env p = Ret q ∧ canExecute q w = true.
Proof.
  induction paths as [|p paths IH]; simpl.
  - intros [<- <-]%mret_inv. split; [done|]. by intros p [=].
  - intros Hrun. apply M_bind_Ret in Hrun as (b & w1 & [-> (q & Hq & ->)]%browserExists_inv & Hrun).
    destruct (canExecute q w) eqn:Hexec.
    + apply mret_inv in Hrun as [<- <-]. split; [done|].
      intros ? [= <-]. split; [apply list_elem_of_here|eauto].
    + destruct (IH Hrun) as [-> Hr]. split; [done|].
      intros p' Hp'. destruct (Hr p' Hp') as [Hin Hq']. split; [by right|done].
Qed.

Lemma findBrowserPath_inv config w r w' :
  findBrowserPath env canExecute pathLookup config w = (Ret r, w') →
  w' = w ∧
  ∀ p, r = Some p → ∃ q, expandHomePath env p = Ret q ∧ canExecute q w = true.
Proof.
  unfold findBrowserPath. intros Hrun.
  apply M_bind_Ret in Hrun as (t & w1 & [-> Ht]%firstExisting_inv & Hrun).
  destruct t as [p|].
  - apply mret_inv in Hrun as [<- <-]. split; [done|]. intros ? [= <-]. by apply Ht.
  - cbv zeta in Hrun. apply tryCatch_inv in Hrun as [Hrun|(e & w1 & Hthrow & Hrun)].
    + apply M_bind_Ret in Hrun as (stdout & w1 & Hlook & Hrun).
      assert (w1 = w) as ->.
      { unfold lookupOnPath in Hlook. destruct (pathLookup _ w); by simplify_eq. }
      destruct (String.eqb _ "").
      * apply mret_inv in Hrun as [<- <-]. split; [done|]. by intros ? [=].
      * apply M_bind_Ret in Hrun as (b & w1 & [-> (q & Hq & ->)]%browserExists_inv & Hrun).
        apply mret_inv in Hrun as [<- <-]. split; [done|].
        destruct (canExecute q w) eqn:Hexec; [|by intros ? [=]]. intros ? [= <-]. eauto.
    + apply mret_inv in Hrun as [<- <-].
      assert (w1 = w) as ->; [|split; [done|by intros ? [=]]].
      unfold mbind, M_bind, lookupOnPath in Hthrow.
      destruct (pathLookup _ w) as [stdout|]; [|by simplify_eq].
      destruct (String.eqb _ ""); [done|].
      unfold browserExists, mbind, M_bind, lift, access in Hthrow.
      destruct (expandHomePath env _); by simplify_eq.
Qed.

(** The tables of the module and of the installer agree on the six
    browsers. *)
Lemma lookupConfig_known key config :
  lookupConfig key (BROWSER_CONFIGS LOCALAPPDATA) = Some config →
  key ∈ browserIds ∧
  BrowserConfig.id config = key ∧
  BrowserConfig.name config = getBrowserName key.
Proof.
  unfold BROWSER_CONFIGS, lookupConfig, browserIds.
  repeat match goal with
         | |- context [if String.eqb key ?x then _ else _] =>
             destruct (String.eqb key x) eqn:Hk;
             [apply eqb_string_true in Hk as ->; intros [= <-]; split; [set_solver|done]
             |clear Hk]
         end.
  done.
Qed.

Lemma own_directory (id platform : string) dirs :
  id ∈ browserIds → directories env platform = Some dirs → is_Some (lookupKey id dirs).
Proof.
  intros Hid. unfold directories.
  destruct (String.eqb platform "darwin"); [|destruct (String.eqb platform "win32");
    [|destruct (String.eqb platform "linux"); [|done]]];
    intros [= <-]; unfold browserIds in *;
    repeat (apply elem_of_cons in Hid as [->|Hid]; [by eexists|]); by apply elem_of_nil in Hid.
Qed.

(** X22.  Whatever detectBrowser returns leaves the world as it was.  When
    it reports a browser as found, the id it reports is the lower-cased
    argument and one of the six of the table, the name is the display name
    the installer uses for that id, the path is not empty and passed the
    executable test (after the expansion of a leading tilde), and on each
    supported platform the installer has a launcher directory of its own
    for that id.  When it reports not found, it gives no path. *)
Theorem detectBrowser_sound (browserId : string) (w w' : World) (d : Detection.t) :
  detectBrowser env LOCALAPPDATA canExecute pathLookup browserId w = (Ret d, w') →
  w' = w ∧
  (Detection.found d = false → Detection.path d = None) ∧
  (Detection.found d = true →
   ∃ id p q,
     id = toLowerCase browserId ∧ id ∈ browserIds ∧
     Detection.id d = Some id ∧
     Detection.name d = Some (getBrowserName id) ∧
     Detection.path d = Some p ∧ p ≠ "" ∧
     expandHomePath env p = Ret q ∧ canExecute q w = true ∧
     ∀ platform dirs, directories env platform = Some dirs → is_Some (lookupKey id dirs)).
Proof.
  unfold detectBrowser. cbv zeta. destruct (inheritedName _); [done|].
  destruct (lookupConfig _ _) as [config|] eqn:Hconfig;
    [|by intros [<- <-]%mret_inv].
  apply lookupConfig_known in Hconfig as (Hid & Hcid & Hname).
  intros Hrun. apply M_bind_Ret in Hrun as (r & w1 & [-> Hr]%findBrowserPath_inv & Hrun).
  destruct (truthyPath r) eqn:Htruthy; [|by apply mret_inv in Hrun as [<- <-]].
  apply M_bind_Ret in Hrun as (profileDir & w1 & [_ <-]%lift_inv & Hrun).
  apply mret_inv in Hrun as [<- <-]. split_and!; [done|done|]. intros _.
  destruct r as [p|]; [|done]. destruct (Hr p eq_refl) as (q & Hq & Hexec).
  exists (toLowerCase browserId), p, q. simpl. rewrite Hcid, Hname.
  split_and!; try done.
  - simpl in Htruthy. by apply negb_true_iff, eqb_string_false in Htruthy.
  - intros platform dirs. by apply own_directory.
Qed.

Lemma firstExisting_first pre p post q w :
  (∀ x, x ∈ pre → ∃ y, expandHomePath env x = Ret y ∧ canExecute y w = false) →
  expandHomePath env p = Ret q → canExecute q w = true →
  firstExisting env canExecute (pre ++ p :: post) w = (Ret (Some p), w).
Proof.
  intros Hpre Hq Hexec. induction pre as [|x pre IH]; simpl.
  - bind_step ltac:(by apply browserExists_Ret). by rewrite Hexec.
  - destruct (Hpre x) as (y & Hy & Hno); [apply list_elem_of_here|].
    bind_step ltac:(by apply browserExists_Ret).
    rewrite Hno. apply IH. intros z Hz. apply Hpre. by right.
Qed.

(** X23.  findBrowserPath tries the paths of the table for the platform in
    their order and returns the first that passes the executable test;
    the look-up on the PATH is not consulted then. *)
Theorem findBrowserPath_first_of_the_table (config : BrowserConfig.t)
    (pre post : list string) (p q : string) (w : World) :
  pathsFor env config = pre ++ p :: post →
  (∀ x, x ∈ pre → ∃ y, expandHomePath env x = Ret y ∧ canExecute y w = false) →
  expandHomePath env p = Ret q → canExecute q w = true →
  findBrowserPath env canExecute pathLookup config w = (Ret (Some p), w).
Proof.
  intros Hpaths Hpre Hq Hexec. unfold findBrowserPath. rewrite Hpaths.
  bind_step ltac:(by eapply firstExisting_first). done.
Qed.

Lemma supportedAmong_inv configs w l w' :
  supportedAmong env canExecute pathLookup configs w = (Ret l, w') →
  w' = w ∧
  Support.id <$> l = fst <$> configs ∧
  Support.name <$> l = (fun c => BrowserConfig.name c.2) <$> configs ∧
  ∀ s, s ∈ l →
    (Support.available s = true ↔ is_Some (Support.path s)) ∧
    ∀ p, Support.path s = Some p →
      p ≠ "" ∧ ∃ q, expandHomePath env p = Ret q ∧ canExecute q w = true.
Proof.
  revert l. induction configs as [|[id config] configs IH]; intros l; simpl.
  - intros [<- <-]%mret_inv. split_and!; try done. by intros s ?%elem_of_nil.
  - intros Hrun. apply M_bind_Ret in Hrun as (r & w1 & [-> Hr]%findBrowserPath_inv & Hrun).
    apply M_bind_Ret in Hrun as (more & w1 & Hmore & Hrun).
    apply mret_inv in Hrun as [<- <-].
    destruct (IH _ Hmore) as (-> & Hids & Hnames & Hall).
    split_and!; [done|by rewrite !fmap_cons, Hids|by rewrite !fmap_cons, Hnames|].
    intros s [->|Hs]%elem_of_cons; [|by apply Hall]. simpl.
    destruct r as [p|]; simpl; [|split; [split; [done|by intros [? [=]]]|done]].
    destruct (String.eqb p "") eqn:Hp; simpl.
    + split; [split; [done|by intros [? [=]]]|done].
    + split; [split; [by eexists|done]|]. intros ? [= <-].
      split; [by apply eqb_string_false|]. by apply Hr.
Qed.

(** X24.  Whenever getSupportedBrowsers returns, it has changed nothing
    and its list has the six browsers of the table in the order of the
    table, under the display names the installer uses; an entry is
    available exactly when it has a path, and each path given is not empty
    and passed the executable test. *)
Theorem getSupportedBrowsers_lists_the_six (w w' : World) (l : list Support.t) :
  getSupportedBrowsers env LOCALAPPDATA canExecute pathLookup w = (Ret l, w') →
  w' = w ∧
  Support.id <$> l = browserIds ∧
  Support.name <$> l = getBrowserName <$> browserIds ∧
  ∀ s, s ∈ l →
    (Support.available s = true ↔ is_Some (Support.path s)) ∧
    ∀ p, Support.path s = Some p →
      p ≠ "" ∧ ∃ q, expandHomePath env p = Ret q ∧ canExecute q w = true.
Proof.
  unfold getSupportedBrowsers. intros Hrun.
  apply supportedAmong_inv in Hrun as (-> & Hids & Hnames & Hall). by split_and!.
Qed.

End DetectorProperties.

(** Concrete runs. *)

Lemma detectBrowser_sound_witness :
  let env := machine "linux" [] in
  let w := worldOf [] in
  let d := {| Detection.found := true; Detection.name := Some "Google Chrome";
              Detection.id := Some "chrome"; Detection.path := Some "/usr/bin/chromium";
              Detection.appFlag := Some "--app=";
              Detection.profileDir := Some "/home/u/.config/google-chrome";
              Detection.error := None |} in
  w = w ∧
  (Detection.found d = false → Detection.path d = None) ∧
  (Detection.found d = true →
   ∃ id p q,
     id = toLowerCase "Chrome" ∧ id ∈ browserIds ∧
     Detection.id d = Some id ∧
     Detection.name d = Some (getBrowserName id) ∧
     Detection.path d = Some p ∧ p ≠ "" ∧
     expandHomePath env p = Ret q ∧ chromiumOnly q w = true ∧
     ∀ platform dirs, directories env platform = Some dirs → is_Some (lookupKey id dirs)).
Proof.
  intros env w d.
  apply (detectBrowser_sound env None chromiumOnly notOnPath "Chrome" w w d).
  vm_compute. reflexivity.
Defined.

Lemma findBrowserPath_first_of_the_table_witness :
  let env := machine "linux" [] in
  from_option
    (fun config =>
       findBrowserPath env chromiumOnly notOnPath config (worldOf [])
       = (Ret (Some "/usr/bin/chromium"), worldOf []))
    False
    (lookupConfig "chrome" (BROWSER_CONFIGS None)).
Proof.
  intros env. simpl.
  apply (findBrowserPath_first_of_the_table env chromiumOnly notOnPath _
           ["/usr/bin/google-chrome"; "/usr/bin/google-chrome-stable"; "/snap/bin/chromium"]
           ["/usr/bin/chromium-browser"] "/usr/bin/chromium" "/usr/bin/chromium" (worldOf [])).
  - reflexivity.
  - intros x Hx. exists x.
    repeat (apply elem_of_cons in Hx as [->|Hx]; [split; reflexivity|]).
    by apply elem_of_nil in Hx.
  - reflexivity.
  - reflexivity.
Defined.

Lemma getSupportedBrowsers_lists_the_six_witness :
  let env := machine "linux" [] in
  let w := worldOf [] in
  let run := getSupportedBrowsers env None chromiumOnly notOnPath w in
  let l := match fst run with Ret l => l | _ => [] end in
  snd run = w ∧
  Support.id <$> l = browserIds ∧
  Support.name <$> l = getBrowserName <$> browserIds ∧
  ∀ s, s ∈ l →
    (Support.available s = true ↔ is_Some (Support.path s)) ∧
    ∀ p, Support.path s = Some p →
      p ≠ "" ∧ ∃ q, expandHomePath env p = Ret q ∧ chromiumOnly q w = true.
Proof.
  intros env w run l.
  apply (getSupportedBrowsers_lists_the_six env None chromiumOnly notOnPath w (snd run) l).
  vm_compute. reflexivity.
Defined.
